(** * The shell command dispatcher of [src/dispatcher.c]

    A shallow embedding of the dispatcher (the execution engine of the shell:
    pipelines, redirection, process creation and reaping) together with the
    properties its specification states about it.

    [src/dispatcher.c] holds three successive revisions of the same
    translation unit, one after the other:
      - lines   1-206: the pipeline logic written inline in
                       [dispatch_external_command]         ([PipelineInline]);
      - lines 208-430: the same logic split into [setup_io],
                       [execute_child_process] and
                       [handle_parent_process]             ([PipelineHelpers]);
      - lines 432-611: the single-command dispatcher that waits with
                       [waitpid]                           ([SingleCommand]).
    [dispatch_parsed_command] and [shell_command_dispatcher] are the same in
    the three of them ([Dispatcher]).

    The code is a sequence of system calls, so the development starts with a
    small executable model of the part of the operating system those calls
    touch ([Posix]): descriptor tables, the file name space, process
    creation and reaping.  Every function of the dispatcher is then a
    computation in a state monad over that model. *)

From Stdlib Require Import ZArith List String Bool Lia.
Import ListNotations.

Local Open Scope Z_scope.

(* ================================================================== *)
(** * The operating system, as far as the dispatcher sees it          *)
(* ================================================================== *)

Module Posix.

(** ** Constants of <unistd.h>, <fcntl.h>, <errno.h> (Linux values) *)

Definition STDIN_FILENO : Z := 0.
Definition STDOUT_FILENO : Z := 1.
Definition STDERR_FILENO : Z := 2.

Definition O_RDONLY : Z := 0.
Definition O_WRONLY : Z := 1.
Definition O_ACCMODE : Z := 3.
Definition O_CREAT : Z := 64.
Definition O_TRUNC : Z := 512.
Definition O_APPEND : Z := 1024.

Definition ENOENT : Z := 2.
Definition EBADF : Z := 9.
Definition ECHILD : Z := 10.
Definition EAGAIN : Z := 11.
Definition EACCES : Z := 13.
Definition EFAULT : Z := 14.
Definition EMFILE : Z := 24.

(** ** Wait statuses, <sys/wait.h> *)

Definition W_EXITCODE (ret sig : Z) : Z := Z.lor (Z.shiftl ret 8) sig.
Definition WTERMSIG (status : Z) : Z := Z.land status 127.
Definition WIFEXITED (status : Z) : bool := WTERMSIG status =? 0.
Definition WEXITSTATUS (status : Z) : Z := Z.shiftr (Z.land status 65280) 8.

(** The status a parent collects for a child that called [exit (code)]:
    only the low eight bits of [code] survive. *)
Definition exit_status (code : Z) : Z := W_EXITCODE (Z.land code 255) 0.

(** The status a parent collects for a child killed by signal [sig]. *)
Definition signal_status (sig : Z) : Z := W_EXITCODE 0 sig.

(** <signal.h> *)
Definition SIGSEGV : Z := 11.

(** ** What a descriptor refers to *)

Inductive fobj :=
| Tty                                   (* the inherited terminal *)
| PipeRd (id : nat)                     (* read end of pipe number [id] *)
| PipeWr (id : nat)                     (* write end of pipe number [id] *)
| File (path : string) (flags : Z).     (* a file opened with [flags] *)

Definition is_pipe_end (o : fobj) : bool :=
  match o with PipeRd _ | PipeWr _ => true | _ => false end.

(** A descriptor table: the open descriptors of one process. *)
Definition fdtable := list (Z * fobj).

Definition fd_lookup (t : fdtable) (fd : Z) : option fobj :=
  match find (fun e => fst e =? fd) t with
  | Some e => Some (snd e)
  | None => None
  end.

Definition fd_open (t : fdtable) (fd : Z) : bool :=
  existsb (fun e => fst e =? fd) t.

Definition fd_remove (t : fdtable) (fd : Z) : fdtable :=
  filter (fun e => negb (fst e =? fd)) t.

Definition fd_set (t : fdtable) (fd : Z) (o : fobj) : fdtable :=
  fd_remove t fd ++ [(fd, o)].

(** The lowest descriptor number not in use, as POSIX allocates them. *)
Fixpoint lowest_free_from (n : nat) (k : Z) (t : fdtable) : Z :=
  match n with
  | O => k
  | S n' => if fd_open t k then lowest_free_from n' (k + 1) t else k
  end.

Definition lowest_free (t : fdtable) : Z := lowest_free_from (List.length t) 0 t.

(** The pipe ends a table still holds. *)
Definition open_pipe_ends (t : fdtable) : fdtable :=
  filter (fun e => is_pipe_end (snd e)) t.

(** ** Files *)

Record inode := { i_readable : bool; i_writable : bool }.

(** ** What a process logs: one event per library call it makes *)

Inductive event :=
| EvPipe (ret rd wr : Z)
| EvOpen (path : option string) (flags ret : Z)
| EvClose (fd ret : Z)
| EvDup2 (oldfd newfd ret : Z)
| EvFork (ret : Z)
| EvWait (ret status : Z)
| EvWaitpid (pid ret status : Z)
| EvExecvp (file : option string) (argv : list string) (ret : Z)
| EvPerror (msg : string) (errno : Z)
| EvStderr (msg : string).

(** ** Children *)

(** How the code a child runs after [fork] ends. *)
Inductive child_end :=
| Replaced (file : string) (argv : list string)   (* [execvp] succeeded *)
| Exited (code : Z)                               (* [exit (code)] *)
| Escaped                                         (* fell back into the caller *)
| Stuck                                           (* blocked for ever *)
| Signalled (sig : Z).                            (* killed by a signal *)

(** What the environment decides for the program a child turns into: the
    wait status it ends with ([None]: it never ends) and its place in the
    order in which the kernel reports terminated children. *)
Record fate := { f_status : option Z; f_rank : nat }.

Record child := {
  c_pid : positive;
  c_end : child_end;
  c_fds : fdtable;              (* its descriptors when its own code ended *)
  c_trace : list event;         (* its own calls, newest first *)
  c_status : option Z;          (* the wait status it will report *)
  c_rank : nat                  (* its place in the reporting order *)
}.

(** ** The state of the world around one process *)

Record world := {
  w_fds : fdtable;                      (* descriptors of this process *)
  w_fd_limit : Z;                       (* RLIMIT_NOFILE *)
  w_next_pipe : nat;                    (* pipes created so far *)
  w_fs : string -> option inode;        (* the file name space *)
  w_creatable : string -> bool;         (* may a missing name be created *)
  w_exec_errno : string -> Z;           (* [execvp]: 0, or why it fails *)
  w_errno : Z;
  w_procs_left : nat;                   (* processes [fork] may still create *)
  w_next_pid : positive;
  w_fate : positive -> fate;            (* per process id *)
  w_children : list child;              (* children not yet waited for *)
  w_uninit : nat -> Z;                  (* contents of uninitialised storage *)
  w_trace : list event                  (* calls made, newest first *)
}.

Definition set_fds (t : fdtable) (w : world) : world :=
  {| w_fds := t; w_fd_limit := w_fd_limit w; w_next_pipe := w_next_pipe w;
     w_fs := w_fs w; w_creatable := w_creatable w;
     w_exec_errno := w_exec_errno w; w_errno := w_errno w;
     w_procs_left := w_procs_left w; w_next_pid := w_next_pid w;
     w_fate := w_fate w; w_children := w_children w;
     w_uninit := w_uninit w; w_trace := w_trace w |}.

Definition set_next_pipe (n : nat) (w : world) : world :=
  {| w_fds := w_fds w; w_fd_limit := w_fd_limit w; w_next_pipe := n;
     w_fs := w_fs w; w_creatable := w_creatable w;
     w_exec_errno := w_exec_errno w; w_errno := w_errno w;
     w_procs_left := w_procs_left w; w_next_pid := w_next_pid w;
     w_fate := w_fate w; w_children := w_children w;
     w_uninit := w_uninit w; w_trace := w_trace w |}.

Definition set_fs (fs : string -> option inode) (w : world) : world :=
  {| w_fds := w_fds w; w_fd_limit := w_fd_limit w;
     w_next_pipe := w_next_pipe w;
     w_fs := fs; w_creatable := w_creatable w;
     w_exec_errno := w_exec_errno w; w_errno := w_errno w;
     w_procs_left := w_procs_left w; w_next_pid := w_next_pid w;
     w_fate := w_fate w; w_children := w_children w;
     w_uninit := w_uninit w; w_trace := w_trace w |}.

Definition set_errno (e : Z) (w : world) : world :=
  {| w_fds := w_fds w; w_fd_limit := w_fd_limit w;
     w_next_pipe := w_next_pipe w;
     w_fs := w_fs w; w_creatable := w_creatable w;
     w_exec_errno := w_exec_errno w; w_errno := e;
     w_procs_left := w_procs_left w; w_next_pid := w_next_pid w;
     w_fate := w_fate w; w_children := w_children w;
     w_uninit := w_uninit w; w_trace := w_trace w |}.

Definition set_procs (left : nat) (next : positive) (cs : list child)
    (w : world) : world :=
  {| w_fds := w_fds w; w_fd_limit := w_fd_limit w;
     w_next_pipe := w_next_pipe w;
     w_fs := w_fs w; w_creatable := w_creatable w;
     w_exec_errno := w_exec_errno w; w_errno := w_errno w;
     w_procs_left := left; w_next_pid := next;
     w_fate := w_fate w; w_children := cs;
     w_uninit := w_uninit w; w_trace := w_trace w |}.

Definition set_trace (tr : list event) (w : world) : world :=
  {| w_fds := w_fds w; w_fd_limit := w_fd_limit w;
     w_next_pipe := w_next_pipe w;
     w_fs := w_fs w; w_creatable := w_creatable w;
     w_exec_errno := w_exec_errno w; w_errno := w_errno w;
     w_procs_left := w_procs_left w; w_next_pid := w_next_pid w;
     w_fate := w_fate w; w_children := w_children w;
     w_uninit := w_uninit w; w_trace := tr |}.

Definition log (e : event) (w : world) : world :=
  set_trace (e :: w_trace w) w.

(** ** Computations: a state monad with the ways a C function can fail to
       return *)

Inductive outcome (A : Type) :=
| Returns (a : A) (w : world)                       (* came back with [a] *)
| Exits (code : Z) (w : world)                      (* called [exit] *)
| Execs (file : string) (argv : list string) (w : world)  (* image replaced *)
| Blocks (w : world)                                (* waits for ever *)
| Killed (sig : Z) (w : world).                     (* killed by a signal *)

Arguments Returns {A} a w.
Arguments Exits {A} code w.
Arguments Execs {A} file argv w.
Arguments Blocks {A} w.
Arguments Killed {A} sig w.

Definition M (A : Type) : Type := world -> outcome A.

Definition ret {A} (a : A) : M A := fun w => Returns a w.

Definition bind {A B} (m : M A) (f : A -> M B) : M B :=
  fun w =>
    match m w with
    | Returns a w' => f a w'
    | Exits c w' => Exits c w'
    | Execs p a w' => Execs p a w'
    | Blocks w' => Blocks w'
    | Killed s w' => Killed s w'
    end.

Definition final_world {A} (o : outcome A) : world :=
  match o with
  | Returns _ w | Exits _ w | Execs _ _ w | Blocks w | Killed _ w => w
  end.

Definition returned {A} (o : outcome A) : option A :=
  match o with Returns a _ => Some a | _ => None end.

Declare Scope sys_scope.
Delimit Scope sys_scope with sys.

Notation "x <- m ;; k" := (bind m (fun x => k))
  (at level 100, m at next level, right associativity) : sys_scope.
Notation "' p <- m ;; k" := (bind m (fun p => k))
  (at level 100, p pattern, m at next level, right associativity) : sys_scope.
Notation "m ;; k" := (bind m (fun _ => k))
  (at level 100, right associativity) : sys_scope.

Local Open Scope sys_scope.

(** ** Library calls *)

Definition get_errno : M Z := fun w => Returns (w_errno w) w.

(** Reading an automatic variable that was never written. *)
Definition uninit (slot : nat) : M Z := fun w => Returns (w_uninit w slot) w.

Definition perror (msg : string) : M unit :=
  fun w => Returns tt (log (EvPerror msg (w_errno w)) w).

Definition fprintf_stderr (msg : string) : M unit :=
  fun w => Returns tt (log (EvStderr msg) w).

Definition sys_exit {A} (code : Z) : M A := fun w => Exits code w.

(** What happens to a process that reads through a null pointer. *)
Definition segfault {A} : M A := fun w => Killed SIGSEGV w.

Definition sys_close (fd : Z) : M Z :=
  fun w =>
    if fd_open (w_fds w) fd
    then Returns 0 (log (EvClose fd 0) (set_fds (fd_remove (w_fds w) fd) w))
    else Returns (-1) (log (EvClose fd (-1)) (set_errno EBADF w)).

Definition sys_dup2 (oldfd newfd : Z) : M Z :=
  fun w =>
    match fd_lookup (w_fds w) oldfd with
    | Some o =>
        if (0 <=? newfd) && (newfd <? w_fd_limit w)
        then Returns newfd (log (EvDup2 oldfd newfd newfd)
                              (set_fds (fd_set (w_fds w) newfd o) w))
        else Returns (-1) (log (EvDup2 oldfd newfd (-1)) (set_errno EBADF w))
    | None => Returns (-1) (log (EvDup2 oldfd newfd (-1)) (set_errno EBADF w))
    end.

(** [pipe (arr)]: on success the two ends are stored in [arr]; on failure
    [arr] keeps what it held. *)
Definition sys_pipe (arr : Z * Z) : M (Z * (Z * Z)) :=
  fun w =>
    let id := w_next_pipe w in
    let rd := lowest_free (w_fds w) in
    let wr := lowest_free (w_fds w ++ [(rd, PipeRd id)]) in
    if wr <? w_fd_limit w
    then Returns (0, (rd, wr))
           (log (EvPipe 0 rd wr)
              (set_next_pipe (S id)
                 (set_fds (w_fds w ++ [(rd, PipeRd id); (wr, PipeWr id)]) w)))
    else Returns (-1, arr) (log (EvPipe (-1) (fst arr) (snd arr))
                              (set_errno EMFILE w)).

Definition wants_write (flags : Z) : bool :=
  negb (Z.land flags O_ACCMODE =? O_RDONLY).

Definition wants_read (flags : Z) : bool :=
  negb (Z.land flags O_ACCMODE =? O_WRONLY).

Definition access_ok (i : inode) (flags : Z) : bool :=
  (negb (wants_read flags) || i_readable i)
  && (negb (wants_write flags) || i_writable i).

(** The inode [open] creates under permission bits [mode]. *)
Definition created (mode : Z) : inode :=
  {| i_readable := Z.testbit mode 8; i_writable := Z.testbit mode 7 |}.

Definition fs_add (fs : string -> option inode) (p : string) (i : inode)
    : string -> option inode :=
  fun q => if String.eqb q p then Some i else fs q.

Definition open_fails (path : option string) (flags e : Z) : M Z :=
  fun w => Returns (-1) (log (EvOpen path flags (-1)) (set_errno e w)).

Definition open_gives (p : string) (flags : Z) : M Z :=
  fun w =>
    let fd := lowest_free (w_fds w) in
    if fd <? w_fd_limit w
    then Returns fd (log (EvOpen (Some p) flags fd)
                       (set_fds (w_fds w ++ [(fd, File p flags)]) w))
    else open_fails (Some p) flags EMFILE w.

(** [open (path, flags, mode)]; [path = None] is the null pointer.  The
    names are those of regular files, one file a name: opening a FIFO, which
    can suspend the caller, and two spellings of one file are not within
    this model. *)
Definition sys_open (path : option string) (flags mode : Z) : M Z :=
  fun w =>
    match path with
    | None => open_fails None flags EFAULT w
    | Some p =>
        match w_fs w p with
        | Some i =>
            if access_ok i flags then open_gives p flags w
            else open_fails path flags EACCES w
        | None =>
            if negb (Z.land flags O_CREAT =? 0) then
              if w_creatable w p
              then open_gives p flags
                     (set_fs (fs_add (w_fs w) p (created mode)) w)
              else open_fails path flags EACCES w
            else open_fails path flags ENOENT w
        end
    end.

(** [execvp (file, argv)]: comes back only when it fails.  The library
    reads the name before it asks the kernel for anything: with a null
    [file] the process does not get [EFAULT], it is killed. *)
Definition sys_execvp (file : option string) (argv : list string) : M Z :=
  fun w =>
    match file with
    | None => segfault w
    | Some f =>
        if w_exec_errno w f =? 0
        then Execs f argv (log (EvExecvp file argv 0) w)
        else Returns (-1) (log (EvExecvp file argv (-1))
                             (set_errno (w_exec_errno w f) w))
    end.

(** The world a freshly forked child starts in: a copy of its parent's,
    with no children and an empty log of its own. *)
Definition child_world (w : world) : world :=
  set_trace [] (set_procs (w_procs_left w) (w_next_pid w) [] w).

Definition run_child (pid : positive) (code : M unit) (w : world) : child :=
  let o := code (child_world w) in
  {| c_pid := pid;
     c_end := match o with
              | Returns _ _ => Escaped
              | Exits c _ => Exited c
              | Execs f a _ => Replaced f a
              | Blocks _ => Stuck
              | Killed s _ => Signalled s
              end;
     c_fds := w_fds (final_world o);
     c_trace := w_trace (final_world o);
     c_status := match o with
                 | Execs _ _ _ => f_status (w_fate w pid)
                 | Exits c _ => Some (exit_status c)
                 | Killed s _ => Some (signal_status s)
                 | _ => None
                 end;
     c_rank := f_rank (w_fate w pid) |}.

(** [fork ()].  [code] is what the caller does where [fork] returned 0; the
    computation that continues is the parent's. *)
Definition sys_fork (code : M unit) : M Z :=
  fun w =>
    match w_procs_left w with
    | O => Returns (-1) (log (EvFork (-1)) (set_errno EAGAIN w))
    | S n =>
        let pid := w_next_pid w in
        Returns (Z.pos pid)
          (log (EvFork (Z.pos pid))
             (set_procs n (Pos.succ pid)
                (w_children w ++ [run_child pid code w]) w))
    end.

(** The child the kernel reports next: among those that terminate, the one
    of least rank, the oldest first among equals. *)
Fixpoint next_report (cs : list child) : option child :=
  match cs with
  | [] => None
  | c :: rest =>
      match c_status c, next_report rest with
      | None, r => r
      | Some _, None => Some c
      | Some _, Some d => if (c_rank c <=? c_rank d)%nat then Some c else Some d
      end
  end.

Definition remove_child (pid : positive) (cs : list child) : list child :=
  filter (fun c => negb (c_pid c =? pid)%positive) cs.

Definition find_child (pid : Z) (cs : list child) : option child :=
  find (fun c => Z.pos (c_pid c) =? pid) cs.

Definition reap (c : child) (w : world) : world :=
  set_procs (S (w_procs_left w)) (w_next_pid w)
    (remove_child (c_pid c) (w_children w)) w.

(** [wait (&status)]: the result and the contents of [status] afterwards. *)
Definition sys_wait (status : Z) : M (Z * Z) :=
  fun w =>
    match next_report (w_children w) with
    | Some c =>
        match c_status c with
        | Some st => Returns (Z.pos (c_pid c), st)
                       (log (EvWait (Z.pos (c_pid c)) st) (reap c w))
        | None => Blocks w
        end
    | None =>
        match w_children w with
        | [] => Returns (-1, status)
                  (log (EvWait (-1) status) (set_errno ECHILD w))
        | _ :: _ => Blocks w
        end
    end.

(** [waitpid (pid, &status, 0)]. *)
Definition sys_waitpid (pid status : Z) : M (Z * Z) :=
  fun w =>
    match find_child pid (w_children w) with
    | Some c =>
        match c_status c with
        | Some st => Returns (pid, st)
                       (log (EvWaitpid pid pid st) (reap c w))
        | None => Blocks w
        end
    | None => Returns (-1, status)
                (log (EvWaitpid pid (-1) status) (set_errno ECHILD w))
    end.

End Posix.

Import Posix.
Local Open Scope sys_scope.

(* ================================================================== *)
(** * The parser's data, <parser.h>                                    *)
(* ================================================================== *)

Module Parser.

(** Modelled from the spec: [parser.h] is not among the sources.  The output
    disposition of a stage is a closed enumeration; the constructor names are
    the ones [dispatcher.c] uses. *)
Inductive command_output_type :=
| COMMAND_OUTPUT_STDOUT
| COMMAND_OUTPUT_FILE_TRUNCATE
| COMMAND_OUTPUT_FILE_APPEND
| COMMAND_OUTPUT_PIPE.

(** Modelled from the spec: [struct command] of [parser.h], with the fields
    [dispatcher.c] reads.  A null [char *] or [struct command *] is [None];
    [argv] is the null-terminated argument vector without its terminator. *)
#[warnings="-register-all"] Inductive command := Command {
  argv : list string;
  input_filename : option string;
  output_type : command_output_type;
  output_filename : option string;
  pipe_to : option command
}.

(** [cmd->argv[0]]: the null terminator itself when the vector is empty. *)
Definition argv0 (cmd : command) : option string := hd_error (argv cmd).

Definition is_pipe (t : command_output_type) : bool :=
  match t with COMMAND_OUTPUT_PIPE => true | _ => false end.

Definition is_file (t : command_output_type) : bool :=
  match t with
  | COMMAND_OUTPUT_FILE_TRUNCATE | COMMAND_OUTPUT_FILE_APPEND => true
  | _ => false
  end.

(** The chain of stages that starts at [cmd], in order. *)
Fixpoint stages (cmd : command) : list command :=
  cmd :: match pipe_to cmd with
         | Some next => stages next
         | None => []
         end.

(** Modelled from the spec: the chains the parser hands over; a stage pipes
    if and only if another stage follows it. *)
Fixpoint well_formed (cmd : command) : bool :=
  match pipe_to cmd with
  | Some next => is_pipe (output_type cmd) && well_formed next
  | None => negb (is_pipe (output_type cmd))
  end.

End Parser.

Import Parser.

(** A line feed, for the messages that end in one. *)
Definition nl : string := String (Ascii.ascii_of_nat 10) EmptyString.

(** The local variables of [dispatch_external_command] that the loop over
    the stages reads and writes. *)
Record locals := {
  input_fd : Z;
  output_fd : Z;
  prev_pipe : Z * Z;
  curr_pipe : Z * Z
}.

(** [if (b) { m; }] *)
Definition when (b : bool) (m : M Z) : M unit :=
  if b then (m ;; ret tt) else ret tt.

(** [return WIFEXITED(status) ? WEXITSTATUS(status) : -1;] *)
Definition decode_status (status : Z) : Z :=
  if WIFEXITED status then WEXITSTATUS status else -1.

(** [while (wait(&status) > 0);] -- every successful [wait] removes a child,
    so the children the process has bound the number of turns; [turns] is
    that bound. *)
Fixpoint wait_loop (turns : nat) (status : Z) : M Z :=
  ' (r, status') <- sys_wait status ;;
  if r >? 0
  then match turns with
       | S n => wait_loop n status'
       | O => fun w => Blocks w
       end
  else ret status'.

Definition wait_for_children (status : Z) : M Z :=
  fun w => wait_loop (List.length (w_children w)) status w.

(* ================================================================== *)
(** * Revision with the pipeline logic inline (lines 1-206)            *)
(* ================================================================== *)

Module PipelineInline.

(** Lines 94-121: what the child does. *)
Definition child_branch (current_cmd : command) (l : locals) : M unit :=
  when (negb (input_fd l =? STDIN_FILENO))
    (sys_dup2 (input_fd l) STDIN_FILENO ;; sys_close (input_fd l)) ;;
  when (negb (output_fd l =? STDOUT_FILENO))
    (sys_dup2 (output_fd l) STDOUT_FILENO ;; sys_close (output_fd l)) ;;
  when (is_pipe (output_type current_cmd))
    (sys_close (fst (curr_pipe l)) ;; sys_close (snd (curr_pipe l))) ;;
  sys_execvp (argv0 current_cmd) (argv current_cmd) ;;
  e <- get_errno ;;
  (if e =? ENOENT
   then fprintf_stderr ("error: cannot find command" ++ nl)
   else perror "Failed to execute the external command") ;;
  sys_exit (-1).

(** Lines 123-144: what the parent does, up to the advance to the next
    stage. *)
Definition parent_branch (current_cmd : command) (l : locals) : M locals :=
  when (negb (fst (prev_pipe l) =? -1))
    (sys_close (fst (prev_pipe l)) ;; sys_close (snd (prev_pipe l))) ;;
  when (is_pipe (output_type current_cmd)) (sys_close (snd (curr_pipe l))) ;;
  ret {| input_fd := if is_pipe (output_type current_cmd)
                     then fst (curr_pipe l) else STDIN_FILENO;
         output_fd := output_fd l;
         prev_pipe := curr_pipe l;
         curr_pipe := curr_pipe l |}.

(** Lines 72-83: the output descriptor of the stage.  [inl rv] is
    [return rv;]. *)
Definition resolve_output (pipeline current_cmd : command) (l : locals)
    : M (Z + locals) :=
  match output_type current_cmd with
  | COMMAND_OUTPUT_PIPE =>
      ' (rc, arr) <- sys_pipe (curr_pipe l) ;;
      if rc =? -1
      then perror "pipe failed" ;; ret (inl (-1))
      else ret (inr {| input_fd := input_fd l; output_fd := snd arr;
                       prev_pipe := prev_pipe l; curr_pipe := arr |})
  | COMMAND_OUTPUT_FILE_TRUNCATE =>
      fd <- sys_open (output_filename current_cmd)
              (Z.lor (Z.lor O_WRONLY O_CREAT) O_TRUNC) 420 ;;
      ret (inr {| input_fd := input_fd l; output_fd := fd;
                  prev_pipe := prev_pipe l; curr_pipe := curr_pipe l |})
  | COMMAND_OUTPUT_FILE_APPEND =>
      fd <- sys_open (output_filename pipeline)
              (Z.lor (Z.lor O_WRONLY O_CREAT) O_APPEND) 420 ;;
      ret (inr {| input_fd := input_fd l; output_fd := fd;
                  prev_pipe := prev_pipe l; curr_pipe := curr_pipe l |})
  | COMMAND_OUTPUT_STDOUT => ret (inr l)
  end.

(** Lines 72-148: one turn of [while (current_cmd)].  [inl rv] is
    [return rv;], [inr l] the locals when the turn ends with
    [current_cmd = current_cmd->pipe_to;]. *)
Definition stage (pipeline current_cmd : command) (l : locals)
    : M (Z + locals) :=
  r <- resolve_output pipeline current_cmd l ;;
  match r with
  | inl rv => ret (inl rv)
  | inr l =>
      if is_file (output_type current_cmd) && (output_fd l =? -1)
      then perror "Failed to open output file" ;; ret (inl (-1))
      else
        pid <- sys_fork (child_branch current_cmd l) ;;
        if pid >? 0
        then l' <- parent_branch current_cmd l ;; ret (inr l')
        else perror "fork failed" ;; ret (inl (-1))
  end.

(** Lines 71-150. *)
Fixpoint stage_loop (pipeline current_cmd : command) (l : locals)
    : M (Z + locals) :=
  r <- stage pipeline current_cmd l ;;
  match r with
  | inl rv => ret (inl rv)
  | inr l' =>
      match pipe_to current_cmd with
      | Some next => stage_loop pipeline next l'
      | None => ret (inr l')
      end
  end.

(** Lines 32-156. *)
Definition dispatch_external_command (pipeline : command) : M Z :=
  status <- uninit 0 ;;
  c0 <- uninit 1 ;;
  c1 <- uninit 2 ;;
  r <- stage_loop pipeline pipeline
         {| input_fd := STDIN_FILENO; output_fd := STDOUT_FILENO;
            prev_pipe := (-1, -1); curr_pipe := (c0, c1) |} ;;
  match r with
  | inl rv => ret rv
  | inr _ =>
      status <- wait_for_children status ;;
      ret (decode_status status)
  end.

End PipelineInline.

(* ================================================================== *)
(** * Revision with helper functions (lines 208-430)                   *)
(* ================================================================== *)

Module PipelineHelpers.

(** Lines 228-257.  The three pointer arguments point into the caller's
    locals, so the function takes the locals and gives them back with its
    result. *)
Definition setup_io (current_cmd : command) (l : locals) : M (Z * locals) :=
  r <- match output_type current_cmd with
       | COMMAND_OUTPUT_PIPE =>
           ' (rc, arr) <- sys_pipe (curr_pipe l) ;;
           if rc =? -1
           then perror "pipe failed" ;; ret (inl (-1, l))
           else ret (inr {| input_fd := input_fd l; output_fd := snd arr;
                            prev_pipe := prev_pipe l; curr_pipe := arr |})
       | COMMAND_OUTPUT_FILE_TRUNCATE =>
           fd <- sys_open (output_filename current_cmd)
                   (Z.lor (Z.lor O_WRONLY O_CREAT) O_TRUNC) 420 ;;
           ret (inr {| input_fd := input_fd l; output_fd := fd;
                       prev_pipe := prev_pipe l; curr_pipe := curr_pipe l |})
       | COMMAND_OUTPUT_FILE_APPEND =>
           fd <- sys_open (output_filename current_cmd)
                   (Z.lor (Z.lor O_WRONLY O_CREAT) O_APPEND) 420 ;;
           ret (inr {| input_fd := input_fd l; output_fd := fd;
                       prev_pipe := prev_pipe l; curr_pipe := curr_pipe l |})
       | COMMAND_OUTPUT_STDOUT => ret (inr l)
       end ;;
  match r with
  | inl early => ret early
  | inr l =>
      r <- match input_filename current_cmd with
           | Some f =>
               fd <- sys_open (Some f) O_RDONLY 0 ;;
               let l' := {| input_fd := fd; output_fd := output_fd l;
                            prev_pipe := prev_pipe l;
                            curr_pipe := curr_pipe l |} in
               if fd =? -1
               then perror "Failed to open input file for reading" ;;
                    ret (inl (-1, l'))
               else ret (inr l')
           | None => ret (inr l)
           end ;;
      match r with
      | inl early => ret early
      | inr l =>
          if (output_fd l =? -1) && is_file (output_type current_cmd)
          then perror "Failed to open output file" ;; ret (-1, l)
          else ret (0, l)
      end
  end.

(** Lines 259-279. *)
Definition execute_child_process (current_cmd : command)
    (input_fd output_fd : Z) (curr_pipe : Z * Z) : M unit :=
  when (negb (input_fd =? STDIN_FILENO))
    (sys_dup2 input_fd STDIN_FILENO ;; sys_close input_fd) ;;
  when (negb (output_fd =? STDOUT_FILENO))
    (sys_dup2 output_fd STDOUT_FILENO ;; sys_close output_fd) ;;
  when (is_pipe (output_type current_cmd)) (sys_close (snd curr_pipe)) ;;
  sys_execvp (argv0 current_cmd) (argv current_cmd) ;;
  perror "execvp failed" ;;
  sys_exit (-1).

(** Lines 281-298. *)
Definition handle_parent_process (current_cmd : command) (l : locals)
    : M locals :=
  when (is_pipe (output_type current_cmd)) (sys_close (snd (curr_pipe l))) ;;
  when (negb (fst (prev_pipe l) =? -1)) (sys_close (fst (prev_pipe l))) ;;
  ret {| input_fd := if is_pipe (output_type current_cmd)
                     then fst (curr_pipe l) else STDIN_FILENO;
         output_fd := output_fd l;
         prev_pipe := curr_pipe l;
         curr_pipe := curr_pipe l |}.

(** Lines 357-373: one turn of [while (current_cmd)].  [inl rv] is
    [return rv;], [inr l] the locals when the turn ends with
    [current_cmd = current_cmd->pipe_to;]. *)
Definition stage (current_cmd : command) (l : locals) : M (Z + locals) :=
  ' (rc, l) <- setup_io current_cmd l ;;
  if rc =? -1
  then ret (inl (-1))
  else
    pid <- sys_fork (execute_child_process current_cmd
                       (input_fd l) (output_fd l) (curr_pipe l)) ;;
    if pid >? 0
    then l' <- handle_parent_process current_cmd l ;; ret (inr l')
    else perror "fork failed" ;; ret (inl (-1)).

(** Lines 356-374. *)
Fixpoint stage_loop (current_cmd : command) (l : locals) : M (Z + locals) :=
  r <- stage current_cmd l ;;
  match r with
  | inl rv => ret (inl rv)
  | inr l' =>
      match pipe_to current_cmd with
      | Some next => stage_loop next l'
      | None => ret (inr l')
      end
  end.

(** Lines 317-380. *)
Definition dispatch_external_command (pipeline : command) : M Z :=
  status <- uninit 0 ;;
  c0 <- uninit 1 ;;
  c1 <- uninit 2 ;;
  r <- stage_loop pipeline
         {| input_fd := STDIN_FILENO; output_fd := STDOUT_FILENO;
            prev_pipe := (-1, -1); curr_pipe := (c0, c1) |} ;;
  match r with
  | inl rv => ret rv
  | inr _ =>
      status <- wait_for_children status ;;
      ret (decode_status status)
  end.

End PipelineHelpers.

(* ================================================================== *)
(** * Single-command revision (lines 432-611)                          *)
(* ================================================================== *)

Module SingleCommand.

(** Lines 536-547: what the child does. *)
Definition child_branch (pipeline : command) : M unit :=
  sys_execvp (argv0 pipeline) (argv pipeline) ;;
  e <- get_errno ;;
  (if e =? ENOENT
   then fprintf_stderr ("error: cannot find command" ++ nl)
   else perror "Failed to execute the external command") ;;
  sys_exit (-1).

(** Lines 463-561. *)
Definition dispatch_external_command (pipeline : command) : M Z :=
  status <- uninit 0 ;;
  r <- match input_filename pipeline with
       | Some f =>
           fd <- sys_open (Some f) O_RDONLY 0 ;;
           if fd =? -1
           then perror "Failed to open input file" ;; ret (inl (-1))
           else ret (inr fd)
       | None => ret (inr STDIN_FILENO)
       end ;;
  match r with
  | inl rv => ret rv
  | inr input_fd =>
      r <- match output_type pipeline with
           | COMMAND_OUTPUT_FILE_TRUNCATE =>
               fd <- sys_open (output_filename pipeline)
                       (Z.lor (Z.lor O_WRONLY O_CREAT) O_TRUNC) 420 ;;
               if fd =? -1
               then perror "Failed to open output file for truncation" ;;
                    sys_close input_fd ;; ret (inl (-1))
               else ret (inr fd)
           | COMMAND_OUTPUT_FILE_APPEND =>
               fd <- sys_open (output_filename pipeline)
                       (Z.lor (Z.lor O_WRONLY O_CREAT) O_APPEND) 420 ;;
               if fd =? -1
               then perror "Failed to open output file for appending" ;;
                    sys_close input_fd ;; ret (inl (-1))
               else ret (inr fd)
           | _ => ret (inr STDOUT_FILENO)
           end ;;
      match r with
      | inl rv => ret rv
      | inr _ =>
          pid <- sys_fork (child_branch pipeline) ;;
          if pid =? -1
          then perror "Failed to fork child process" ;; ret (-1)
          else
            ' (_, status) <- sys_waitpid pid status ;;
            if WIFEXITED status then ret (WEXITSTATUS status) else ret (-1)
      end
  end.

End SingleCommand.

(* ================================================================== *)
(** * The dispatcher proper, the same in the three revisions           *)
(* ================================================================== *)

Module Dispatcher.

(** A builtin's handler: [int handler (argv, last_rv, bool *shell_should_exit)].
    The flag it may write travels in and out with the status. *)
Definition handler := list string -> Z -> bool -> M (Z * bool).

Section Dispatcher.

(** Modelled from the spec: [parse_input] of [parser.h]; the error code
    ([0]: none) and the chain it stores through its second argument. *)
Variable parse_input : string -> Z * option command.

(** Modelled from the spec: the table of messages of [parser.h]. *)
Variable parse_error_str : Z -> string.

(** Modelled from the spec: the table of [shell_builtins.h], without the
    sentinel that ends it. *)
Variable builtin_commands : list (string * handler).

(** The [dispatch_external_command] of the revision at hand. *)
Variable dispatch_external_command : command -> M Z.

(** Whether [name] is the first word of a command, [arg0]. *)
Definition names (name : string) (arg0 : option string) : bool :=
  match arg0 with
  | Some a => String.eqb name a
  | None => false
  end.

(** [!strcmp (name, cmd->argv[0])]: [strcmp] reads both strings, so a
    command without a first word, whose [argv[0]] is the null pointer, kills
    the shell. *)
Definition strcmp_equal (name : string) (arg0 : option string) : M bool :=
  match arg0 with
  | Some _ => ret (names name arg0)
  | None => segfault
  end.

(** The [for] loop of [dispatch_parsed_command], from entry [table] on. *)
Fixpoint dispatch_from (table : list (string * handler)) (cmd : command)
    (last_rv : Z) (shell_should_exit : bool) : M (Z * bool) :=
  match table with
  | (name, run) :: rest =>
      same <- strcmp_equal name (argv0 cmd) ;;
      if same
      then run (argv cmd) last_rv shell_should_exit
      else dispatch_from rest cmd last_rv shell_should_exit
  | [] =>
      rv <- dispatch_external_command cmd ;;
      ret (rv, shell_should_exit)
  end.

Definition dispatch_parsed_command (cmd : command) (last_rv : Z)
    (shell_should_exit : bool) : M (Z * bool) :=
  dispatch_from builtin_commands cmd last_rv shell_should_exit.

(** [free_parse_result] releases memory only and has no counterpart
    here. *)
Definition shell_command_dispatcher (input : string) (last_rv : Z)
    (shell_should_exit : bool) : M (Z * bool) :=
  let (parse_error, parse_result) := parse_input input in
  if negb (parse_error =? 0)
  then fprintf_stderr ("Input parse error: " ++ parse_error_str parse_error
                         ++ nl) ;;
       ret (-1, shell_should_exit)
  else
    match parse_result with
    | None => ret (last_rv, shell_should_exit)
    | Some cmd =>
        dispatch_parsed_command cmd last_rv shell_should_exit
    end.

(** Whether [cmd] names a builtin. *)
Definition is_builtin (cmd : command) : bool :=
  existsb (fun e => names (fst e) (argv0 cmd)) builtin_commands.

End Dispatcher.

End Dispatcher.

(* ================================================================== *)
(** * The three revisions side by side                                 *)
(* ================================================================== *)

Inductive revision := Inline | Helpers | Single.

Definition dispatch_external_command_of (rev : revision) : command -> M Z :=
  match rev with
  | Inline => PipelineInline.dispatch_external_command
  | Helpers => PipelineHelpers.dispatch_external_command
  | Single => SingleCommand.dispatch_external_command
  end.

(** The revisions that run pipelines. *)
Definition runs_pipelines (rev : revision) : bool :=
  match rev with Single => false | _ => true end.

(* ================================================================== *)
(** * What the properties are stated with                              *)
(* ================================================================== *)

(** ** What a log tells *)

Definition is_fork (e : event) : bool :=
  match e with EvFork _ => true | _ => false end.

Definition is_wait (e : event) : bool :=
  match e with EvWait _ _ | EvWaitpid _ _ _ => true | _ => false end.

(** An event that is neither a [fork] nor a [wait]. *)
Definition quiet (e : event) : bool := negb (is_fork e) && negb (is_wait e).

(** The calls to [fork] in a log. *)
Definition forks (tr : list event) : nat := List.length (filter is_fork tr).

(** The calls to [wait] and [waitpid] in a log. *)
Definition waits (tr : list event) : nat := List.length (filter is_wait tr).

(** The status of the child reported last: the newest successful [wait] or
    [waitpid] of the log. *)
Fixpoint last_reported (tr : list event) : option Z :=
  match tr with
  | [] => None
  | EvWait r st :: tr' => if r >? 0 then Some st else last_reported tr'
  | EvWaitpid _ r st :: tr' => if r >? 0 then Some st else last_reported tr'
  | _ :: tr' => last_reported tr'
  end.

(** Whether the newest entry of a log is a message of [perror]. *)
Definition ends_with_perror (tr : list event) : bool :=
  match tr with EvPerror _ _ :: _ => true | _ => false end.

(** The status reported last, the number of calls to [fork], and the file
    name space are the three things the properties below follow through a
    run. *)
Definition reported (w : world) : option Z := last_reported (w_trace w).
Definition forked (w : world) : nat := forks (w_trace w).

(** ** Computations and observations *)

(** [m] leaves the observation [obs] of the world as it was, however it
    ends. *)
Definition stable {X : Type} (obs : world -> X) {A : Type} (m : M A) : Prop :=
  forall w, obs (final_world (m w)) = obs w.

(** [m] comes back from [w], with a result and in a world that satisfy
    [Q]. *)
Definition wp {A} (m : M A) (w : world) (Q : A -> world -> Prop) : Prop :=
  exists a w', m w = Returns a w' /\ Q a w'.

(** [m] always comes back. *)
Definition total {A} (m : M A) : Prop := forall w, wp m w (fun _ _ => True).

(** An observation no descriptor operation and no message can change. *)
Class Framed {X : Type} (obs : world -> X) : Prop := {
  framed_fds : forall t w, obs (set_fds t w) = obs w;
  framed_errno : forall e w, obs (set_errno e w) = obs w;
  framed_next_pipe : forall n w, obs (set_next_pipe n w) = obs w;
  framed_log : forall e w, quiet e = true -> obs (log e w) = obs w
}.

(** An observation that does not look at the file name space. *)
Class FsBlind {X : Type} (obs : world -> X) : Prop :=
  fs_blind : forall fs w, obs (set_fs fs w) = obs w.

(** An observation that does not look at the processes. *)
Class ForkBlind {X : Type} (obs : world -> X) : Prop := {
  fork_blind_procs : forall n p cs w, obs (set_procs n p cs w) = obs w;
  fork_blind_log : forall r w, obs (log (EvFork r) w) = obs w
}.

(** ** Input files that cannot be opened *)

(** Opening [f] for reading would fail in [w]: it is missing, or it may not
    be read. *)
Definition unreadable_now (w : world) (f : string) : bool :=
  match w_fs w f with
  | Some i => negb (i_readable i)
  | None => true
  end.

(** Stage [cmd] opens [f] as its output file (and creates it when it is
    missing). *)
Definition creates (cmd : command) (f : string) : bool :=
  is_file (output_type cmd)
  && match output_filename cmd with
     | Some g => String.eqb g f
     | None => false
     end.

(** [f] cannot be opened for reading now, and none of the stages [upto]
    brings it into being. *)
Definition cannot_be_opened (w : world) (upto : list command) (f : string)
    : bool :=
  unreadable_now w f
  && match w_fs w f with
     | Some _ => true
     | None => forallb (fun c => negb (creates c f)) upto
     end.

(** What a stage may do to the files: bring its own output file into
    being. *)
Definition fs_grows (cmd : command) (w w' : world) : Prop :=
  forall f, w_fs w' f = w_fs w f \/ (w_fs w f = None /\ creates cmd f = true).

(** ** The dispatcher's three ways *)

(** Whether the line [input] makes the dispatcher call a builtin's
    handler. *)
Definition calls_builtin (parse_input : string -> Z * option command)
    (builtin_commands : list (string * Dispatcher.handler))
    (input : string) : bool :=
  match parse_input input with
  | (e, Some cmd) => (e =? 0) && Dispatcher.is_builtin builtin_commands cmd
  | (_, None) => false
  end.

(** The dispatcher of a revision. *)
Definition shell_command_dispatcher_of (rev : revision)
    (parse_input : string -> Z * option command)
    (parse_error_str : Z -> string)
    (builtin_commands : list (string * Dispatcher.handler))
    : string -> Z -> bool -> M (Z * bool) :=
  Dispatcher.shell_command_dispatcher parse_input parse_error_str
    builtin_commands (dispatch_external_command_of rev).

(** ** Pipe ends held by the shell *)

(** The entries of a descriptor table whose number is [k] at least. *)
Definition count_from (k : Z) (t : fdtable) : nat :=
  List.length (filter (fun e => k <=? fst e) t).

(** The pipe ends the process holds. *)
Definition pipe_ends (w : world) : fdtable := open_pipe_ends (w_fds w).

(** What holds each time the loop over the stages starts a turn: the shell
    holds no pipe end and [prev_pipe] is still [{-1, -1}], or the only pipe
    end it holds is the read end of the pipe before, on [prev_pipe[0]]. *)
Definition keeps_prev_end (l : locals) (w : world) : Prop :=
  (fst (prev_pipe l) = -1 /\ pipe_ends w = [])
  \/ (fst (prev_pipe l) <> -1
      /\ exists id, pipe_ends w = [(fst (prev_pipe l), PipeRd id)]).

(** ** How a child's own code may end *)

(** The child either has its image replaced or calls [exit (-1)]; it does
    not come back to the code that called [fork], and it does not block. *)
Definition ends_child (o : outcome unit) : Prop :=
  match o with
  | Execs _ _ _ => True
  | Exits code _ => code = -1 /\ WEXITSTATUS (exit_status code) = 255
  | Returns _ _ | Blocks _ | Killed _ _ => False
  end.

(** ** A single command without redirection *)

Definition single_command (cmd : command) : Prop :=
  input_filename cmd = None
  /\ output_type cmd = COMMAND_OUTPUT_STDOUT
  /\ pipe_to cmd = None.

(* ================================================================== *)
(** * Concrete pipelines and worlds                                    *)
(* ================================================================== *)

Module Scenarios.

(** The descriptors a shell starts with. *)
Definition terminal : fdtable := [(0, Tty); (1, Tty); (2, Tty)].

Definition exits (code : Z) (rank : nat) : fate :=
  {| f_status := Some (exit_status code); f_rank := rank |}.

Definition killed (sig : Z) (rank : nat) : fate :=
  {| f_status := Some (signal_status sig); f_rank := rank |}.

(** The fate of each process of a table; the others exit with 0. *)
Fixpoint fate_in (table : list (positive * fate)) (pid : positive) : fate :=
  match table with
  | [] => exits 0 0
  | (p, f) :: rest => if (p =? pid)%positive then f else fate_in rest pid
  end.

Fixpoint file_in (table : list (string * inode)) (p : string)
    : option inode :=
  match table with
  | [] => None
  | (q, i) :: rest => if String.eqb q p then Some i else file_in rest p
  end.

(** A shell with the terminal on its three descriptors, no child, room for
    [procs] processes, whose next process gets number 100; the program
    ["nosuch"] does not exist and ["noperm"] may not be executed. *)
Definition shell_world (procs : nat) (fates : list (positive * fate))
    (files : list (string * inode)) : world :=
  {| w_fds := terminal;
     w_fd_limit := 1024;
     w_next_pipe := 0;
     w_fs := file_in files;
     w_creatable := fun _ => true;
     w_exec_errno := fun p => if String.eqb p "nosuch" then ENOENT
                              else if String.eqb p "noperm" then EACCES
                              else 0;
     w_errno := 0;
     w_procs_left := procs;
     w_next_pid := 100;
     w_fate := fate_in fates;
     w_children := [];
     w_uninit := fun _ => 0;
     w_trace := [] |}.

(** [prog] *)
Definition simple (prog : string) : command :=
  Command [prog] None COMMAND_OUTPUT_STDOUT None None.

(** [prog | next] *)
Definition piped (prog : string) (next : command) : command :=
  Command [prog] None COMMAND_OUTPUT_PIPE None (Some next).

(** [prog < file] *)
Definition reading (prog file : string) : command :=
  Command [prog] (Some file) COMMAND_OUTPUT_STDOUT None None.

(** [prog >> file] *)
Definition appending (prog file : string) : command :=
  Command [prog] None COMMAND_OUTPUT_FILE_APPEND (Some file) None.

(** [cat < nonexistent_file] *)
Definition cat_missing : command := reading "cat" "nonexistent_file".

(** [ls | cat < nonexistent_file] *)
Definition ls_cat_missing : command := piped "ls" cat_missing.

(** [slow | fast], where [slow] exits with 3 after [fast] has exited
    with 0. *)
Definition slow_fast : command := piped "slow" (simple "fast").
Definition slow_ends_last : world :=
  shell_world 8 [(100%positive, exits 3 2); (101%positive, exits 0 1)] [].

(** [yes | head], where [head] is killed by signal 9 after [yes] has
    exited. *)
Definition yes_head : command := piped "yes" (simple "head").
Definition head_killed : world :=
  shell_world 8 [(100%positive, exits 0 1); (101%positive, killed 9 2)] [].

(** [a | b] *)
Definition a_b : command := piped "a" (simple "b").

(** A shell that can create one more process only. *)
Definition one_process_left : world := shell_world 1 [] [].

(** A shell with room for processes. *)
Definition roomy : world := shell_world 8 [] [].

(** [a | b >> out] *)
Definition a_b_append : command := piped "a" (appending "b" "out").

(** [false], which exits with 1. *)
Definition false_cmd : command := simple "false".
Definition false_exits_1 : world := shell_world 8 [(100%positive, exits 1 0)] [].

(** [sleep | cat < nonexistent_file] and [sleep | cat >> out]: pipelines
    that are given up after the process for [sleep] has been made. *)
Definition sleep_cat_missing : command := piped "sleep" cat_missing.
Definition sleep_cat_append : command := piped "sleep" (appending "cat" "out").

(** Process 100 exits with 0, after process 101 has exited with 1. *)
Definition sleep_outlives_false : world :=
  shell_world 8 [(100%positive, exits 0 2); (101%positive, exits 1 1)] [].

(** The locals of [dispatch_external_command] when its loop starts. *)
Definition fresh_locals : locals :=
  {| input_fd := STDIN_FILENO; output_fd := STDOUT_FILENO;
     prev_pipe := (-1, -1); curr_pipe := (0, 0) |}.

(** A parser for four lines: the empty line is blank, ["exit"] and ["ls"]
    are single commands, anything else is a syntax error. *)
Definition parse (input : string) : Z * option command :=
  if String.eqb input "" then (0, None)
  else if String.eqb input "exit" then (0, Some (simple "exit"))
  else if String.eqb input "ls" then (0, Some (simple "ls"))
  else (1, None).

Definition parse_message (e : Z) : string := "syntax error".

(** The builtin [exit]: asks the shell to stop and keeps the status. *)
Definition builtin_exit : Dispatcher.handler :=
  fun _ last_rv _ => ret (last_rv, true).

Definition builtins : list (string * Dispatcher.handler) :=
  [("exit"%string, builtin_exit)].

End Scenarios.

(* ================================================================== *)
(** * What the further properties are stated with                      *)
(* ================================================================== *)

(** The chain [cmd] with every named input file forgotten. *)
Fixpoint strip_input (cmd : command) : command :=
  Command (argv cmd) None (output_type cmd) (output_filename cmd)
    match pipe_to cmd with
    | Some next => Some (strip_input next)
    | None => None
    end.

(** Whether [open] fails on [f] for writing, with [O_CREAT]: a null pointer,
    a file that may not be written, or one that may not be created. *)
Definition cannot_be_written (w : world) (f : option string) : bool :=
  match f with
  | None => true
  | Some p =>
      match w_fs w p with
      | Some i => negb (i_writable i)
      | None => negb (w_creatable w p)
      end
  end.

(** The descriptors of the process that are not pipe ends. *)
Definition other_fds (w : world) : fdtable :=
  filter (fun e => negb (is_pipe_end (snd e))) (w_fds w).

(** No descriptor number is twice in the table of the process. *)
Definition distinct_fds (w : world) : Prop := NoDup (map fst (w_fds w)).

(** The calls to [wait] and [waitpid] the process has made. *)
Definition waited (w : world) : nat := waits (w_trace w).

(** [m] takes every world to one that [R] relates to it, however it ends. *)
Definition keeps (R : world -> world -> Prop) {A : Type} (m : M A) : Prop :=
  forall w, R w (final_world (m w)).

(** What was open and no pipe end still is, and the descriptor numbers stay
    distinct. *)
Definition fds_kept (w w' : world) : Prop :=
  incl (other_fds w) (other_fds w') /\ (distinct_fds w -> distinct_fds w').

(** What could not be written still cannot. *)
Definition unwritable_kept (w w' : world) : Prop :=
  forall f, cannot_be_written w f = true -> cannot_be_written w' f = true.

(** [exit | ls]: a builtin at the head of a pipeline. *)
Definition exit_ls : command :=
  Command ["exit"%string] None COMMAND_OUTPUT_PIPE None
    (Some (Command ["ls"%string] None COMMAND_OUTPUT_STDOUT None None)).

(** The room left for processes and the children of the process. *)
Definition processes (w : world) : nat * list child :=
  (w_procs_left w, w_children w).

(** [execvp] comes back from the words of [cmd]: the command has a first
    word, and the program it names cannot be run. *)
Definition cannot_run (w : world) (cmd : command) : Prop :=
  match argv0 cmd with
  | Some a => w_exec_errno w a <> 0
  | None => False
  end.

(** A shell that has a child already: process 7, which goes on running. *)
Definition busy_shell : world :=
  {| w_fds := Scenarios.terminal;
     w_fd_limit := 1024;
     w_next_pipe := 0;
     w_fs := fun _ => None;
     w_creatable := fun _ => true;
     w_exec_errno := fun _ => 0;
     w_errno := 0;
     w_procs_left := 8;
     w_next_pid := 100;
     w_fate := fun _ => Scenarios.exits 1 0;
     w_children := [ {| c_pid := 7; c_end := Replaced "sleep" ["sleep"%string];
                        c_fds := Scenarios.terminal; c_trace := [];
                        c_status := None; c_rank := 0 |} ];
     w_uninit := fun _ => 0;
     w_trace := [] |}.

(** [ls > out] *)
Definition ls_to_out : command :=
  Command ["ls"%string] None COMMAND_OUTPUT_FILE_TRUNCATE (Some "out"%string)
    None.

(** A shell where [out] exists and may not be written. *)
Definition out_read_only : world :=
  Scenarios.shell_world 8 []
    [("out"%string, {| i_readable := true; i_writable := false |})].

(** [a | b > out] *)
Definition a_b_to_out : command :=
  Command ["a"%string] None COMMAND_OUTPUT_PIPE None
    (Some (Command ["b"%string] None COMMAND_OUTPUT_FILE_TRUNCATE
             (Some "out"%string) None)).

(** Stage [cmd] is redirected from or to the file [p]. *)
Definition names_file (cmd : command) (p : string) : Prop :=
  input_filename cmd = Some p
  \/ (is_file (output_type cmd) = true /\ output_filename cmd = Some p).

(** The process holds a descriptor open on the file [p]. *)
Definition holds_file (w : world) (p : string) : Prop :=
  exists fd flags, In (fd, File p flags) (w_fds w).

(** [sort < in > out] *)
Definition sort_in_out : command :=
  Command ["sort"%string] (Some "in"%string) COMMAND_OUTPUT_FILE_TRUNCATE
    (Some "out"%string) None.

(** The shell once [setup_io] has opened [in] on 3 and [out] on 4. *)
Definition in_out_opened : world :=
  set_fds (Scenarios.terminal
           ++ [(3, File "in" O_RDONLY);
               (4, File "out" (Z.lor (Z.lor O_WRONLY O_CREAT) O_TRUNC))])
    Scenarios.roomy.

(** [a |], the first stage of a pipeline. *)
Definition a_piping : command :=
  Command ["a"%string] None COMMAND_OUTPUT_PIPE None
    (Some (Command ["b"%string] None COMMAND_OUTPUT_STDOUT None None)).

(** The shell once the pipe of the first stage is open, on 3 and 4. *)
Definition pipe_opened : world :=
  set_fds (Scenarios.terminal ++ [(3, PipeRd 0); (4, PipeWr 0)])
    Scenarios.roomy.

(** [b | c], the last two stages of [a | b | c]. *)
Definition b_c : command :=
  Command ["b"%string] None COMMAND_OUTPUT_PIPE None
    (Some (Command ["c"%string] None COMMAND_OUTPUT_STDOUT None None)).

(** The shell of the revision with the logic inline after the turn for [a]
    in [a | b | c]: the read end of the first pipe is open on 3, its write
    end, that was on 4, is closed. *)
Definition first_pipe_read_end : world :=
  set_next_pipe 1
    (set_fds (Scenarios.terminal ++ [(3, PipeRd 0)]) Scenarios.roomy).

Definition after_first_turn : locals :=
  {| input_fd := 3; output_fd := 4; prev_pipe := (3, 4);
     curr_pipe := (3, 4) |}.

(* ================================================================== *)
(** * Reasoning about computations                                     *)
(* ================================================================== *)

(** Induction along a chain of stages. *)
Lemma command_chain_ind (P : command -> Prop)
    (Hlast : forall c, pipe_to c = None -> P c)
    (Hnext : forall c next, pipe_to c = Some next -> P next -> P c) :
  forall c, P c.
Proof.
  fix IH 1. intros [a i t o [next|]].
  - apply (Hnext _ next); [reflexivity | apply IH].
  - apply Hlast; reflexivity.
Qed.

Lemma bind_returns {A B} (m : M A) (f : A -> M B) w b w'' :
  bind m f w = Returns b w'' ->
  exists a w', m w = Returns a w' /\ f a w' = Returns b w''.
Proof.
  unfold bind. destruct (m w) as [a w'| | | |]; try discriminate.
  intros H. exists a, w'. split; [reflexivity | exact H].
Qed.

Lemma bind_step {A B} (m : M A) (f : A -> M B) w a w' :
  m w = Returns a w' -> bind m f w = f a w'.
Proof. unfold bind. intros ->. reflexivity. Qed.

(** ** Computations that leave an observation of the world alone *)

Section Stable.

Context {X : Type} (obs : world -> X).

Lemma stable_ret {A} (a : A) : stable obs (ret a).
Proof. intros w. reflexivity. Qed.

Lemma stable_bind {A B} (m : M A) (f : A -> M B) :
  stable obs m -> (forall a, stable obs (f a)) -> stable obs (bind m f).
Proof.
  intros Hm Hf w. unfold bind. specialize (Hm w).
  destruct (m w) as [a w'| | | |]; cbn in *; try exact Hm.
  rewrite Hf. exact Hm.
Qed.

Lemma stable_when (b : bool) (m : M Z) :
  stable obs m -> stable obs (when b m).
Proof.
  intros Hm. destruct b; cbn.
  - apply stable_bind; [exact Hm | intros; apply stable_ret].
  - apply stable_ret.
Qed.

Lemma stable_returns {A} (m : M A) w a w' :
  stable obs m -> m w = Returns a w' -> obs w' = obs w.
Proof. intros Hm E. specialize (Hm w). rewrite E in Hm. exact Hm. Qed.

End Stable.

(** ** Observations and the calls that cannot change them *)

#[export] Instance reported_framed : Framed reported.
Proof.
  split; try reflexivity.
  intros e w H. unfold reported. cbn. destruct e; try reflexivity;
    cbn in H; discriminate H.
Qed.

#[export] Instance reported_fs_blind : FsBlind reported.
Proof. intros fs w. reflexivity. Qed.

#[export] Instance reported_fork_blind : ForkBlind reported.
Proof. split; reflexivity. Qed.

#[export] Instance forked_framed : Framed forked.
Proof.
  split; try reflexivity.
  intros e w H. unfold forked, forks. cbn. destruct e; try reflexivity.
  cbn in H. discriminate.
Qed.

#[export] Instance forked_fs_blind : FsBlind forked.
Proof. intros fs w. reflexivity. Qed.

#[export] Instance fs_framed : Framed w_fs.
Proof. split; reflexivity. Qed.

#[export] Instance fs_fork_blind : ForkBlind w_fs.
Proof. split; reflexivity. Qed.

Section Calls.

Context {X : Type} (obs : world -> X) `{!Framed obs}.

Lemma stable_uninit n : stable obs (uninit n).
Proof. intros w. reflexivity. Qed.

Lemma stable_get_errno : stable obs get_errno.
Proof. intros w. reflexivity. Qed.

Lemma stable_perror msg : stable obs (perror msg).
Proof. intros w. cbn. apply framed_log. reflexivity. Qed.

Lemma stable_fprintf msg : stable obs (fprintf_stderr msg).
Proof. intros w. cbn. apply framed_log. reflexivity. Qed.

Lemma stable_exit {A} code : stable obs (@sys_exit A code).
Proof. intros w. reflexivity. Qed.

Lemma stable_close fd : stable obs (sys_close fd).
Proof.
  intros w. unfold sys_close. destruct (fd_open _ _); cbn;
    rewrite framed_log by reflexivity.
  - apply framed_fds.
  - apply framed_errno.
Qed.

Lemma stable_dup2 a b : stable obs (sys_dup2 a b).
Proof.
  intros w. unfold sys_dup2.
  destruct (fd_lookup _ _); [destruct (_ && _) |]; cbn;
    rewrite framed_log by reflexivity;
    solve [apply framed_fds | apply framed_errno].
Qed.

Lemma stable_pipe arr : stable obs (sys_pipe arr).
Proof.
  intros w. unfold sys_pipe. destruct (_ <? _); cbn;
    rewrite framed_log by reflexivity.
  - rewrite framed_next_pipe. apply framed_fds.
  - apply framed_errno.
Qed.

Lemma stable_open_fails path flags e : stable obs (open_fails path flags e).
Proof.
  intros w. unfold open_fails. cbn. rewrite framed_log by reflexivity.
  apply framed_errno.
Qed.

Lemma stable_open_gives p flags : stable obs (open_gives p flags).
Proof.
  intros w. unfold open_gives. destruct (_ <? _).
  - cbn. rewrite framed_log by reflexivity. apply framed_fds.
  - apply stable_open_fails.
Qed.

Lemma stable_open `{!FsBlind obs} path flags mode :
  stable obs (sys_open path flags mode).
Proof.
  intros w. unfold sys_open.
  destruct path as [p|]; [| apply stable_open_fails].
  destruct (w_fs w p).
  - destruct (access_ok _ _);
      [apply stable_open_gives | apply stable_open_fails].
  - destruct (negb _); [destruct (w_creatable w p) |];
      try apply stable_open_fails.
    rewrite stable_open_gives. apply fs_blind.
Qed.

Lemma stable_fork `{!ForkBlind obs} code : stable obs (sys_fork code).
Proof.
  intros w. unfold sys_fork. destruct (w_procs_left w); cbn;
    rewrite fork_blind_log.
  - apply framed_errno.
  - apply fork_blind_procs.
Qed.

End Calls.

(** Splits a computation along its sequencing and its tests, down to the
    library calls. *)
Ltac stable_steps :=
  repeat first
    [ apply stable_ret
    | apply stable_when
    | apply stable_bind; [| intros ]
    | apply stable_uninit; exact _
    | apply stable_get_errno
    | apply stable_perror; exact _
    | apply stable_fprintf; exact _
    | apply stable_close; exact _
    | apply stable_dup2; exact _
    | apply stable_pipe; exact _
    | apply stable_open; exact _
    | apply stable_fork; exact _
    | match goal with
      | |- stable _ (let (_, _) := ?p in _) => destruct p
      | |- stable _ (if ?b then _ else _) => destruct b
      | |- stable _ (match ?x with _ => _ end) => destruct x
      end ].

(** ** The loop over the stages never waits *)

Lemma inline_stage_loop_eq pipeline c l :
  PipelineInline.stage_loop pipeline c l =
  (r <- PipelineInline.stage pipeline c l ;;
   match r with
   | inl rv => ret (inl rv)
   | inr l' =>
       match pipe_to c with
       | Some next => PipelineInline.stage_loop pipeline next l'
       | None => ret (inr l')
       end
   end).
Proof. destruct c; reflexivity. Qed.

Lemma helpers_stage_loop_eq c l :
  PipelineHelpers.stage_loop c l =
  (r <- PipelineHelpers.stage c l ;;
   match r with
   | inl rv => ret (inl rv)
   | inr l' =>
       match pipe_to c with
       | Some next => PipelineHelpers.stage_loop next l'
       | None => ret (inr l')
       end
   end).
Proof. destruct c; reflexivity. Qed.

Lemma inline_stage_reported pipeline c l :
  stable reported (PipelineInline.stage pipeline c l).
Proof.
  unfold PipelineInline.stage, PipelineInline.resolve_output,
    PipelineInline.parent_branch.
  stable_steps.
Qed.

Lemma helpers_stage_reported c l :
  stable reported (PipelineHelpers.stage c l).
Proof.
  unfold PipelineHelpers.stage, PipelineHelpers.setup_io,
    PipelineHelpers.handle_parent_process.
  stable_steps.
Qed.

Lemma inline_stage_loop_reported pipeline c :
  forall l, stable reported (PipelineInline.stage_loop pipeline c l).
Proof.
  induction c as [c Hc | c next Hc IH] using command_chain_ind; intros l;
    rewrite inline_stage_loop_eq, Hc;
    (apply stable_bind; [apply inline_stage_reported |]);
    intros [rv | l']; solve [apply stable_ret | apply IH].
Qed.

Lemma helpers_stage_loop_reported c :
  forall l, stable reported (PipelineHelpers.stage_loop c l).
Proof.
  induction c as [c Hc | c next Hc IH] using command_chain_ind; intros l;
    rewrite helpers_stage_loop_eq, Hc;
    (apply stable_bind; [apply helpers_stage_reported |]);
    intros [rv | l']; solve [apply stable_ret | apply IH].
Qed.

(** ** The reaper *)

(** The turns [wait_for_children] allows its loop are enough: more of them
    change nothing. *)
Lemma wait_loop_turns_enough n :
  forall m s w,
    (List.length (w_children w) <= n)%nat ->
    (List.length (w_children w) <= m)%nat ->
    wait_loop n s w = wait_loop m s w.
Proof.
  assert (Hin : forall cs c, next_report cs = Some c -> In c cs).
  { induction cs as [| d cs IH]; cbn; [discriminate |]. intros c.
    destruct (c_status d); [| auto].
    destruct (next_report cs) as [e |].
    - destruct (_ <=? _)%nat; intros [= <-]; auto.
    - intros [= <-]. auto. }
  assert (Hlen : forall cs c, In c cs ->
             (List.length (remove_child (c_pid c) cs) < List.length cs)%nat).
  { unfold remove_child.
    induction cs as [| d cs IH]; cbn [In filter List.length]; [tauto |].
    intros c [-> | H].
    - rewrite Pos.eqb_refl. cbn [negb].
      pose proof (filter_length_le
                    (fun c0 => negb (c_pid c0 =? c_pid c)%positive) cs).
      lia.
    - specialize (IH c H). destruct (negb _); cbn [List.length]; lia. }
  induction n as [| n IH]; intros m s w Hn Hm.
  - destruct (w_children w) eqn:Ec; [| cbn in Hn; lia].
    destruct m; cbn [wait_loop]; unfold bind, sys_wait; rewrite Ec; reflexivity.
  - destruct m as [| m].
    + destruct (w_children w) eqn:Ec; [| cbn in Hm; lia].
      cbn [wait_loop]; unfold bind, sys_wait; rewrite Ec; reflexivity.
    + cbn [wait_loop]. unfold bind, sys_wait.
      destruct (next_report (w_children w)) as [c |] eqn:Er.
      * destruct (c_status c); [| reflexivity].
        cbn [Z.gtb Z.compare]. apply IH; cbn;
          specialize (Hlen _ _ (Hin _ _ Er)); lia.
      * destruct (w_children w); reflexivity.
Qed.

(** When [while (wait(&status) > 0);] is over, [status] holds what the last
    successful [wait] stored in it, or what it held before when none
    succeeded. *)
Lemma wait_loop_reported n :
  forall s w s' w',
    wait_loop n s w = Returns s' w' ->
    (reported w' = reported w /\ s' = s) \/ reported w' = Some s'.
Proof.
  induction n as [| n IH]; intros s w s' w'; cbn [wait_loop];
    unfold bind, sys_wait;
    destruct (next_report (w_children w)) as [c |].
  - destruct (c_status c) as [st |]; [| discriminate].
    cbn. discriminate.
  - destruct (w_children w); [| discriminate].
    cbn. intros [= <- <-]. left. split; reflexivity.
  - destruct (c_status c) as [st |]; [| discriminate].
    cbn. intros H. apply IH in H. right.
    destruct H as [[H ->] | H]; [| exact H].
    rewrite H. reflexivity.
  - destruct (w_children w); [| discriminate].
    cbn. intros [= <- <-]. left. split; reflexivity.
Qed.

(** ** The status returned is the status reported last *)

Lemma decode_abnormal st : WIFEXITED st = false -> decode_status st = -1.
Proof. unfold decode_status. intros ->. reflexivity. Qed.

#[export] Instance children_framed : Framed w_children.
Proof. split; reflexivity. Qed.

#[export] Instance children_fs_blind : FsBlind w_children.
Proof. intros fs w. reflexivity. Qed.

Lemma fork_children code w pid w' :
  sys_fork code w = Returns pid w' -> (pid >? 0) = true ->
  w_children w' <> [].
Proof.
  unfold sys_fork. destruct (w_procs_left w); intros [= <- <-] H.
  - discriminate H.
  - cbn. destruct (w_children w); discriminate.
Qed.

(** A turn of the loop that gives up gives [-1]; a turn that goes on leaves
    a child to wait for. *)
Lemma inline_stage_result pipeline c l w r w' :
  PipelineInline.stage pipeline c l w = Returns r w' ->
  match r with
  | inl rv => rv = -1
  | inr _ => w_children w' <> []
  end.
Proof.
  unfold PipelineInline.stage. intros H.
  apply bind_returns in H as ([rv0 | l1] & w1 & Hout & H).
  - injection H as <- <-. unfold PipelineInline.resolve_output in Hout.
    destruct (output_type c).
    + discriminate Hout.
    + apply bind_returns in Hout as (? & ? & _ & [=]).
    + apply bind_returns in Hout as (? & ? & _ & [=]).
    + apply bind_returns in Hout as ([rc arr] & ? & _ & Hout).
      destruct (rc =? -1); [| discriminate Hout].
      apply bind_returns in Hout as (? & ? & _ & [= <- _]). reflexivity.
  - destruct (_ && _).
    + apply bind_returns in H as (? & ? & _ & [= <- _]). reflexivity.
    + apply bind_returns in H as (pid & w2 & Hfork & H).
      destruct (pid >? 0) eqn:Hpid.
      * apply bind_returns in H as (l2 & w3 & Hpar & [= <- <-]).
        apply (stable_returns w_children) in Hpar.
        -- rewrite Hpar. eapply fork_children; eassumption.
        -- unfold PipelineInline.parent_branch. stable_steps.
      * apply bind_returns in H as (? & ? & _ & [= <- _]). reflexivity.
Qed.

Lemma helpers_stage_result c l w r w' :
  PipelineHelpers.stage c l w = Returns r w' ->
  match r with
  | inl rv => rv = -1
  | inr _ => w_children w' <> []
  end.
Proof.
  unfold PipelineHelpers.stage. intros H.
  apply bind_returns in H as ([rc l1] & w1 & _ & H).
  destruct (rc =? -1).
  - injection H as <- _. reflexivity.
  - apply bind_returns in H as (pid & w2 & Hfork & H).
    destruct (pid >? 0) eqn:Hpid.
    + apply bind_returns in H as (l2 & w3 & Hpar & [= <- <-]).
      apply (stable_returns w_children) in Hpar.
      * rewrite Hpar. eapply fork_children; eassumption.
      * unfold PipelineHelpers.handle_parent_process. stable_steps.
    + apply bind_returns in H as (? & ? & _ & [= <- _]). reflexivity.
Qed.

Lemma inline_stage_loop_result pipeline c :
  forall l w r w',
    PipelineInline.stage_loop pipeline c l w = Returns r w' ->
    match r with
    | inl rv => rv = -1
    | inr _ => w_children w' <> []
    end.
Proof.
  induction c as [c Hc | c next Hc IH] using command_chain_ind;
    intros l w r w' H; rewrite inline_stage_loop_eq, Hc in H;
    apply bind_returns in H as ([rv | l1] & w1 & Hs & H);
    apply inline_stage_result in Hs;
    try (injection H as <- <-; exact Hs).
  eapply IH, H.
Qed.

Lemma helpers_stage_loop_result c :
  forall l w r w',
    PipelineHelpers.stage_loop c l w = Returns r w' ->
    match r with
    | inl rv => rv = -1
    | inr _ => w_children w' <> []
    end.
Proof.
  induction c as [c Hc | c next Hc IH] using command_chain_ind;
    intros l w r w' H; rewrite helpers_stage_loop_eq, Hc in H;
    apply bind_returns in H as ([rv | l1] & w1 & Hs & H);
    apply helpers_stage_result in Hs;
    try (injection H as <- <-; exact Hs).
  eapply IH, H.
Qed.

(** With a child to wait for, [wait_for_children] comes back only after a
    child was reported, with the status of the child reported last. *)
Lemma wait_for_children_decodes s w s' w' :
  w_children w <> [] ->
  wait_for_children s w = Returns s' w' ->
  reported w' = Some s'.
Proof.
  unfold wait_for_children. intros Hc.
  destruct (w_children w) as [| c0 cs] eqn:Ec; [contradiction |].
  cbn [List.length wait_loop]. unfold bind at 1. unfold sys_wait at 1.
  rewrite Ec. destruct (next_report (c0 :: cs)) as [c |]; [| discriminate].
  destruct (c_status c) as [st |]; [| discriminate].
  cbn [Z.gtb Z.compare]. intros H.
  apply wait_loop_reported in H as [[H ->] | H]; [| exact H].
  rewrite H. reflexivity.
Qed.

(** What a pipeline revision returns: [-1], or the decoded status of the
    child reported last, whichever stage that child ran. *)
Lemma inline_returns_last_reported pipeline w rv w' :
  PipelineInline.dispatch_external_command pipeline w = Returns rv w' ->
  rv = -1 \/ exists st, reported w' = Some st /\ rv = decode_status st.
Proof.
  intros H. unfold PipelineInline.dispatch_external_command in H.
  apply bind_returns in H as (s0 & w0 & [= <- <-] & H).
  apply bind_returns in H as (c0 & w0 & [= <- <-] & H).
  apply bind_returns in H as (c1 & w0 & [= <- <-] & H).
  apply bind_returns in H as (r & w1 & Hloop & H).
  apply inline_stage_loop_result in Hloop. destruct r as [rv' | l'].
  - injection H as <- <-. left. exact Hloop.
  - apply bind_returns in H as (s' & w2 & Hwait & [= <- <-]).
    right. exists s'. split; [| reflexivity].
    eapply wait_for_children_decodes; eassumption.
Qed.

Lemma helpers_returns_last_reported pipeline w rv w' :
  PipelineHelpers.dispatch_external_command pipeline w = Returns rv w' ->
  rv = -1 \/ exists st, reported w' = Some st /\ rv = decode_status st.
Proof.
  intros H. unfold PipelineHelpers.dispatch_external_command in H.
  apply bind_returns in H as (s0 & w0 & [= <- <-] & H).
  apply bind_returns in H as (c0 & w0 & [= <- <-] & H).
  apply bind_returns in H as (c1 & w0 & [= <- <-] & H).
  apply bind_returns in H as (r & w1 & Hloop & H).
  apply helpers_stage_loop_result in Hloop. destruct r as [rv' | l'].
  - injection H as <- <-. left. exact Hloop.
  - apply bind_returns in H as (s' & w2 & Hwait & [= <- <-]).
    right. exists s'. split; [| reflexivity].
    eapply wait_for_children_decodes; eassumption.
Qed.

Lemma find_child_among pid cs c :
  c_pid c = pid -> find_child (Z.pos pid) (cs ++ [c]) <> None.
Proof.
  intros <-. unfold find_child. induction cs as [| d cs IH]; cbn [app find].
  - rewrite Z.eqb_refl. discriminate.
  - destruct (_ =? _); [discriminate | exact IH].
Qed.

(** The single-command revision likewise; once [fork] has succeeded,
    [waitpid] finds the child. *)
Lemma single_returns_last_reported pipeline w rv w' :
  SingleCommand.dispatch_external_command pipeline w = Returns rv w' ->
  rv = -1 \/ exists st, reported w' = Some st /\ rv = decode_status st.
Proof.
  intros H. unfold SingleCommand.dispatch_external_command in H.
  apply bind_returns in H as (s0 & w0 & [= <- <-] & H).
  apply bind_returns in H as ([rv' | fd] & w1 & Hin & H);
    [injection H as <- <-; left;
     destruct (input_filename pipeline); [| discriminate Hin];
     apply bind_returns in Hin as (fd & ? & _ & Hin);
     destruct (fd =? -1); [| discriminate Hin];
     apply bind_returns in Hin as (? & ? & _ & [= <- _]); reflexivity |].
  apply bind_returns in H as ([rv' | fd'] & w2 & Hout & H).
  { injection H as <- <-. left.
    destruct (output_type pipeline); try discriminate Hout;
      apply bind_returns in Hout as (fd' & ? & _ & Hout);
      (destruct (fd' =? -1); [| discriminate Hout]);
      apply bind_returns in Hout as (? & ? & _ & Hout);
      apply bind_returns in Hout as (? & ? & _ & [= <- _]); reflexivity. }
  apply bind_returns in H as (pid & w3 & Hfork & H).
  unfold sys_fork in Hfork.
  destruct (w_procs_left w2) as [| n]; injection Hfork as <- <-.
  - cbn [Z.eqb] in H.
    apply bind_returns in H as (? & ? & _ & [= <- _]). left. reflexivity.
  - cbn [Z.eqb] in H.
    apply bind_returns in H as ([r s'] & w4 & Hwait & H).
    assert (Hr : reported w4 = Some s').
    { unfold sys_waitpid in Hwait.
      cbn [w_children log set_procs set_trace] in Hwait.
      destruct (find_child _ _) as [c |] eqn:Ef.
      - destruct (c_status c); [| discriminate Hwait].
        injection Hwait as <- <- <-. reflexivity.
      - exfalso. eapply find_child_among; [| exact Ef]. reflexivity. }
    right. exists s'. split; [| unfold decode_status];
      destruct (WIFEXITED s'); injection H as <- <-; auto.
Qed.

Lemma returns_last_reported rev pipeline w rv w' :
  dispatch_external_command_of rev pipeline w = Returns rv w' ->
  rv = -1 \/ exists st, reported w' = Some st /\ rv = decode_status st.
Proof.
  destruct rev; cbn.
  - apply inline_returns_last_reported.
  - apply helpers_returns_last_reported.
  - apply single_returns_last_reported.
Qed.

(* ================================================================== *)
(** * Computations that come back                                      *)
(* ================================================================== *)

Lemma wp_ret {A} (a : A) w (Q : A -> world -> Prop) : Q a w -> wp (ret a) w Q.
Proof. intros H. exists a, w. split; [reflexivity | exact H]. Qed.

Lemma wp_bind {A B} (m : M A) (f : A -> M B) w (Q : B -> world -> Prop) :
  wp m w (fun a w' => wp (f a) w' Q) -> wp (bind m f) w Q.
Proof.
  intros (a & w' & E & b & w'' & E' & H). exists b, w''.
  split; [| exact H]. rewrite (bind_step _ _ _ _ _ E). exact E'.
Qed.

Lemma wp_mono {A} (m : M A) w (Q Q' : A -> world -> Prop) :
  wp m w Q -> (forall a w', Q a w' -> Q' a w') -> wp m w Q'.
Proof. intros (a & w' & E & H) HQ. exists a, w'. auto. Qed.

Lemma total_ret {A} (a : A) : total (ret a).
Proof. intros w. apply wp_ret. exact I. Qed.

Lemma total_bind {A B} (m : M A) (f : A -> M B) :
  total m -> (forall a, total (f a)) -> total (bind m f).
Proof.
  intros Hm Hf w. apply wp_bind. eapply wp_mono; [apply Hm |].
  intros a w' _. apply Hf.
Qed.

Lemma total_when b (m : M Z) : total m -> total (when b m).
Proof.
  intros Hm. destruct b; cbn; [| apply total_ret].
  apply total_bind; [exact Hm | intros; apply total_ret].
Qed.

Lemma total_perror msg : total (perror msg).
Proof. intros w. eexists _, _. split; [reflexivity | exact I]. Qed.

Lemma total_close fd : total (sys_close fd).
Proof.
  intros w. unfold wp, sys_close. destruct (fd_open _ _); eauto.
Qed.

Lemma total_dup2 a b : total (sys_dup2 a b).
Proof.
  intros w. unfold wp, sys_dup2.
  destruct (fd_lookup _ _); [destruct (_ && _) |]; eauto.
Qed.

Ltac total_steps :=
  repeat first
    [ apply total_ret
    | apply total_when
    | apply total_bind; [| intros ]
    | apply total_perror
    | apply total_close
    | apply total_dup2
    | match goal with
      | |- total (if ?b then _ else _) => destruct b
      | |- total (match ?x with _ => _ end) => destruct x
      end ].

(** A computation that comes back and leaves the forks and the files as they
    were. *)
Lemma wp_calm {A} (m : M A) w (Q : A -> world -> Prop) :
  total m -> stable forked m -> stable w_fs m ->
  (forall a w', forked w' = forked w -> w_fs w' = w_fs w -> Q a w') ->
  wp m w Q.
Proof.
  intros Ht Hf Hs HQ. destruct (Ht w) as (a & w' & E & _).
  exists a, w'. split; [exact E |].
  apply HQ; [apply (stable_returns forked _ _ _ _ Hf E)
            | apply (stable_returns w_fs _ _ _ _ Hs E)].
Qed.

Lemma wp_perror msg w (Q : unit -> world -> Prop) :
  Q tt (log (EvPerror msg (w_errno w)) w) -> wp (perror msg) w Q.
Proof. intros H. eexists _, _. split; [reflexivity | exact H]. Qed.

Lemma wp_uninit n w (Q : Z -> world -> Prop) :
  Q (w_uninit w n) w -> wp (uninit n) w Q.
Proof. intros H. eexists _, _. split; [reflexivity | exact H]. Qed.

Lemma wp_pipe arr w (Q : Z * (Z * Z) -> world -> Prop) :
  (forall rc arr' w',
      forked w' = forked w -> w_fs w' = w_fs w -> Q (rc, arr') w') ->
  wp (sys_pipe arr) w Q.
Proof.
  intros H. unfold wp, sys_pipe.
  destruct (_ <? _); eexists _, _; (split; [reflexivity |]);
    apply H; reflexivity.
Qed.

Lemma wp_fork code w (Q : Z -> world -> Prop) :
  (forall pid w',
      forked w' = S (forked w) -> w_fs w' = w_fs w -> Q pid w') ->
  wp (sys_fork code) w Q.
Proof.
  intros H. unfold wp, sys_fork.
  destruct (w_procs_left w); eexists _, _; (split; [reflexivity |]);
    apply H; reflexivity.
Qed.

(** [open]: the files stay as they were, except that a missing file opened
    with [O_CREAT] may have come into being; and a file that is missing or
    may not be read cannot be opened for reading. *)
Lemma wp_open path flags mode w (Q : Z -> world -> Prop) :
  (forall fd w',
      forked w' = forked w ->
      (forall f, w_fs w' f = w_fs w f
                 \/ (w_fs w f = None /\ path = Some f
                     /\ Z.land flags O_CREAT <> 0)) ->
      (forall f, path = Some f -> flags = O_RDONLY ->
                 unreadable_now w f = true -> fd = -1) ->
      Q fd w') ->
  wp (sys_open path flags mode) w Q.
Proof.
  intros H. unfold wp, sys_open, open_gives, open_fails.
  destruct path as [p |].
  - destruct (w_fs w p) as [i |] eqn:Ep.
    + destruct (access_ok i flags) eqn:Ea; [destruct (_ <? _) |];
        eexists _, _; (split; [reflexivity |]);
        apply H; try reflexivity; try (intros f; left; reflexivity);
        intros f [= <-] -> Hu; unfold unreadable_now in Hu;
        rewrite Ep in Hu; apply negb_true_iff in Hu;
        unfold access_ok in Ea; rewrite Hu in Ea; discriminate Ea.
    + destruct (Z.land flags O_CREAT =? 0) eqn:Ec; cbn [negb];
        [| destruct (w_creatable w p); [cbn; destruct (_ <? _) |]];
        eexists _, _; (split; [reflexivity |]);
        apply H; try reflexivity;
        try (intros f [= <-] -> _; discriminate Ec);
        intros f; cbn; unfold fs_add;
        try (left; reflexivity);
        (destruct (String.eqb_spec f p) as [-> |];
         [right; repeat split; [exact Ep | apply Z.eqb_neq, Ec]
         | left; reflexivity]).
  - eexists _, _. split; [reflexivity |].
    apply H; try reflexivity. intros f; left; reflexivity.
Qed.

(** ** One stage of the revision with helper functions *)

Lemma fs_grows_refl cmd w w' : w_fs w' = w_fs w -> fs_grows cmd w w'.
Proof. intros H f. left. rewrite H. reflexivity. Qed.

Lemma fs_grows_trans cmd w w1 w2 :
  fs_grows cmd w w1 -> w_fs w2 = w_fs w1 -> fs_grows cmd w w2.
Proof. intros H E f. rewrite E. apply H. Qed.

Lemma cannot_be_opened_unreadable w upto f :
  cannot_be_opened w upto f = true -> unreadable_now w f = true.
Proof. unfold cannot_be_opened. intros H. apply andb_prop in H. tauto. Qed.

(** Once the stage has run, what could not be opened still cannot, as long
    as the stage itself does not create it. *)
Lemma fs_grows_cannot_be_opened cmd rest w w' f :
  fs_grows cmd w w' ->
  cannot_be_opened w (cmd :: rest) f = true ->
  cannot_be_opened w' rest f = true.
Proof.
  intros Hg H. unfold cannot_be_opened, unreadable_now in *.
  destruct (Hg f) as [E | [E Hc]].
  - rewrite E. destruct (w_fs w f); [exact H |].
    cbn in *. apply andb_prop in H. tauto.
  - rewrite E in H. cbn in H. rewrite Hc in H. discriminate H.
Qed.

Ltac frame :=
  repeat match goal with
    | |- context [forked (log ?e ?w)] =>
        change (forked (log e w)) with (forked w)
    end;
  try congruence.

Lemma setup_io_wp cmd l w (Q : Z * locals -> world -> Prop) :
  (forall rc l' w',
      forked w' = forked w ->
      fs_grows cmd w w' ->
      rc = 0 \/ (rc = -1 /\ ends_with_perror (w_trace w') = true) ->
      (forall f, input_filename cmd = Some f ->
                 cannot_be_opened w [cmd] f = true -> rc = -1) ->
      Q (rc, l') w') ->
  wp (PipelineHelpers.setup_io cmd l) w Q.
Proof.
  intros H. unfold PipelineHelpers.setup_io. apply wp_bind.
  match goal with
  | |- wp _ _ (fun a w' => wp (@?k a) w' _) =>
      assert (Hin : forall l1 w1,
                 forked w1 = forked w -> fs_grows cmd w w1 ->
                 wp (k (inr l1)) w1 Q)
  end.
  { intros l1 w1 Hf1 Hfs1. cbn beta iota. apply wp_bind.
    assert (Hcheck : forall l2 w2,
               forked w2 = forked w -> fs_grows cmd w w2 ->
               (forall f, input_filename cmd = Some f ->
                          cannot_be_opened w [cmd] f = true -> False) ->
               wp (if (output_fd l2 =? -1) && is_file (output_type cmd)
                   then perror "Failed to open output file" ;; ret (-1, l2)
                   else ret (0, l2)) w2 Q).
    { intros l2 w2 Hf2 Hfs2 Hno. destruct (_ && _).
      - apply wp_bind, wp_perror, wp_ret. apply H; auto.
      - apply wp_ret. apply H; auto; intros f ? ?; exfalso; eauto. }
    destruct (input_filename cmd) as [f |] eqn:Ein.
    - apply wp_bind, wp_open. intros fd w2 Hf2 Hfs2 Hro.
      assert (Hfs : fs_grows cmd w w2).
      { intros g. destruct (Hfs2 g) as [E | (_ & _ & E)].
        - rewrite E. apply Hfs1.
        - exfalso. apply E. reflexivity. }
      destruct (fd =? -1) eqn:Efd.
      + apply wp_bind, wp_perror, wp_ret, wp_ret.
        apply H; auto; frame.
      + apply wp_ret. apply Hcheck; [congruence | exact Hfs |].
        intros g [= <-] Hu.
        assert (fd = -1) by
          (apply (Hro f); eauto using cannot_be_opened_unreadable,
             fs_grows_cannot_be_opened).
        subst fd. discriminate Efd.
    - apply wp_ret. apply Hcheck; auto. intros g [=]. }
  destruct (output_type cmd) eqn:Ht.
  - apply wp_ret. apply Hin; auto using fs_grows_refl.
  - apply wp_bind, wp_open. intros fd w1 Hf Hfs _. apply wp_ret.
    apply Hin; auto. intros f.
    destruct (Hfs f) as [E | (E1 & E2 & _)]; [left; exact E |].
    right. split; [exact E1 |]. unfold creates. rewrite Ht, E2. cbn.
    apply String.eqb_refl.
  - apply wp_bind, wp_open. intros fd w1 Hf Hfs _. apply wp_ret.
    apply Hin; auto. intros f.
    destruct (Hfs f) as [E | (E1 & E2 & _)]; [left; exact E |].
    right. split; [exact E1 |]. unfold creates. rewrite Ht, E2. cbn.
    apply String.eqb_refl.
  - apply wp_bind, wp_pipe. intros rc arr' w1 Hf Hfs.
    destruct (rc =? -1).
    + apply wp_bind, wp_perror, wp_ret, wp_ret.
      apply H; auto using fs_grows_refl;
        frame.
    + apply wp_ret. apply Hin; auto using fs_grows_refl.
Qed.

Lemma handle_parent_process_calm cmd l :
  total (PipelineHelpers.handle_parent_process cmd l)
  /\ stable forked (PipelineHelpers.handle_parent_process cmd l)
  /\ stable w_fs (PipelineHelpers.handle_parent_process cmd l).
Proof.
  unfold PipelineHelpers.handle_parent_process.
  split; [total_steps | split; stable_steps].
Qed.

(** One turn of the loop: it comes back; it either gives up with [-1] right
    after a message of [perror], having called [fork] at most once, or goes
    on having called [fork] once; and it gives up before any [fork] when the
    stage names an input file that cannot be opened. *)
Lemma helpers_stage_wp cmd l w (Q : Z + locals -> world -> Prop) :
  (forall r w',
      fs_grows cmd w w' ->
      match r with
      | inl rv => rv = -1 /\ ends_with_perror (w_trace w') = true
                  /\ (forked w' <= S (forked w))%nat
      | inr _ => forked w' = S (forked w)
      end ->
      (forall f, input_filename cmd = Some f ->
                 cannot_be_opened w [cmd] f = true ->
                 r = inl (-1) /\ forked w' = forked w) ->
      Q r w') ->
  wp (PipelineHelpers.stage cmd l) w Q.
Proof.
  intros H. unfold PipelineHelpers.stage.
  apply wp_bind, setup_io_wp. intros rc l1 w1 Hf1 Hfs1 Hrc Hin.
  destruct Hrc as [-> | [-> Hp]]; cbn.
  - assert (Hno : forall f, input_filename cmd = Some f ->
                    cannot_be_opened w [cmd] f = true -> False).
    { intros f Ef Hu. specialize (Hin f Ef Hu). discriminate Hin. }
    apply wp_bind, wp_fork. intros pid w2 Hf2 Hfs2.
    destruct (pid >? 0).
    + destruct (handle_parent_process_calm cmd l1) as (Ht & Hsf & Hss).
      apply wp_bind, wp_calm; auto. intros l2 w3 Hf3 Hfs3.
      apply wp_ret. apply H.
      * eapply fs_grows_trans; [exact Hfs1 | congruence].
      * congruence.
      * intros f Ef Hu. exfalso. eauto.
    + apply wp_bind, wp_perror, wp_ret. apply H.
      * eapply fs_grows_trans; [exact Hfs1 | exact Hfs2].
      * repeat split. frame. rewrite Hf2, Hf1. constructor.
      * intros f Ef Hu. exfalso. eauto.
  - apply wp_ret. apply H.
    + exact Hfs1.
    + repeat split; [exact Hp | rewrite Hf1; auto].
    + intros f _ _. split; [reflexivity | exact Hf1].
Qed.

(** The loop, from a stage on: when the stage [k] places further names an
    input file that cannot be opened, the loop gives up with [-1] right
    after a message of [perror], and has called [fork] at most [k] times. *)
Lemma helpers_stage_loop_unopenable c :
  forall k cmd f l w,
    nth_error (stages c) k = Some cmd ->
    input_filename cmd = Some f ->
    cannot_be_opened w (firstn (S k) (stages c)) f = true ->
    wp (PipelineHelpers.stage_loop c l) w
       (fun r w' => r = inl (-1)
                    /\ ends_with_perror (w_trace w') = true
                    /\ (forked w' <= forked w + k)%nat).
Proof.
  induction c as [c Hc | c next Hc IH] using command_chain_ind;
    intros k cmd f l w Hk Hin Hu;
    rewrite helpers_stage_loop_eq;
    apply wp_bind, helpers_stage_wp; intros r w1 Hfs Hr Hbad;
    (assert (Es : stages c = c :: match pipe_to c with
                                  | Some n => stages n
                                  | None => []
                                  end) by (destruct c; reflexivity));
    rewrite Es, Hc in Hk, Hu.
  - destruct k as [| k]; [| destruct k; discriminate Hk].
    injection Hk as <-.
    destruct (Hbad f Hin Hu) as [-> Hf]. apply wp_ret.
    destruct Hr as (_ & Hp & _). repeat split; [exact Hp | lia].
  - destruct k as [| k].
    + injection Hk as <-.
      destruct (Hbad f Hin Hu) as [-> Hf]. apply wp_ret.
      destruct Hr as (_ & Hp & _). repeat split; [exact Hp | lia].
    + destruct r as [rv | l1].
      * destruct Hr as (-> & Hp & Hf). apply wp_ret.
        repeat split; [exact Hp | lia].
      * rewrite Hc. eapply wp_mono.
        -- apply (IH k cmd f l1 w1 Hk Hin).
           apply (fs_grows_cannot_be_opened c _ w); assumption.
        -- cbn beta. intros r w2 (-> & Hp & Hf). repeat split; [exact Hp | lia].
Qed.

(* ================================================================== *)
(** * A single command                                                 *)
(* ================================================================== *)

Lemma exit_status_decodes code :
  0 <= code <= 255 -> decode_status (exit_status code) = code.
Proof.
  intros H.
  assert (E : forallb (fun c => decode_status (exit_status c) =? c)
                (map Z.of_nat (seq 0 256)) = true) by (vm_compute; reflexivity).
  rewrite forallb_forall in E. apply Z.eqb_eq, E.
  apply in_map_iff. exists (Z.to_nat code). split; [lia |].
  apply in_seq. lia.
Qed.

Lemma find_child_forked pid code w cs :
  find_child (Z.pos pid) cs = None ->
  find_child (Z.pos pid) (cs ++ [run_child pid code w])
  = Some (run_child pid code w).
Proof.
  unfold find_child. intros H. induction cs as [| d cs IH];
    cbn [find app] in *.
  - cbn [c_pid run_child]. rewrite Z.eqb_refl. reflexivity.
  - destruct (Z.pos (c_pid d) =? Z.pos pid); [discriminate H | auto].
Qed.

Lemma execvp_replaces cmd a0 w :
  argv0 cmd = Some a0 -> w_exec_errno w a0 = 0 ->
  sys_execvp (argv0 cmd) (argv cmd) w
  = Execs a0 (argv cmd) (log (EvExecvp (Some a0) (argv cmd) 0) w).
Proof. intros -> H. unfold sys_execvp. rewrite H. reflexivity. Qed.

Lemma run_child_replaced pid code w a0 args w' :
  code (child_world w) = Execs a0 args w' ->
  c_status (run_child pid code w) = f_status (w_fate w pid).
Proof. intros E. unfold run_child. rewrite E. reflexivity. Qed.

Lemma single_child_replaced cmd a0 w :
  argv0 cmd = Some a0 -> w_exec_errno w a0 = 0 ->
  exists w', SingleCommand.child_branch cmd w = Execs a0 (argv cmd) w'.
Proof.
  intros Ha He. unfold SingleCommand.child_branch, bind.
  rewrite (execvp_replaces cmd a0) by assumption. eauto.
Qed.

Lemma inline_child_replaced cmd a0 pp cp w :
  argv0 cmd = Some a0 -> w_exec_errno w a0 = 0 ->
  output_type cmd = COMMAND_OUTPUT_STDOUT ->
  exists w',
    PipelineInline.child_branch cmd
      {| input_fd := STDIN_FILENO; output_fd := STDOUT_FILENO;
         prev_pipe := pp; curr_pipe := cp |} w
    = Execs a0 (argv cmd) w'.
Proof.
  intros Ha He Ho. unfold PipelineInline.child_branch. rewrite Ho.
  cbn -[sys_execvp]. unfold bind.
  rewrite (execvp_replaces cmd a0) by assumption. eauto.
Qed.

Lemma helpers_child_replaced cmd a0 cp w :
  argv0 cmd = Some a0 -> w_exec_errno w a0 = 0 ->
  output_type cmd = COMMAND_OUTPUT_STDOUT ->
  exists w',
    PipelineHelpers.execute_child_process cmd STDIN_FILENO STDOUT_FILENO cp w
    = Execs a0 (argv cmd) w'.
Proof.
  intros Ha He Ho. unfold PipelineHelpers.execute_child_process. rewrite Ho.
  cbn -[sys_execvp]. unfold bind.
  rewrite (execvp_replaces cmd a0) by assumption. eauto.
Qed.

Ltac step_with tac := (erewrite bind_step; [| tac]); cbv beta iota.

Lemma fork_succeeds code w n :
  w_procs_left w = S n ->
  sys_fork code w
  = Returns (Z.pos (w_next_pid w))
      (log (EvFork (Z.pos (w_next_pid w)))
         (set_procs n (Pos.succ (w_next_pid w))
            (w_children w ++ [run_child (w_next_pid w) code w]) w)).
Proof. intros H. unfold sys_fork. rewrite H. reflexivity. Qed.

(** Waiting for the children when there is one, and it terminates. *)
Lemma wait_for_only_child status w c st :
  w_children w = [c] -> c_status c = Some st ->
  exists w', wait_for_children status w = Returns st w'.
Proof.
  intros Hc Hs. unfold wait_for_children. rewrite Hc.
  cbn [List.length wait_loop].
  assert (E1 : sys_wait status w
               = Returns (Z.pos (c_pid c), st)
                   (log (EvWait (Z.pos (c_pid c)) st) (reap c w))).
  { unfold sys_wait. rewrite Hc. cbn [next_report]. rewrite Hs.
    cbn iota. rewrite Hs. reflexivity. }
  step_with ltac:(exact E1). cbn [Z.gtb Z.compare].
  assert (E2 : forall s, sys_wait s (log (EvWait (Z.pos (c_pid c)) st) (reap c w))
               = Returns (-1, s)
                   (log (EvWait (-1) s)
                      (set_errno ECHILD
                         (log (EvWait (Z.pos (c_pid c)) st) (reap c w))))).
  { intros s. unfold sys_wait. cbn [w_children log reap set_procs set_trace].
    rewrite Hc. cbn [remove_child filter]. rewrite Pos.eqb_refl. reflexivity. }
  step_with ltac:(apply E2). cbn. eauto.
Qed.

Lemma inline_parent_plain cmd l w :
  output_type cmd = COMMAND_OUTPUT_STDOUT ->
  fst (prev_pipe l) = -1 ->
  PipelineInline.parent_branch cmd l w
  = Returns {| input_fd := STDIN_FILENO; output_fd := output_fd l;
               prev_pipe := curr_pipe l; curr_pipe := curr_pipe l |} w.
Proof.
  intros Ho Hprev. unfold PipelineInline.parent_branch.
  rewrite Ho, Hprev. reflexivity.
Qed.

Lemma inline_stage_plain pipeline cmd l w n :
  output_type cmd = COMMAND_OUTPUT_STDOUT ->
  fst (prev_pipe l) = -1 ->
  w_procs_left w = S n ->
  PipelineInline.stage pipeline cmd l w
  = Returns (inr {| input_fd := STDIN_FILENO; output_fd := output_fd l;
                    prev_pipe := curr_pipe l; curr_pipe := curr_pipe l |})
      (log (EvFork (Z.pos (w_next_pid w)))
         (set_procs n (Pos.succ (w_next_pid w))
            (w_children w
             ++ [run_child (w_next_pid w)
                   (PipelineInline.child_branch cmd l) w]) w)).
Proof.
  intros Ho Hprev Hp.
  unfold PipelineInline.stage, PipelineInline.resolve_output.
  rewrite Ho. step_with reflexivity. cbn [is_file andb].
  step_with ltac:(apply fork_succeeds; exact Hp).
  cbn [Z.gtb Z.compare].
  step_with ltac:(apply inline_parent_plain; assumption).
  reflexivity.
Qed.

Lemma inline_status cmd a0 code w :
  argv0 cmd = Some a0 -> single_command cmd ->
  w_procs_left w <> O -> w_exec_errno w a0 = 0 ->
  f_status (w_fate w (w_next_pid w)) = Some (exit_status code) ->
  0 <= code <= 255 ->
  w_children w = [] ->
  returned (PipelineInline.dispatch_external_command cmd w) = Some code.
Proof.
  intros Ha (Hi & Ho & Hn) Hp He Hf Hc Hcs.
  destruct (inline_child_replaced cmd a0 (-1, -1) (w_uninit w 1, w_uninit w 2)
              (child_world w) Ha He Ho) as (cw & Hchild).
  destruct (w_procs_left w) as [| n] eqn:Hn'; [contradiction |].
  unfold PipelineInline.dispatch_external_command.
  do 3 step_with reflexivity.
  rewrite inline_stage_loop_eq, Hn.
  step_with ltac:(step_with ltac:(apply (inline_stage_plain _ _ _ _ n); auto); reflexivity).
  rewrite Hcs. cbn [app].
  match goal with
  | |- returned (bind (wait_for_children ?s) _ ?w1) = _ =>
      destruct (wait_for_only_child s w1 _ (exit_status code) eq_refl)
        as (w2 & Hwait)
  end.
  { rewrite <- Hf. apply (run_child_replaced _ _ _ _ _ _ Hchild). }
  step_with ltac:(exact Hwait). cbn [returned ret].
  rewrite exit_status_decodes by assumption. reflexivity.
Qed.

Lemma helpers_parent_plain cmd l w :
  output_type cmd = COMMAND_OUTPUT_STDOUT ->
  fst (prev_pipe l) = -1 ->
  PipelineHelpers.handle_parent_process cmd l w
  = Returns {| input_fd := STDIN_FILENO; output_fd := output_fd l;
               prev_pipe := curr_pipe l; curr_pipe := curr_pipe l |} w.
Proof.
  intros Ho Hprev. unfold PipelineHelpers.handle_parent_process.
  rewrite Ho, Hprev. reflexivity.
Qed.

Lemma helpers_setup_plain cmd l w :
  output_type cmd = COMMAND_OUTPUT_STDOUT ->
  input_filename cmd = None ->
  PipelineHelpers.setup_io cmd l w = Returns (0, l) w.
Proof.
  intros Ho Hi. unfold PipelineHelpers.setup_io. rewrite Ho, Hi.
  do 2 step_with reflexivity.
  cbn [is_file]. rewrite andb_false_r. reflexivity.
Qed.

Lemma helpers_stage_plain cmd l w n :
  output_type cmd = COMMAND_OUTPUT_STDOUT ->
  input_filename cmd = None ->
  fst (prev_pipe l) = -1 ->
  w_procs_left w = S n ->
  PipelineHelpers.stage cmd l w
  = Returns (inr {| input_fd := STDIN_FILENO; output_fd := output_fd l;
                    prev_pipe := curr_pipe l; curr_pipe := curr_pipe l |})
      (log (EvFork (Z.pos (w_next_pid w)))
         (set_procs n (Pos.succ (w_next_pid w))
            (w_children w
             ++ [run_child (w_next_pid w)
                   (PipelineHelpers.execute_child_process cmd
                      (input_fd l) (output_fd l) (curr_pipe l)) w]) w)).
Proof.
  intros Ho Hi Hprev Hp. unfold PipelineHelpers.stage.
  step_with ltac:(apply helpers_setup_plain; assumption).
  cbn [Z.eqb].
  step_with ltac:(apply fork_succeeds; exact Hp).
  cbn [Z.gtb Z.compare].
  step_with ltac:(apply helpers_parent_plain; assumption).
  reflexivity.
Qed.

Lemma helpers_status cmd a0 code w :
  argv0 cmd = Some a0 -> single_command cmd ->
  w_procs_left w <> O -> w_exec_errno w a0 = 0 ->
  f_status (w_fate w (w_next_pid w)) = Some (exit_status code) ->
  0 <= code <= 255 ->
  w_children w = [] ->
  returned (PipelineHelpers.dispatch_external_command cmd w) = Some code.
Proof.
  intros Ha (Hi & Ho & Hn) Hp He Hf Hc Hcs.
  destruct (helpers_child_replaced cmd a0 (w_uninit w 1, w_uninit w 2)
              (child_world w) Ha He Ho) as (cw & Hchild).
  destruct (w_procs_left w) as [| n] eqn:Hn'; [contradiction |].
  unfold PipelineHelpers.dispatch_external_command.
  do 3 step_with reflexivity.
  rewrite helpers_stage_loop_eq, Hn.
  step_with ltac:(step_with
                    ltac:(apply (helpers_stage_plain _ _ _ n); auto);
                  reflexivity).
  rewrite Hcs. cbn [app].
  match goal with
  | |- returned (bind (wait_for_children ?s) _ ?w1) = _ =>
      destruct (wait_for_only_child s w1 _ (exit_status code) eq_refl)
        as (w2 & Hwait)
  end.
  { rewrite <- Hf. apply (run_child_replaced _ _ _ _ _ _ Hchild). }
  step_with ltac:(exact Hwait). cbn [returned ret].
  rewrite exit_status_decodes by assumption. reflexivity.
Qed.

Lemma waitpid_forked pid code w status n st :
  find_child (Z.pos pid) (w_children w) = None ->
  c_status (run_child pid code w) = Some st ->
  exists w',
    sys_waitpid (Z.pos pid) status
      (log (EvFork (Z.pos pid))
         (set_procs n (Pos.succ pid)
            (w_children w ++ [run_child pid code w]) w))
    = Returns (Z.pos pid, st) w'.
Proof.
  intros Hfresh Hs. unfold sys_waitpid.
  cbn [w_children log set_procs set_trace].
  rewrite (find_child_forked _ _ _ _ Hfresh), Hs. eauto.
Qed.

Lemma single_status cmd a0 code w :
  argv0 cmd = Some a0 -> single_command cmd ->
  w_procs_left w <> O -> w_exec_errno w a0 = 0 ->
  f_status (w_fate w (w_next_pid w)) = Some (exit_status code) ->
  0 <= code <= 255 ->
  find_child (Z.pos (w_next_pid w)) (w_children w) = None ->
  returned (SingleCommand.dispatch_external_command cmd w) = Some code.
Proof.
  intros Ha (Hi & Ho & Hn) Hp He Hf Hc Hfresh.
  destruct (single_child_replaced cmd a0 (child_world w) Ha He)
    as (cw & Hchild).
  destruct (w_procs_left w) as [| n] eqn:Hn'; [contradiction |].
  unfold SingleCommand.dispatch_external_command.
  rewrite Hi, Ho.
  do 3 step_with reflexivity.
  step_with ltac:(apply fork_succeeds; exact Hn').
  cbn [Z.eqb].
  destruct (waitpid_forked (w_next_pid w) (SingleCommand.child_branch cmd) w
              (w_uninit w 0) n (exit_status code) Hfresh) as (w2 & Hwait).
  { rewrite <- Hf. apply (run_child_replaced _ _ _ _ _ _ Hchild). }
  step_with ltac:(exact Hwait).
  pose proof (exit_status_decodes code Hc) as Hd. unfold decode_status in Hd.
  destruct (WIFEXITED (exit_status code)); cbn [returned ret].
  - rewrite Hd. reflexivity.
  - lia.
Qed.

(* ================================================================== *)
(** * The children                                                     *)
(* ================================================================== *)

Lemma ends_child_after {A} (m : M A) (f : A -> M unit) w :
  total m -> (forall a w', ends_child (f a w')) -> ends_child (bind m f w).
Proof.
  intros Hm Hf. destruct (Hm w) as (a & w' & E & _).
  rewrite (bind_step _ _ _ _ _ E). apply Hf.
Qed.

(** [execvp], given a name, either replaces the image or comes back to what
    follows. *)
Lemma ends_child_execvp file args (k : Z -> M unit) w :
  file <> None ->
  (forall r w', ends_child (k r w')) ->
  ends_child (bind (sys_execvp file args) k w).
Proof.
  intros Hfile Hk. unfold bind at 1. unfold sys_execvp.
  destruct file as [f |]; [| contradiction].
  destruct (w_exec_errno w f =? 0); solve [exact I | apply Hk].
Qed.

Lemma ends_child_exit w : ends_child (sys_exit (-1) w).
Proof. cbn. auto. Qed.

Lemma total_get_errno : total get_errno.
Proof. intros w. eexists _, _. split; [reflexivity | exact I]. Qed.

Lemma total_fprintf msg : total (fprintf_stderr msg).
Proof. intros w. eexists _, _. split; [reflexivity | exact I]. Qed.

(** In none of the revisions does the child of a command that has a first
    word come back into the dispatcher: its image is replaced, or it calls
    [exit (-1)], which its parent sees as exit status 255. *)
Lemma helpers_child_never_returns cmd input_fd output_fd curr_pipe w :
  argv0 cmd <> None ->
  ends_child (PipelineHelpers.execute_child_process cmd input_fd output_fd
                curr_pipe w).
Proof.
  intros Hcmd. unfold PipelineHelpers.execute_child_process.
  do 3 (apply ends_child_after; [total_steps | intros _ ?]).
  apply ends_child_execvp; [exact Hcmd |]. intros _ ?.
  apply ends_child_after; [apply total_perror | intros _ ?].
  apply ends_child_exit.
Qed.

Lemma inline_child_never_returns cmd l w :
  argv0 cmd <> None ->
  ends_child (PipelineInline.child_branch cmd l w).
Proof.
  intros Hcmd. unfold PipelineInline.child_branch.
  do 3 (apply ends_child_after; [total_steps | intros _ ?]).
  apply ends_child_execvp; [exact Hcmd |]. intros _ ?.
  apply ends_child_after; [apply total_get_errno | intros e ?].
  apply ends_child_after; [| intros _ ?; apply ends_child_exit].
  destruct (e =? ENOENT); [apply total_fprintf | apply total_perror].
Qed.

Lemma single_child_never_returns cmd w :
  argv0 cmd <> None ->
  ends_child (SingleCommand.child_branch cmd w).
Proof.
  intros Hcmd. unfold SingleCommand.child_branch.
  apply ends_child_execvp; [exact Hcmd |]. intros _ ?.
  apply ends_child_after; [apply total_get_errno | intros e ?].
  apply ends_child_after; [| intros _ ?; apply ends_child_exit].
  destruct (e =? ENOENT); [apply total_fprintf | apply total_perror].
Qed.

(** The single-command revision and an input file that cannot be opened:
    [-1] after a message, and no call to [fork]. *)
Lemma single_unopenable_input_aborts cmd f w :
  input_filename cmd = Some f ->
  unreadable_now w f = true ->
  exists w',
    SingleCommand.dispatch_external_command cmd w = Returns (-1) w'
    /\ ends_with_perror (w_trace w') = true
    /\ forked w' = forked w.
Proof.
  intros Hin Hu.
  assert (H : wp (SingleCommand.dispatch_external_command cmd) w
                (fun rv w' => rv = -1
                              /\ ends_with_perror (w_trace w') = true
                              /\ forked w' = forked w)).
  { unfold SingleCommand.dispatch_external_command. rewrite Hin.
    apply wp_bind, wp_uninit. do 2 apply wp_bind.
    apply wp_open. intros fd w1 Hf _ Hro.
    rewrite (Hro f eq_refl eq_refl Hu). cbn [Z.eqb].
    apply wp_bind, wp_perror, wp_ret, wp_ret. repeat split. exact Hf. }
  destruct H as (rv & w' & E & -> & H). exists w'. auto.
Qed.

(* ================================================================== *)
(** * The pipe ends the shell holds                                    *)
(* ================================================================== *)

(** ** Descriptor numbers *)

Lemma count_from_cons k e t :
  count_from k (e :: t)
  = ((if (k <=? fst e)%Z then 1 else 0) + count_from k t)%nat.
Proof. unfold count_from. cbn. destruct (k <=? fst e); reflexivity. Qed.

Lemma count_from_mono k t : (count_from (k + 1) t <= count_from k t)%nat.
Proof.
  induction t as [| e t IH]; [apply Nat.le_refl |].
  rewrite !count_from_cons.
  destruct (k + 1 <=? fst e) eqn:E1; destruct (k <=? fst e) eqn:E2; lia.
Qed.

Lemma count_from_open k t :
  fd_open t k = true -> (count_from (k + 1) t < count_from k t)%nat.
Proof.
  unfold fd_open. induction t as [| e t IH]; cbn [existsb];
    [discriminate |].
  rewrite !count_from_cons. pose proof (count_from_mono k t) as Hle.
  destruct (fst e =? k) eqn:E; cbn [orb].
  - intros _. apply Z.eqb_eq in E. rewrite E.
    replace (k + 1 <=? k) with false by lia.
    replace (k <=? k) with true by lia. lia.
  - intros H. specialize (IH H).
    destruct (k + 1 <=? fst e) eqn:E1; destruct (k <=? fst e) eqn:E2; lia.
Qed.

Lemma lowest_free_from_spec n :
  forall k t,
    (count_from k t <= n)%nat ->
    fd_open t (lowest_free_from n k t) = false
    /\ k <= lowest_free_from n k t.
Proof.
  induction n as [| n IH]; intros k t H; cbn [lowest_free_from].
  - split; [| lia]. destruct (fd_open t k) eqn:E; [| reflexivity].
    apply count_from_open in E. lia.
  - destruct (fd_open t k) eqn:E; [| split; [exact E | lia]].
    apply count_from_open in E.
    destruct (IH (k + 1) t) as [H1 H2]; [lia | split; [exact H1 | lia]].
Qed.

(** The descriptor [pipe] and [open] hand out is not in use, and is not
    negative. *)
Lemma lowest_free_spec t :
  fd_open t (lowest_free t) = false /\ 0 <= lowest_free t.
Proof.
  apply lowest_free_from_spec. unfold count_from. apply filter_length_le.
Qed.

Lemma open_pipe_ends_remove t fd :
  open_pipe_ends (fd_remove t fd) = fd_remove (open_pipe_ends t) fd.
Proof.
  unfold open_pipe_ends, fd_remove. induction t as [| e t IH];
    [reflexivity |].
  cbn [filter].
  destruct (negb (fst e =? fd)) eqn:E1; destruct (is_pipe_end (snd e)) eqn:E2;
    cbn [filter]; rewrite ?E1, ?E2, IH; reflexivity.
Qed.

Lemma open_pipe_ends_app t t' :
  open_pipe_ends (t ++ t') = open_pipe_ends t ++ open_pipe_ends t'.
Proof. apply filter_app. Qed.

Lemma fd_open_false t fd :
  fd_open t fd = false -> forall e, In e t -> fst e <> fd.
Proof.
  unfold fd_open. intros H e He Hfd.
  assert (existsb (fun e => fst e =? fd) t = true).
  { apply existsb_exists. exists e. split; [exact He | apply Z.eqb_eq, Hfd]. }
  congruence.
Qed.

Lemma fd_remove_absent t fd :
  (forall e, In e t -> fst e <> fd) -> fd_remove t fd = t.
Proof.
  unfold fd_remove. induction t as [| e t IH]; intros H; [reflexivity |].
  cbn [filter]. destruct (Z.eqb_spec (fst e) fd) as [E | E].
  - exfalso. apply (H e); [left; reflexivity | exact E].
  - cbn [negb]. f_equal. apply IH. intros e' He'. apply H. right. exact He'.
Qed.

Lemma in_open_pipe_ends e t : In e (open_pipe_ends t) -> In e t.
Proof. unfold open_pipe_ends. intros H. apply filter_In in H. tauto. Qed.

(** What [close] does to the pipe ends held. *)
Lemma close_ends fd w r w' :
  sys_close fd w = Returns r w' ->
  pipe_ends w' = fd_remove (pipe_ends w) fd.
Proof.
  unfold sys_close, pipe_ends. destruct (fd_open (w_fds w) fd) eqn:E;
    intros [= <- <-]; cbn.
  - apply open_pipe_ends_remove.
  - symmetry. apply fd_remove_absent. intros e He.
    apply (fd_open_false _ _ E). apply in_open_pipe_ends, He.
Qed.

(** What [pipe] does to them: nothing when it fails; otherwise the two ends
    are new, on descriptors that were not in use. *)
Lemma pipe_ends_after_pipe arr w rc arr' w' :
  sys_pipe arr w = Returns (rc, arr') w' ->
  (rc = -1 /\ pipe_ends w' = pipe_ends w)
  \/ (rc = 0
      /\ exists id,
          pipe_ends w' = pipe_ends w ++ [(fst arr', PipeRd id);
                                         (snd arr', PipeWr id)]
          /\ 0 <= fst arr' /\ fst arr' <> snd arr'
          /\ forall e, In e (pipe_ends w) ->
                       fst e <> fst arr' /\ fst e <> snd arr').
Proof.
  unfold sys_pipe, pipe_ends.
  destruct (_ <? _); intros [= <- <- <-]; [right | left; auto].
  split; [reflexivity |]. exists (w_next_pipe w). cbn.
  destruct (lowest_free_spec (w_fds w)) as [Hrd Hpos].
  destruct (lowest_free_spec (w_fds w ++ [(lowest_free (w_fds w),
                                           PipeRd (w_next_pipe w))]))
    as [Hwr _].
  pose proof (fd_open_false _ _ Hrd) as Hrd'.
  pose proof (fd_open_false _ _ Hwr) as Hwr'.
  split; [| split; [exact Hpos | split]].
  - rewrite open_pipe_ends_app. reflexivity.
  - intros E. apply (Hwr' (lowest_free (w_fds w), PipeRd (w_next_pipe w)));
      [apply in_or_app; right; left; reflexivity | exact E].
  - intros e He. apply in_open_pipe_ends in He. split.
    + apply Hrd', He.
    + apply Hwr'. apply in_or_app. left. exact He.
Qed.

Lemma stable_ends_open path flags mode :
  stable pipe_ends (sys_open path flags mode).
Proof.
  intros w. unfold sys_open, open_gives, open_fails, pipe_ends.
  destruct path as [p |]; [| reflexivity].
  destruct (w_fs w p).
  - destruct (access_ok _ _); [destruct (_ <? _) |]; cbn;
      rewrite ?open_pipe_ends_app, ?app_nil_r; reflexivity.
  - destruct (negb _); [destruct (w_creatable w p) |]; try reflexivity.
    cbn. destruct (_ <? _); cbn;
      rewrite ?open_pipe_ends_app, ?app_nil_r; reflexivity.
Qed.

Lemma stable_ends_fork code : stable pipe_ends (sys_fork code).
Proof. intros w. unfold sys_fork. destruct (w_procs_left w); reflexivity. Qed.

Lemma stable_ends_perror msg : stable pipe_ends (perror msg).
Proof. intros w. reflexivity. Qed.

Lemma stable_ends_wait_loop n : forall s, stable pipe_ends (wait_loop n s).
Proof.
  induction n as [| n IH]; intros s w; cbn [wait_loop]; unfold bind, sys_wait;
    (destruct (next_report (w_children w)) as [c |];
     [destruct (c_status c); [| reflexivity]
     | destruct (w_children w); reflexivity]); cbn [Z.gtb Z.compare].
  - reflexivity.
  - rewrite IH. reflexivity.
Qed.

(** [setup_io], when it succeeds, leaves the pipe ends as they were unless
    the stage pipes; then it adds the two ends of a new pipe, which it puts
    in [curr_pipe]. *)
Lemma setup_io_ends c l w rc l1 w1 :
  PipelineHelpers.setup_io c l w = Returns (rc, l1) w1 ->
  (rc =? -1) = false ->
  prev_pipe l1 = prev_pipe l
  /\ if is_pipe (output_type c)
     then exists id,
         pipe_ends w1 = pipe_ends w ++ [(fst (curr_pipe l1), PipeRd id);
                                        (snd (curr_pipe l1), PipeWr id)]
         /\ 0 <= fst (curr_pipe l1)
         /\ fst (curr_pipe l1) <> snd (curr_pipe l1)
         /\ forall e, In e (pipe_ends w) ->
                      fst e <> fst (curr_pipe l1)
                      /\ fst e <> snd (curr_pipe l1)
     else pipe_ends w1 = pipe_ends w.
Proof.
  unfold PipelineHelpers.setup_io. intros H Hrc.
  apply bind_returns in H as (r0 & w0 & Hout & H).
  assert (Htail : forall l0, r0 = inr l0 ->
            pipe_ends w1 = pipe_ends w0
            /\ prev_pipe l1 = prev_pipe l0 /\ curr_pipe l1 = curr_pipe l0).
  { intros l0 ->. apply bind_returns in H as (r1 & w2 & Hin & H).
    assert (Hcheck : forall l2, r1 = inr l2 ->
              pipe_ends w1 = pipe_ends w2 /\ l1 = l2).
    { intros l2 ->. destruct (_ && _).
      - apply bind_returns in H as (? & ? & _ & [= <- _ _]).
        discriminate Hrc.
      - injection H as _ <- <-. auto. }
    destruct (input_filename c) as [f |].
    - apply bind_returns in Hin as (fd & w3 & Hopen & Hin).
      apply (stable_returns pipe_ends _ _ _ _ (stable_ends_open _ _ _))
        in Hopen.
      destruct (fd =? -1).
      + apply bind_returns in Hin as (? & ? & _ & [= <- _]).
        injection H as <- _ _. discriminate Hrc.
      + injection Hin as <- <-.
        destruct (Hcheck _ eq_refl) as [He ->]. rewrite He, Hopen. auto.
    - injection Hin as <- <-.
      destruct (Hcheck _ eq_refl) as [He ->]. auto. }
  destruct (output_type c); cbn [is_pipe].
  - injection Hout as <- <-.
    destruct (Htail _ eq_refl) as (He & Hp & _). auto.
  - apply bind_returns in Hout as (fd & w2 & Hopen & [= <- <-]).
    apply (stable_returns pipe_ends _ _ _ _ (stable_ends_open _ _ _)) in Hopen.
    destruct (Htail _ eq_refl) as (He & Hp & _). rewrite He, Hopen. auto.
  - apply bind_returns in Hout as (fd & w2 & Hopen & [= <- <-]).
    apply (stable_returns pipe_ends _ _ _ _ (stable_ends_open _ _ _)) in Hopen.
    destruct (Htail _ eq_refl) as (He & Hp & _). rewrite He, Hopen. auto.
  - apply bind_returns in Hout as ([rc0 arr] & w2 & Hpipe & Hout).
    apply pipe_ends_after_pipe in Hpipe
      as [[-> _] | (-> & id & He2 & Hpos & Hne & Hfresh)].
    + apply bind_returns in Hout as (? & ? & _ & [= <- _]).
      injection H as <- _ _. discriminate Hrc.
    + injection Hout as <- <-.
      destruct (Htail _ eq_refl) as (He & Hp & Hc).
      cbn in Hp, Hc. rewrite Hc. split; [exact Hp |].
      exists id. rewrite He, He2. auto.
Qed.

(** [handle_parent_process] closes the write end of the stage's pipe and
    the read end of the pipe before. *)
Lemma handle_parent_process_ends c l w l' w' :
  PipelineHelpers.handle_parent_process c l w = Returns l' w' ->
  prev_pipe l' = curr_pipe l
  /\ pipe_ends w'
     = (if negb (fst (prev_pipe l) =? -1)
        then fun t => fd_remove t (fst (prev_pipe l))
        else fun t => t)
         ((if is_pipe (output_type c)
           then fun t => fd_remove t (snd (curr_pipe l))
           else fun t => t) (pipe_ends w)).
Proof.
  unfold PipelineHelpers.handle_parent_process, when. intros H.
  apply bind_returns in H as ([] & w1 & H1 & H).
  apply bind_returns in H as ([] & w2 & H2 & [= <- <-]).
  split; [reflexivity |].
  assert (E1 : pipe_ends w1
               = (if is_pipe (output_type c)
                  then fun t => fd_remove t (snd (curr_pipe l))
                  else fun t => t) (pipe_ends w)).
  { destruct (is_pipe (output_type c)).
    - apply bind_returns in H1 as (r & w3 & Hc & [= <-]).
      apply (close_ends _ _ _ _ Hc).
    - injection H1 as <-. reflexivity. }
  rewrite <- E1. destruct (negb _).
  - apply bind_returns in H2 as (r & w3 & Hc & [= <-]).
    apply (close_ends _ _ _ _ Hc).
  - injection H2 as <-. reflexivity.
Qed.

Lemma well_formed_eq c :
  well_formed c
  = match pipe_to c with
    | Some next => is_pipe (output_type c) && well_formed next
    | None => negb (is_pipe (output_type c))
    end.
Proof. destruct c; reflexivity. Qed.

(** One turn of the loop that goes on: it starts with the read end of the
    pipe before as the only pipe end held (or none, at the first stage) and
    ends with the read end of the stage's own pipe as the only one (or
    none, when the stage does not pipe). *)
Lemma helpers_stage_ends c l w l' w' :
  PipelineHelpers.stage c l w = Returns (inr l') w' ->
  keeps_prev_end l w ->
  if is_pipe (output_type c)
  then keeps_prev_end l' w' /\ fst (prev_pipe l') <> -1
  else pipe_ends w' = [].
Proof.
  unfold PipelineHelpers.stage. intros H Hinv.
  apply bind_returns in H as ([rc l1] & w1 & Hsetup & H).
  destruct (rc =? -1) eqn:Hrc; [discriminate H |].
  apply bind_returns in H as (pid & w2 & Hfork & H).
  apply (stable_returns pipe_ends _ _ _ _ (stable_ends_fork _)) in Hfork.
  destruct (pid >? 0); [| apply bind_returns in H as (? & ? & _ & [=])].
  apply bind_returns in H as (l2 & w3 & Hpar & [= <- <-]).
  apply setup_io_ends in Hsetup as [Hprev Hends]; [| exact Hrc].
  apply handle_parent_process_ends in Hpar as [Hprev' Hends'].
  rewrite Hfork, Hprev in Hends'. clear Hfork.
  destruct (is_pipe (output_type c)).
  - destruct Hends as (id & Hends & Hpos & Hne & Hfresh).
    assert (Hgoal : fst (prev_pipe l2) <> -1) by (rewrite Hprev'; lia).
    split; [| exact Hgoal]. right. split; [exact Hgoal |].
    exists id. rewrite Hprev', Hends', Hends. unfold fd_remove.
    destruct Hinv as [[-> ->] | (Hr & id0 & E)].
    + cbn [negb Z.eqb app filter fst].
      rewrite Z.eqb_refl. apply Z.eqb_neq in Hne. rewrite Hne. reflexivity.
    + rewrite E in *.
      destruct (Hfresh _ (or_introl eq_refl)) as [Hr1 Hr2]. cbn [fst] in *.
      apply Z.eqb_neq in Hr. rewrite Hr. cbn [negb app filter fst].
      rewrite Z.eqb_refl.
      apply Z.eqb_neq in Hne, Hr2. rewrite Hne, Hr2. cbn [negb filter fst].
      rewrite Z.eqb_refl.
      assert (Hr3 : (fst (curr_pipe l1) =? fst (prev_pipe l)) = false)
        by (apply Z.eqb_neq; congruence).
      rewrite Hr3. reflexivity.
  - rewrite Hends', Hends. destruct Hinv as [[-> ->] | (Hr & id0 & ->)].
    + reflexivity.
    + apply Z.eqb_neq in Hr. rewrite Hr. unfold fd_remove.
      cbn [negb filter fst]. rewrite Z.eqb_refl. reflexivity.
Qed.

(** The loop over a well-formed pipeline, when it runs to its end, leaves no
    pipe end open in the shell. *)
Lemma helpers_stage_loop_ends c :
  forall l w l' w',
    well_formed c = true ->
    keeps_prev_end l w ->
    PipelineHelpers.stage_loop c l w = Returns (inr l') w' ->
    pipe_ends w' = [].
Proof.
  induction c as [c Hc | c next Hc IH] using command_chain_ind;
    intros l w l' w' Hwf Hinv H;
    rewrite well_formed_eq, Hc in Hwf;
    rewrite helpers_stage_loop_eq, Hc in H;
    apply bind_returns in H as ([rv | l1] & w1 & Hs & H);
    try discriminate H;
    apply helpers_stage_ends in Hs; try exact Hinv.
  - injection H as <- <-. apply negb_true_iff in Hwf. rewrite Hwf in Hs.
    exact Hs.
  - apply andb_prop in Hwf as [Hp Hwf]. rewrite Hp in Hs.
    destruct Hs as [Hinv' _]. eapply IH; eassumption.
Qed.

(** When the revision with helper functions runs a well-formed pipeline in
    a shell that holds no pipe end, and returns something else than [-1],
    the shell holds no pipe end afterwards. *)
Lemma successful_pipeline_closes_pipe_ends pipeline w rv w' :
  well_formed pipeline = true ->
  pipe_ends w = [] ->
  PipelineHelpers.dispatch_external_command pipeline w = Returns rv w' ->
  rv <> -1 ->
  pipe_ends w' = [].
Proof.
  intros Hwf Hw H Hrv. unfold PipelineHelpers.dispatch_external_command in H.
  apply bind_returns in H as (s0 & w0 & [= <- <-] & H).
  apply bind_returns in H as (c0 & w0 & [= <- <-] & H).
  apply bind_returns in H as (c1 & w0 & [= <- <-] & H).
  apply bind_returns in H as ([rv' | l'] & w1 & Hloop & H).
  - injection H as <- <-. apply helpers_stage_loop_result in Hloop.
    contradiction.
  - apply bind_returns in H as (s' & w2 & Hwait & [= <- <-]).
    apply (stable_returns pipe_ends _ _ _ _ (stable_ends_wait_loop _ _))
      in Hwait.
    rewrite Hwait. eapply helpers_stage_loop_ends; [exact Hwf | | exact Hloop].
    left. split; [reflexivity | exact Hw].
Qed.

(* ================================================================== *)
(** * The properties of the specification                              *)
(* ================================================================== *)

(** ** The reaper and the pipes *)

(** C1.  [slow | fast], where [slow] exits with 3 after [fast] has exited
    with 0: both pipeline revisions wait for the two children, [fast] (the
    last stage, process 101, status 0) first and [slow] (process 100) last,
    and return 3, the status of the child reported last, not the status 0 of
    the last stage. *)
Theorem last_reported_status_returned :
  let helpers := PipelineHelpers.dispatch_external_command
                   Scenarios.slow_fast Scenarios.slow_ends_last in
  let inline := PipelineInline.dispatch_external_command
                  Scenarios.slow_fast Scenarios.slow_ends_last in
  returned helpers = Some 3
  /\ returned inline = Some 3
  /\ filter is_wait (rev (w_trace (final_world helpers)))
     = [EvWait 101 (exit_status 0); EvWait 100 (exit_status 3);
        EvWait (-1) (exit_status 3)]
  /\ filter is_wait (rev (w_trace (final_world inline)))
     = [EvWait 101 (exit_status 0); EvWait 100 (exit_status 3);
        EvWait (-1) (exit_status 3)].
Proof. vm_compute. repeat split. Qed.

(** C2.  [a | b] in the revision with helper functions.  The child made for
    [a] moves the write end of the pipe (descriptor 4) onto its standard
    output, closes descriptor 4, closes it a second time (which fails), and
    replaces its image still holding descriptor 3, the read end of the pipe
    it writes into.  And when [fork] fails for [b], the dispatcher returns
    [-1] with descriptor 3, the read end of the pipe it created, still open
    in the shell. *)
Theorem pipe_ends_left_open :
  (exists child rest,
      w_children (final_world (PipelineHelpers.stage_loop Scenarios.a_b
                                 Scenarios.fresh_locals Scenarios.roomy))
        = child :: rest
      /\ c_end child = Replaced "a" ["a"%string]
      /\ rev (c_trace child)
         = [EvDup2 4 1 1; EvClose 4 0; EvClose 4 (-1);
            EvExecvp (Some "a"%string) ["a"%string] 0]
      /\ open_pipe_ends (c_fds child) = [(3, PipeRd 0); (1, PipeWr 0)])
  /\ (let failed := PipelineHelpers.dispatch_external_command Scenarios.a_b
                      Scenarios.one_process_left in
      returned failed = Some (-1)
      /\ open_pipe_ends (w_fds (final_world failed)) = [(3, PipeRd 0)]).
Proof.
  split.
  - eexists _, _. vm_compute. repeat split.
  - vm_compute. repeat split.
Qed.

(** C3.  [a | b] when [fork] succeeds for [a] and fails for [b]: both
    pipeline revisions report the failure and return [-1] after two calls
    to [fork], without a single call to [wait]; the process made for [a]
    (number 100) is still among the children not waited for. *)
Theorem fork_failure_returns_without_reaping :
  let unreaped (failed : outcome Z) :=
    returned failed = Some (-1)
    /\ ends_with_perror (w_trace (final_world failed)) = true
    /\ forked (final_world failed) = 2%nat
    /\ waits (w_trace (final_world failed)) = 0%nat
    /\ map c_pid (w_children (final_world failed)) = [100%positive] in
  unreaped (PipelineInline.dispatch_external_command Scenarios.a_b
              Scenarios.one_process_left)
  /\ unreaped (PipelineHelpers.dispatch_external_command Scenarios.a_b
                 Scenarios.one_process_left).
Proof. vm_compute. repeat split. Qed.

(** ** Redirection *)

(** C4.  In the revision with helper functions, when stage number [k] of a
    pipeline names an input file that cannot be opened for reading (the file
    is missing and no stage up to [k] creates it, or it may not be read),
    the invocation fails: [dispatch_external_command] returns [-1], the last
    thing it does is to report an error with [perror], and it calls [fork]
    at most [k] times, once for each of the stages before [k] at most, so
    that no process is made for stage [k]. *)
Theorem unopenable_input_aborts pipeline k cmd f w :
  nth_error (stages pipeline) k = Some cmd ->
  input_filename cmd = Some f ->
  cannot_be_opened w (firstn (S k) (stages pipeline)) f = true ->
  exists w',
    PipelineHelpers.dispatch_external_command pipeline w = Returns (-1) w'
    /\ ends_with_perror (w_trace w') = true
    /\ (forked w' <= forked w + k)%nat.
Proof.
  intros Hk Hin Hu.
  assert (H : wp (PipelineHelpers.dispatch_external_command pipeline) w
                (fun rv w' => rv = -1
                              /\ ends_with_perror (w_trace w') = true
                              /\ (forked w' <= forked w + k)%nat)).
  { unfold PipelineHelpers.dispatch_external_command.
    do 3 apply wp_bind, wp_uninit. apply wp_bind.
    eapply wp_mono; [apply (helpers_stage_loop_unopenable _ k cmd f); eauto |].
    cbn beta. intros r w' (-> & Hp & Hf). apply wp_ret. auto. }
  destruct H as (rv & w' & E & -> & H). exists w'. auto.
Qed.

(** [ls | cat < nonexistent_file]: [-1], and one [fork] at most. *)
Lemma unopenable_input_aborts_witness :
  exists w',
    PipelineHelpers.dispatch_external_command Scenarios.ls_cat_missing
      Scenarios.roomy = Returns (-1) w'
    /\ ends_with_perror (w_trace w') = true
    /\ (forked w' <= forked Scenarios.roomy + 1)%nat.
Proof.
  apply (unopenable_input_aborts Scenarios.ls_cat_missing 1
           Scenarios.cat_missing "nonexistent_file" Scenarios.roomy);
    reflexivity.
Defined.

(** C5.  [a | b >> out].  The revision with the logic inline opens, for [b],
    the output file name of the head of the pipeline ([a], which has none:
    a null pointer) and gives up with [-1]; the revision with helper
    functions opens ["out"], the name [b] declares, with
    [O_WRONLY | O_CREAT | O_APPEND]. *)
Theorem inline_append_opens_head_filename :
  let flags := Z.lor (Z.lor O_WRONLY O_CREAT) O_APPEND in
  let inline := PipelineInline.dispatch_external_command
                  Scenarios.a_b_append Scenarios.roomy in
  let helpers := PipelineHelpers.dispatch_external_command
                   Scenarios.a_b_append Scenarios.roomy in
  returned inline = Some (-1)
  /\ In (EvOpen None flags (-1)) (w_trace (final_world inline))
  /\ (forall fl fd, ~ In (EvOpen (Some "out"%string) fl fd)
                        (w_trace (final_world inline)))
  /\ returned helpers = Some 0
  /\ In (EvOpen (Some "out"%string) flags 4) (w_trace (final_world helpers))
  /\ fd_lookup (w_fds (final_world helpers)) 4 = Some (File "out" flags).
Proof.
  cbv zeta. repeat split.
  - vm_compute. auto 10.
  - intros fl fd H. vm_compute in H.
    repeat (destruct H as [H | H]; [discriminate H |]). exact H.
  - vm_compute. auto 10.
Qed.

(** ** Statuses *)

(** A single command without redirection that is spawned ([fork] and
    [execvp] succeed) and exits with [code], in a shell that has no other
    child to wait for: every revision returns [code].  The revision that
    reaps with [waitpid] only needs the new process number to be fresh. *)
Lemma single_command_alone_returns_exit_code rev cmd a0 code w :
  single_command cmd ->
  argv0 cmd = Some a0 ->
  w_procs_left w <> O ->
  w_exec_errno w a0 = 0 ->
  f_status (w_fate w (w_next_pid w)) = Some (exit_status code) ->
  0 <= code <= 255 ->
  (if runs_pipelines rev
   then w_children w = []
   else find_child (Z.pos (w_next_pid w)) (w_children w) = None) ->
  returned (dispatch_external_command_of rev cmd w) = Some code.
Proof.
  intros Hs Ha Hp He Hf Hc Hcs. destruct rev; cbn in Hcs |- *.
  - apply (inline_status cmd a0); assumption.
  - apply (helpers_status cmd a0); assumption.
  - apply (single_status cmd a0); assumption.
Qed.

(** [false], which exits with 1, in the revision with the logic inline. *)
Example false_alone_returns_1 :
  returned (dispatch_external_command_of Inline Scenarios.false_cmd
              Scenarios.false_exits_1) = Some 1.
Proof.
  apply (single_command_alone_returns_exit_code Inline Scenarios.false_cmd
           "false" 1 Scenarios.false_exits_1).
  - repeat split.
  - reflexivity.
  - discriminate.
  - reflexivity.
  - reflexivity.
  - lia.
  - reflexivity.
Qed.

(** C6.  [false] after a pipeline that was given up.  The revision with the
    logic inline gives up [sleep | cat >> out], and the revision with helper
    functions [sleep | cat < nonexistent_file], with [-1] and without
    waiting: the process made for [sleep], number 100, is still a child of
    the shell.  The single command [false] is then spawned as process 101
    and exits with 1, before [sleep] exits with 0.  The two revisions that
    reap with [while (wait (&status) > 0);] collect 101 and then 100, and
    return 0, the exit code of [sleep]; the revision that reaps with
    [waitpid (pid, ...)] returns 1, the exit code of [false], from the very
    same state. *)
Theorem single_command_returns_status_of_other_child :
  let w := Scenarios.sleep_outlives_false in
  let given_up_inline :=
    PipelineInline.dispatch_external_command Scenarios.sleep_cat_append w in
  let given_up_helpers :=
    PipelineHelpers.dispatch_external_command Scenarios.sleep_cat_missing w in
  let inline := PipelineInline.dispatch_external_command Scenarios.false_cmd
                  (final_world given_up_inline) in
  let helpers := PipelineHelpers.dispatch_external_command Scenarios.false_cmd
                   (final_world given_up_helpers) in
  let single := SingleCommand.dispatch_external_command Scenarios.false_cmd
                  (final_world given_up_helpers) in
  (returned given_up_inline = Some (-1)
   /\ map c_pid (w_children (final_world given_up_inline)) = [100%positive])
  /\ (returned given_up_helpers = Some (-1)
      /\ map c_pid (w_children (final_world given_up_helpers))
         = [100%positive])
  /\ f_status (w_fate w 101) = Some (exit_status 1)
  /\ (returned inline = Some 0
      /\ filter is_wait (rev (w_trace (final_world inline)))
         = [EvWait 101 (exit_status 1); EvWait 100 (exit_status 0);
            EvWait (-1) (exit_status 0)])
  /\ (returned helpers = Some 0
      /\ filter is_wait (rev (w_trace (final_world helpers)))
         = [EvWait 101 (exit_status 1); EvWait 100 (exit_status 0);
            EvWait (-1) (exit_status 0)])
  /\ (returned single = Some 1
      /\ filter is_wait (rev (w_trace (final_world single)))
         = [EvWaitpid 101 101 (exit_status 1)]).
Proof. vm_compute. repeat split. Qed.

(** C7.  In each of the three revisions, when the child that was reported
    last to [dispatch_external_command] (by the last successful [wait] or
    [waitpid]) did not exit normally, the status returned is [-1], whatever
    the wait status holds. *)
Theorem abnormal_termination_reports_failure rev pipeline w rv st :
  returned (dispatch_external_command_of rev pipeline w) = Some rv ->
  reported (final_world (dispatch_external_command_of rev pipeline w))
    = Some st ->
  WIFEXITED st = false ->
  rv = -1.
Proof.
  intros Hrv Hst Hab.
  destruct (dispatch_external_command_of rev pipeline w)
    as [rv' w' | | | |] eqn:E; try discriminate Hrv.
  cbn in Hrv, Hst. injection Hrv as ->.
  destruct (returns_last_reported rev pipeline w rv w' E)
    as [-> | (st' & Hst' & ->)]; [reflexivity |].
  rewrite Hst in Hst'. injection Hst' as <-.
  apply decode_abnormal, Hab.
Qed.

(** [yes | head] with [head] killed by signal 9 after [yes] has exited. *)
Lemma abnormal_termination_reports_failure_witness :
  reported (final_world
              (dispatch_external_command_of Helpers Scenarios.yes_head
                 Scenarios.head_killed)) = Some (signal_status 9)
  /\ WIFEXITED (signal_status 9) = false
  /\ returned (dispatch_external_command_of Helpers Scenarios.yes_head
                 Scenarios.head_killed) = Some (-1).
Proof.
  split; [vm_compute; reflexivity |].
  split; [reflexivity |].
  destruct (returned (dispatch_external_command_of Helpers Scenarios.yes_head
                        Scenarios.head_killed)) as [rv |] eqn:E;
    [| vm_compute in E; discriminate E].
  f_equal.
  apply (abnormal_termination_reports_failure Helpers Scenarios.yes_head
           Scenarios.head_killed rv (signal_status 9));
    [exact E | vm_compute; reflexivity | reflexivity].
Defined.

(** ** The children *)

(** C8.  A program that does not exist ([execvp] fails with [ENOENT]).  The
    child of the revision with helper functions reports it with [perror],
    as it reports any other failure (here [EACCES]); the children of the
    two other revisions print the message of their own.  All of them call
    [exit (-1)]. *)
Theorem helpers_child_reports_enoent_with_perror :
  let w := child_world Scenarios.roomy in
  PipelineHelpers.execute_child_process (Scenarios.simple "nosuch") 0 1 (0, 0) w
    = Exits (-1)
        (log (EvPerror "execvp failed" ENOENT)
           (log (EvExecvp (Some "nosuch"%string) ["nosuch"%string] (-1))
              (set_errno ENOENT w)))
  /\ PipelineHelpers.execute_child_process (Scenarios.simple "noperm") 0 1
       (0, 0) w
     = Exits (-1)
         (log (EvPerror "execvp failed" EACCES)
            (log (EvExecvp (Some "noperm"%string) ["noperm"%string] (-1))
               (set_errno EACCES w)))
  /\ PipelineInline.child_branch (Scenarios.simple "nosuch")
       Scenarios.fresh_locals w
     = Exits (-1)
         (log (EvStderr ("error: cannot find command" ++ nl))
            (log (EvExecvp (Some "nosuch"%string) ["nosuch"%string] (-1))
               (set_errno ENOENT w)))
  /\ SingleCommand.child_branch (Scenarios.simple "nosuch") w
     = Exits (-1)
         (log (EvStderr ("error: cannot find command" ++ nl))
            (log (EvExecvp (Some "nosuch"%string) ["nosuch"%string] (-1))
               (set_errno ENOENT w))).
Proof. repeat split. Qed.

(** ** The dispatcher *)

Section DispatcherFacts.

Variable parse_input : string -> Z * option command.
Variable parse_error_str : Z -> string.
Variable builtin_commands : list (string * Dispatcher.handler).
Variable dispatch_external_command : command -> M Z.

Lemma dispatch_from_external table cmd last_rv flag w rv flag' w' :
  existsb (fun e => Dispatcher.names (fst e) (argv0 cmd)) table = false ->
  Dispatcher.dispatch_from dispatch_external_command table cmd last_rv flag w
    = Returns (rv, flag') w' ->
  flag' = flag.
Proof.
  induction table as [| [name run] table IH]; cbn; intros Hno H.
  - apply bind_returns in H as (rv' & w1 & _ & [= _ <- _]). reflexivity.
  - apply orb_false_elim in Hno as [Hn Hno].
    apply bind_returns in H as (same & w1 & Hcmp & H).
    unfold Dispatcher.strcmp_equal in Hcmp.
    destruct (argv0 cmd) as [a |]; [| discriminate Hcmp].
    injection Hcmp as <- <-.
    cbn [Dispatcher.names] in Hn. rewrite Hn in H. auto.
Qed.

Lemma dispatcher_frames_flag input last_rv flag w rv flag' w' :
  calls_builtin parse_input builtin_commands input = false ->
  Dispatcher.shell_command_dispatcher parse_input parse_error_str
    builtin_commands dispatch_external_command input last_rv flag w
    = Returns (rv, flag') w' ->
  flag' = flag.
Proof.
  unfold Dispatcher.shell_command_dispatcher, calls_builtin,
    Dispatcher.dispatch_parsed_command, Dispatcher.is_builtin.
  destruct (parse_input input) as [e [cmd |]]; intros Hno H.
  - destruct (e =? 0); cbn in H, Hno.
    + eapply dispatch_from_external; eassumption.
    + injection H as _ <- _. reflexivity.
  - destruct (e =? 0); cbn in H; injection H as _ <- _; reflexivity.
Qed.

End DispatcherFacts.

(** A parse error is reported and gives [-1]; nothing is executed and the
    flag is untouched. *)
Lemma parse_error_fails rev parse_input parse_error_str builtin_commands
    input last_rv flag w e r :
  parse_input input = (e, r) -> e <> 0 ->
  shell_command_dispatcher_of rev parse_input parse_error_str
    builtin_commands input last_rv flag w
  = Returns (-1, flag)
      (log (EvStderr ("Input parse error: " ++ parse_error_str e ++ nl)) w).
Proof.
  intros H He. unfold shell_command_dispatcher_of,
    Dispatcher.shell_command_dispatcher.
  rewrite H. apply Z.eqb_neq in He. rewrite He. reflexivity.
Qed.

(** A builtin's handler does write the flag: the line ["exit"] raises it,
    and forks nothing. *)
Lemma builtin_raises_flag :
  shell_command_dispatcher_of Helpers Scenarios.parse Scenarios.parse_message
    Scenarios.builtins "exit" 7 false Scenarios.roomy
  = Returns (7, true) Scenarios.roomy.
Proof. reflexivity. Qed.

(** C9.  A blank input line (the parser reports no error and hands over no
    command): whatever the revision, [shell_command_dispatcher] returns the
    previous status, and the world is as it was: nothing was executed, and
    the exit-request flag is untouched. *)
Theorem blank_line_keeps_status rev parse_input parse_error_str
    builtin_commands input last_rv flag w :
  parse_input input = (0, None) ->
  shell_command_dispatcher_of rev parse_input parse_error_str
    builtin_commands input last_rv flag w
  = Returns (last_rv, flag) w.
Proof.
  intros H. unfold shell_command_dispatcher_of,
    Dispatcher.shell_command_dispatcher.
  rewrite H. reflexivity.
Qed.

(** The empty line, after a command that ended with status 7. *)
Lemma blank_line_keeps_status_witness :
  shell_command_dispatcher_of Helpers Scenarios.parse
    Scenarios.parse_message Scenarios.builtins "" 7 false Scenarios.roomy
  = Returns (7, false) Scenarios.roomy.
Proof.
  apply (blank_line_keeps_status Helpers Scenarios.parse
           Scenarios.parse_message Scenarios.builtins "" 7 false
           Scenarios.roomy).
  reflexivity.
Defined.

(** C10.  Whatever the revision, when the line does not make the dispatcher
    call a builtin's handler (the parser reports an error, the line is
    blank, or the command is an external one), the exit-request flag that
    [shell_command_dispatcher] hands back is the one it was given. *)
Theorem exit_flag_written_by_builtins_only rev parse_input parse_error_str
    builtin_commands input last_rv flag w rv flag' :
  calls_builtin parse_input builtin_commands input = false ->
  returned (shell_command_dispatcher_of rev parse_input parse_error_str
              builtin_commands input last_rv flag w) = Some (rv, flag') ->
  flag' = flag.
Proof.
  intros Hno H.
  destruct (shell_command_dispatcher_of rev parse_input parse_error_str
              builtin_commands input last_rv flag w)
    as [[rv0 flag0] w' | | | |] eqn:E; try discriminate H.
  injection H as -> ->.
  exact (dispatcher_frames_flag parse_input parse_error_str builtin_commands
           _ input last_rv flag w rv flag' w' Hno E).
Qed.

(** The external command [ls], with the flag down. *)
Lemma exit_flag_written_by_builtins_only_witness :
  calls_builtin Scenarios.parse Scenarios.builtins "ls" = false
  /\ returned (shell_command_dispatcher_of Helpers Scenarios.parse
                 Scenarios.parse_message Scenarios.builtins "ls" 7 false
                 Scenarios.roomy) = Some (0, false).
Proof.
  split; [reflexivity |].
  destruct (returned (shell_command_dispatcher_of Helpers Scenarios.parse
                        Scenarios.parse_message Scenarios.builtins "ls" 7
                        false Scenarios.roomy))
    as [[rv flag'] |] eqn:E; [| vm_compute in E; discriminate E].
  rewrite (exit_flag_written_by_builtins_only Helpers Scenarios.parse
             Scenarios.parse_message Scenarios.builtins "ls" 7 false
             Scenarios.roomy rv flag' eq_refl E).
  vm_compute in E. injection E as <- _. reflexivity.
Defined.

(* ================================================================== *)
(** * Further properties of the code                                   *)
(* ================================================================== *)

(** ** What the dispatchers return *)

Lemma decode_status_range st : -1 <= decode_status st <= 255.
Proof.
  unfold decode_status, WEXITSTATUS. destruct (WIFEXITED st); [| lia].
  rewrite Z.shiftr_div_pow2 by lia.
  assert (H : 0 <= Z.land st 65280 < 65536).
  { change 65280 with (Z.land 65280 (Z.ones 16)).
    rewrite Z.land_assoc, Z.land_ones by lia.
    apply Z.mod_pos_bound. reflexivity. }
  change (2 ^ 8) with 256. split.
  - apply Z.le_trans with 0; [lia | apply Z.div_pos; lia].
  - apply Z.lt_succ_r. apply Z.div_lt_upper_bound; lia.
Qed.

(** ** More on computations *)

Lemma wp_returns {A} (m : M A) w a w' (Q : A -> world -> Prop) :
  wp m w Q -> m w = Returns a w' -> Q a w'.
Proof. intros (a0 & w0 & E & H) E'. rewrite E in E'. injection E' as <- <-. exact H. Qed.

Lemma total_uninit n : total (uninit n).
Proof. intros w. apply wp_uninit. exact I. Qed.

Lemma total_pipe arr : total (sys_pipe arr).
Proof. intros w. apply wp_pipe. intros; exact I. Qed.

Lemma total_open path flags mode : total (sys_open path flags mode).
Proof. intros w. apply wp_open. intros; exact I. Qed.

Lemma total_fork code : total (sys_fork code).
Proof. intros w. apply wp_fork. intros; exact I. Qed.

(** Like [total_steps], with every call that always comes back. *)
Ltac comes_back :=
  repeat first
    [ apply total_ret
    | apply total_when
    | apply total_bind; [| intros ]
    | apply total_perror
    | apply total_close
    | apply total_dup2
    | apply total_uninit
    | apply total_pipe
    | apply total_open
    | apply total_fork
    | match goal with
      | |- total (let (_, _) := ?p in _) => destruct p
      | |- total (if ?b then _ else _) => destruct b
      | |- total (match ?x with _ => _ end) => destruct x
      end ].

Lemma inline_stage_total pipeline c l : total (PipelineInline.stage pipeline c l).
Proof.
  unfold PipelineInline.stage, PipelineInline.resolve_output,
    PipelineInline.parent_branch.
  comes_back.
Qed.

Lemma helpers_stage_total c l : total (PipelineHelpers.stage c l).
Proof.
  unfold PipelineHelpers.stage, PipelineHelpers.setup_io,
    PipelineHelpers.handle_parent_process.
  comes_back.
Qed.

#[export] Instance waited_framed : Framed waited.
Proof.
  split; try reflexivity.
  intros e w H. unfold waited, waits. cbn. destruct e; try reflexivity;
    cbn in H; discriminate H.
Qed.

#[export] Instance waited_fs_blind : FsBlind waited.
Proof. intros fs w. reflexivity. Qed.

#[export] Instance waited_fork_blind : ForkBlind waited.
Proof. split; reflexivity. Qed.

Lemma inline_stage_loop_waited pipeline c :
  forall l, stable waited (PipelineInline.stage_loop pipeline c l).
Proof.
  induction c as [c Hc | c next Hc IH] using command_chain_ind; intros l;
    rewrite inline_stage_loop_eq, Hc;
    (apply stable_bind;
     [unfold PipelineInline.stage, PipelineInline.resolve_output,
        PipelineInline.parent_branch; stable_steps |]);
    intros [rv | l']; solve [apply stable_ret | apply IH].
Qed.

Lemma helpers_stage_loop_waited c :
  forall l, stable waited (PipelineHelpers.stage_loop c l).
Proof.
  induction c as [c Hc | c next Hc IH] using command_chain_ind; intros l;
    rewrite helpers_stage_loop_eq, Hc;
    (apply stable_bind;
     [unfold PipelineHelpers.stage, PipelineHelpers.setup_io,
        PipelineHelpers.handle_parent_process; stable_steps |]);
    intros [rv | l']; solve [apply stable_ret | apply IH].
Qed.

(** ** What [dispatch_external_command] returns *)

(** X1.  In every revision, what [dispatch_external_command] returns is
    [-1] or the exit code of the child whose end was reported last to the
    shell: never the status of another stage, and no value of its own. *)
Theorem status_is_failure_or_last_reported rev pipeline w rv :
  returned (dispatch_external_command_of rev pipeline w) = Some rv ->
  rv = -1
  \/ exists st,
       reported (final_world (dispatch_external_command_of rev pipeline w))
       = Some st
       /\ rv = decode_status st.
Proof.
  destruct (dispatch_external_command_of rev pipeline w) as [a w' | | | |] eqn:E;
    try discriminate.
  intros [= ->]. cbn [final_world]. exact (returns_last_reported _ _ _ _ _ E).
Qed.

(** [slow | fast], where [slow] ends last, with 3. *)
Lemma status_is_failure_or_last_reported_witness :
  3 = -1
  \/ exists st,
       reported (final_world
                   (dispatch_external_command_of Helpers Scenarios.slow_fast
                      Scenarios.slow_ends_last)) = Some st
       /\ 3 = decode_status st.
Proof.
  apply (status_is_failure_or_last_reported Helpers Scenarios.slow_fast
           Scenarios.slow_ends_last 3).
  vm_compute. reflexivity.
Defined.

(** X2.  In every revision, the status [dispatch_external_command] hands to
    the shell lies between [-1] and [255]. *)
Theorem status_in_range rev pipeline w rv :
  returned (dispatch_external_command_of rev pipeline w) = Some rv ->
  -1 <= rv <= 255.
Proof.
  destruct (dispatch_external_command_of rev pipeline w) as [a w' | | | |] eqn:E;
    try discriminate.
  intros [= ->].
  destruct (returns_last_reported _ _ _ _ _ E) as [-> | (st & _ & ->)];
    [lia | apply decode_status_range].
Qed.

(** [slow | fast]: 3. *)
Lemma status_in_range_witness : -1 <= 3 <= 255.
Proof.
  apply (status_in_range Single Scenarios.slow_fast Scenarios.slow_ends_last 3).
  vm_compute. reflexivity.
Defined.

(** X3.  In no revision does the code of the child made for a command
    that has a first word come back to the loop of the shell, or block: the
    child becomes the program, or it exits, and then with [-1], which its
    parent reads as 255. *)
Theorem children_never_return cmd :
  argv0 cmd <> None ->
  (forall l w, ends_child (PipelineInline.child_branch cmd l w))
  /\ (forall input_fd output_fd curr_pipe w,
         ends_child (PipelineHelpers.execute_child_process cmd input_fd
                       output_fd curr_pipe w))
  /\ (forall w, ends_child (SingleCommand.child_branch cmd w)).
Proof.
  intros Hcmd. split; [| split]; intros.
  - apply inline_child_never_returns, Hcmd.
  - apply helpers_child_never_returns, Hcmd.
  - apply single_child_never_returns, Hcmd.
Qed.

(** [nosuch], a program that does not exist: the three children exit. *)
Lemma children_never_return_witness :
  ends_child (PipelineInline.child_branch (Scenarios.simple "nosuch")
                Scenarios.fresh_locals Scenarios.roomy)
  /\ ends_child (PipelineHelpers.execute_child_process
                   (Scenarios.simple "nosuch") STDIN_FILENO STDOUT_FILENO
                   (0, 0) Scenarios.roomy)
  /\ ends_child (SingleCommand.child_branch (Scenarios.simple "nosuch")
                   Scenarios.roomy).
Proof.
  destruct (children_never_return (Scenarios.simple "nosuch"))
    as (Hinline & Hhelpers & Hsingle); [discriminate |].
  split; [apply Hinline | split; [apply Hhelpers | apply Hsingle]].
Defined.

(** X4.  The revision with helper functions, on a pipeline whose stages all
    say where their output goes: when it does not fail, the shell holds no
    pipe end afterwards, given that it held none before. *)
Theorem helpers_success_leaves_no_pipe_end pipeline w rv w' :
  well_formed pipeline = true ->
  pipe_ends w = [] ->
  PipelineHelpers.dispatch_external_command pipeline w = Returns rv w' ->
  rv <> -1 ->
  pipe_ends w' = [].
Proof. apply successful_pipeline_closes_pipe_ends. Qed.

(** [slow | fast]. *)
Lemma helpers_success_leaves_no_pipe_end_witness :
  pipe_ends (final_world
               (PipelineHelpers.dispatch_external_command Scenarios.slow_fast
                  Scenarios.slow_ends_last)) = [].
Proof.
  apply (helpers_success_leaves_no_pipe_end Scenarios.slow_fast
           Scenarios.slow_ends_last 3).
  - reflexivity.
  - reflexivity.
  - vm_compute. reflexivity.
  - discriminate.
Defined.

(** X5.  The revision for single commands: when the input file cannot be
    opened, it returns [-1] after [perror], and no process is made. *)
Theorem single_unopenable_input cmd f w :
  input_filename cmd = Some f ->
  unreadable_now w f = true ->
  exists w',
    SingleCommand.dispatch_external_command cmd w = Returns (-1) w'
    /\ ends_with_perror (w_trace w') = true
    /\ forked w' = forked w.
Proof. apply single_unopenable_input_aborts. Qed.

(** [cat < nonexistent_file]. *)
Lemma single_unopenable_input_witness :
  exists w',
    SingleCommand.dispatch_external_command Scenarios.cat_missing
      Scenarios.roomy = Returns (-1) w'
    /\ ends_with_perror (w_trace w') = true
    /\ forked w' = forked Scenarios.roomy.
Proof.
  apply (single_unopenable_input Scenarios.cat_missing "nonexistent_file"
           Scenarios.roomy); reflexivity.
Defined.

(** ** The table of builtins *)

(** X7.  A builtin is looked up and run from the words of the head of the
    chain alone: what follows the head in a pipeline, and any redirection,
    play no part; two chains with the same words in their heads, the first
    of them a builtin's name, are dispatched alike. *)
Theorem builtin_ignores_pipeline table ext cmd cmd' last_rv flag w :
  argv cmd' = argv cmd ->
  Dispatcher.is_builtin table cmd = true ->
  Dispatcher.dispatch_parsed_command table ext cmd' last_rv flag w
  = Dispatcher.dispatch_parsed_command table ext cmd last_rv flag w.
Proof.
  unfold Dispatcher.dispatch_parsed_command, Dispatcher.is_builtin.
  intros E. assert (E0 : argv0 cmd' = argv0 cmd) by (unfold argv0; now rewrite E).
  induction table as [| [name run] table IH]; cbn; [discriminate |].
  rewrite E, E0. unfold bind, Dispatcher.strcmp_equal.
  destruct (argv0 cmd) as [a |] eqn:Ea; [| reflexivity].
  cbn [ret]. destruct (Dispatcher.names name (Some a)); [reflexivity | exact IH].
Qed.

(** [exit | ls] is [exit]. *)
Lemma builtin_ignores_pipeline_witness :
  Dispatcher.dispatch_parsed_command Scenarios.builtins
    (dispatch_external_command_of Helpers) exit_ls 7 false Scenarios.roomy
  = Dispatcher.dispatch_parsed_command Scenarios.builtins
      (dispatch_external_command_of Helpers) (Scenarios.simple "exit") 7 false
      Scenarios.roomy.
Proof.
  apply (builtin_ignores_pipeline Scenarios.builtins
           (dispatch_external_command_of Helpers) (Scenarios.simple "exit")
           exit_ls 7 false Scenarios.roomy); reflexivity.
Defined.

(** ** The input file in the revision with the logic inline *)

Lemma inline_stage_strip pipeline c l :
  PipelineInline.stage (strip_input pipeline) (strip_input c) l
  = PipelineInline.stage pipeline c l.
Proof. destruct pipeline, c; reflexivity. Qed.

Lemma bind_ext {A B} (m : M A) (f g : A -> M B) w :
  (forall a w', f a w' = g a w') -> bind m f w = bind m g w.
Proof. intros H. unfold bind. destruct (m w); auto. Qed.

Lemma inline_stage_loop_strip pipeline c :
  forall l w,
    PipelineInline.stage_loop (strip_input pipeline) (strip_input c) l w
    = PipelineInline.stage_loop pipeline c l w.
Proof.
  induction c as [c Hc | c next Hc IH] using command_chain_ind; intros l w;
    rewrite (inline_stage_loop_eq pipeline c),
      (inline_stage_loop_eq (strip_input pipeline) (strip_input c)),
      inline_stage_strip;
    destruct c as [a i t f p]; cbn in Hc; subst p; cbn [strip_input pipe_to];
    [reflexivity |].
  apply bind_ext. intros [rv | l'] w'; [reflexivity | apply IH].
Qed.

(** X8.  The revision with the logic inline never looks at the input file
    of a stage: a pipeline and the same pipeline with no [<] anywhere are
    run alike, step by step. *)
Theorem inline_ignores_input_file pipeline w :
  PipelineInline.dispatch_external_command pipeline w
  = PipelineInline.dispatch_external_command (strip_input pipeline) w.
Proof.
  unfold PipelineInline.dispatch_external_command.
  do 3 (apply bind_ext; intros ? ?).
  unfold bind at 1 3. rewrite inline_stage_loop_strip. reflexivity.
Qed.

(** ** Processes made and processes reaped *)

Lemma fork_forked code w pid w' :
  sys_fork code w = Returns pid w' -> forked w' = S (forked w).
Proof.
  intros E. apply (wp_returns _ _ _ _ _ (wp_fork code w _ (fun _ _ H _ => H)) E).
Qed.

(** When the reaper comes back the process has no child left; it has called
    [fork] no more and holds the descriptors it held. *)
Lemma wait_loop_returns n :
  forall s w s' w',
    wait_loop n s w = Returns s' w' ->
    w_children w' = [] /\ forked w' = forked w /\ w_fds w' = w_fds w.
Proof.
  induction n as [| n IH]; intros s w s' w'; cbn [wait_loop];
    unfold bind, sys_wait;
    destruct (next_report (w_children w)) as [c |].
  - destruct (c_status c) as [st |]; [| discriminate].
    cbn. discriminate.
  - destruct (w_children w) eqn:Ec; [| discriminate].
    cbn. intros [= <- <-]. cbn. auto.
  - destruct (c_status c) as [st |]; [| discriminate].
    cbn. intros H. apply IH in H as (H1 & H2 & H3). auto.
  - destruct (w_children w) eqn:Ec; [| discriminate].
    cbn. intros [= <- <-]. cbn. auto.
Qed.

Lemma inline_stage_forks pipeline c l w r w' :
  PipelineInline.stage pipeline c l w = Returns r w' ->
  match r with
  | inl _ => (forked w' <= S (forked w))%nat
  | inr _ => forked w' = S (forked w)
  end.
Proof.
  unfold PipelineInline.stage. intros H.
  apply bind_returns in H as (r0 & w1 & Hout & H).
  assert (E1 : forked w1 = forked w).
  { refine (stable_returns forked _ _ _ _ _ Hout).
    unfold PipelineInline.resolve_output. stable_steps. }
  destruct r0 as [rv0 | l1].
  - injection H as <- <-. lia.
  - destruct (is_file (output_type c) && (output_fd l1 =? -1)).
    + apply bind_returns in H as (? & w2 & Hp & [= <- <-]).
      assert (E2 : forked w2 = forked w1)
        by (refine (stable_returns forked _ _ _ _ _ Hp); stable_steps).
      lia.
    + apply bind_returns in H as (pid & w2 & Hf & H).
      apply fork_forked in Hf. destruct (pid >? 0).
      * apply bind_returns in H as (l2 & w3 & Hpar & [= <- <-]).
        assert (E3 : forked w3 = forked w2).
        { refine (stable_returns forked _ _ _ _ _ Hpar).
          unfold PipelineInline.parent_branch. stable_steps. }
        lia.
      * apply bind_returns in H as (? & w3 & Hp & [= <- <-]).
        assert (E3 : forked w3 = forked w2)
          by (refine (stable_returns forked _ _ _ _ _ Hp); stable_steps).
        lia.
Qed.

Lemma helpers_stage_forks c l w r w' :
  PipelineHelpers.stage c l w = Returns r w' ->
  match r with
  | inl _ => (forked w' <= S (forked w))%nat
  | inr _ => forked w' = S (forked w)
  end.
Proof.
  intros E.
  refine (wp_returns _ _ _ _
            (fun r w' => match r with
                         | inl _ => (forked w' <= S (forked w))%nat
                         | inr _ => forked w' = S (forked w)
                         end) _ E).
  apply helpers_stage_wp. intros r0 w0 _ H _.
  destruct r0; [apply H | exact H].
Qed.

Lemma stages_eq c :
  stages c = c :: match pipe_to c with
                  | Some next => stages next
                  | None => []
                  end.
Proof. destruct c; reflexivity. Qed.

Lemma inline_stage_loop_forks pipeline c :
  forall l w r w',
    PipelineInline.stage_loop pipeline c l w = Returns r w' ->
    match r with
    | inl _ => (forked w' <= forked w + List.length (stages c))%nat
    | inr _ => forked w' = (forked w + List.length (stages c))%nat
    end.
Proof.
  induction c as [c Hc | c next Hc IH] using command_chain_ind;
    intros l w r w' H; rewrite inline_stage_loop_eq, Hc in H;
    rewrite stages_eq, Hc; cbn [List.length];
    apply bind_returns in H as ([rv | l1] & w1 & Hs & H);
    apply inline_stage_forks in Hs;
    try (injection H as <- <-; lia).
  apply IH in H. destruct r; lia.
Qed.

Lemma helpers_stage_loop_forks c :
  forall l w r w',
    PipelineHelpers.stage_loop c l w = Returns r w' ->
    match r with
    | inl _ => (forked w' <= forked w + List.length (stages c))%nat
    | inr _ => forked w' = (forked w + List.length (stages c))%nat
    end.
Proof.
  induction c as [c Hc | c next Hc IH] using command_chain_ind;
    intros l w r w' H; rewrite helpers_stage_loop_eq, Hc in H;
    rewrite stages_eq, Hc; cbn [List.length];
    apply bind_returns in H as ([rv | l1] & w1 & Hs & H);
    apply helpers_stage_forks in Hs;
    try (injection H as <- <-; lia).
  apply IH in H. destruct r; lia.
Qed.

(** What a revision that runs pipelines has done when it comes back: it
    gave up in the loop, with [-1]; or it called [fork] once for each stage
    and waited until it had no child. *)
Lemma pipeline_run rev pipeline w rv w' :
  runs_pipelines rev = true ->
  dispatch_external_command_of rev pipeline w = Returns rv w' ->
  (rv = -1 /\ (forked w' <= forked w + List.length (stages pipeline))%nat)
  \/ (forked w' = (forked w + List.length (stages pipeline))%nat
      /\ w_children w' = []).
Proof.
  intros Hrev H.
  assert (Hloop : exists (r : Z + locals) w1,
             match r with
             | inl rv' => rv' = rv /\ w1 = w' /\ rv = -1
                          /\ (forked w1 <= forked w
                                           + List.length (stages pipeline))%nat
             | inr _ => forked w1
                        = (forked w + List.length (stages pipeline))%nat
                        /\ exists s s', wait_for_children s w1 = Returns s' w'
             end).
  { destruct rev; [| | discriminate Hrev];
      unfold dispatch_external_command_of in H;
      [unfold PipelineInline.dispatch_external_command in H
      | unfold PipelineHelpers.dispatch_external_command in H];
      apply bind_returns in H as (s0 & w0 & [= <- <-] & H);
      apply bind_returns in H as (c0 & w0 & [= <- <-] & H);
      apply bind_returns in H as (c1 & w0 & [= <- <-] & H);
      apply bind_returns in H as (r & w1 & Hloop & H);
      exists r, w1.
    - pose proof (inline_stage_loop_forks _ _ _ _ _ _ Hloop) as Hf.
      apply inline_stage_loop_result in Hloop. destruct r as [rv' | l'].
      + injection H as <- <-. auto.
      + apply bind_returns in H as (s' & w2 & Hwait & [= <- <-]). eauto.
    - pose proof (helpers_stage_loop_forks _ _ _ _ _ Hloop) as Hf.
      apply helpers_stage_loop_result in Hloop. destruct r as [rv' | l'].
      + injection H as <- <-. auto.
      + apply bind_returns in H as (s' & w2 & Hwait & [= <- <-]). eauto. }
  destruct Hloop as ([rv' | l'] & w1 & Hr).
  - destruct Hr as (_ & -> & -> & Hf). left. auto.
  - destruct Hr as (Hf & s & s' & Hwait). right.
    apply wait_loop_returns in Hwait as (Hc & Hf' & _).
    split; [lia | exact Hc].
Qed.

(** X9.  The revisions that run pipelines call [fork] once a stage at most,
    and exactly once for each stage when they do not return [-1]. *)
Theorem pipeline_forks_once_per_stage rev pipeline w rv w' :
  runs_pipelines rev = true ->
  dispatch_external_command_of rev pipeline w = Returns rv w' ->
  (forked w' <= forked w + List.length (stages pipeline))%nat
  /\ (rv <> -1 ->
      forked w' = (forked w + List.length (stages pipeline))%nat).
Proof.
  intros Hrev H.
  destruct (pipeline_run _ _ _ _ _ Hrev H) as [[-> Hf] | [Hf _]];
    (split; [lia | intros Hrv; try contradiction; exact Hf]).
Qed.

(** [slow | fast]: two calls. *)
Lemma pipeline_forks_once_per_stage_witness :
  forked (final_world
            (dispatch_external_command_of Inline Scenarios.slow_fast
               Scenarios.slow_ends_last)) = 2%nat.
Proof.
  apply (pipeline_forks_once_per_stage Inline Scenarios.slow_fast
           Scenarios.slow_ends_last 3).
  - reflexivity.
  - vm_compute. reflexivity.
  - discriminate.
Defined.

(** X10.  When a revision that runs pipelines returns something else than
    [-1], the shell has no child left at all: the reaper waits for every
    child of the shell, those of the pipeline and any it had before. *)
Theorem pipeline_success_leaves_no_child rev pipeline w rv w' :
  runs_pipelines rev = true ->
  dispatch_external_command_of rev pipeline w = Returns rv w' ->
  rv <> -1 ->
  w_children w' = [].
Proof.
  intros Hrev H Hrv.
  destruct (pipeline_run _ _ _ _ _ Hrev H) as [[-> _] | [_ Hc]];
    [contradiction | exact Hc].
Qed.

(** [slow | fast]. *)
Lemma pipeline_success_leaves_no_child_witness :
  w_children (final_world
                (dispatch_external_command_of Helpers Scenarios.slow_fast
                   Scenarios.slow_ends_last)) = [].
Proof.
  apply (pipeline_success_leaves_no_child Helpers Scenarios.slow_fast
           Scenarios.slow_ends_last 3 _ eq_refl).
  - vm_compute. reflexivity.
  - discriminate.
Defined.

(** ** No room for another process *)

#[export] Instance processes_framed : Framed processes.
Proof. split; reflexivity. Qed.

#[export] Instance processes_fs_blind : FsBlind processes.
Proof. intros fs w. reflexivity. Qed.

Lemma wp_of_total {A} (m : M A) w (Q : A -> world -> Prop) :
  total m -> (forall a w', m w = Returns a w' -> Q a w') -> wp m w Q.
Proof.
  intros Ht H. destruct (Ht w) as (a & w' & E & _). exists a, w'. auto.
Qed.

(** [fork] when there is no room. *)
Lemma fork_no_slot code w :
  w_procs_left w = O ->
  sys_fork code w = Returns (-1) (log (EvFork (-1)) (set_errno EAGAIN w)).
Proof. intros H. unfold sys_fork. rewrite H. reflexivity. Qed.

Lemma processes_eq w w' :
  processes w' = processes w ->
  w_procs_left w' = w_procs_left w /\ w_children w' = w_children w.
Proof. unfold processes. intros [= -> ->]. auto. Qed.

Lemma inline_stage_no_slot pipeline c l w :
  w_procs_left w = O ->
  wp (PipelineInline.stage pipeline c l) w
     (fun r w' => r = inl (-1) /\ w_children w' = w_children w).
Proof.
  intros H0. apply wp_of_total; [apply inline_stage_total |].
  intros r w' H. unfold PipelineInline.stage in H.
  apply bind_returns in H as (r0 & w1 & Hout & H).
  assert (E1 : processes w1 = processes w).
  { refine (stable_returns processes _ _ _ _ _ Hout).
    unfold PipelineInline.resolve_output. stable_steps. }
  apply processes_eq in E1 as [Ep Ec]. rewrite <- Ec.
  assert (E0 : match r0 with inl rv => rv = -1 | inr _ => True end).
  { unfold PipelineInline.resolve_output in Hout.
    destruct r0 as [rv0 | l1]; [| exact I].
    destruct (output_type c).
    - discriminate Hout.
    - apply bind_returns in Hout as (? & ? & _ & [=]).
    - apply bind_returns in Hout as (? & ? & _ & [=]).
    - apply bind_returns in Hout as ([rc arr] & ? & _ & Hout).
      destruct (rc =? -1); [| discriminate Hout].
      apply bind_returns in Hout as (? & ? & _ & [= <- _]). reflexivity. }
  destruct r0 as [rv0 | l1].
  - injection H as <- <-. subst rv0. auto.
  - destruct (is_file (output_type c) && (output_fd l1 =? -1)).
    + apply bind_returns in H as (? & w2 & Hp & [= <- <-]).
      assert (E2 : processes w2 = processes w1)
        by (refine (stable_returns processes _ _ _ _ _ Hp); stable_steps).
      apply processes_eq in E2 as [_ ->]. auto.
    + rewrite (bind_step _ _ _ _ _ (fork_no_slot _ w1 (eq_trans Ep H0))) in H.
      cbn in H. injection H as <- <-. auto.
Qed.

Lemma helpers_stage_no_slot c l w :
  w_procs_left w = O ->
  wp (PipelineHelpers.stage c l) w
     (fun r w' => r = inl (-1) /\ w_children w' = w_children w).
Proof.
  intros H0. apply wp_of_total; [apply helpers_stage_total |].
  intros r w' H. unfold PipelineHelpers.stage in H.
  apply bind_returns in H as ([rc l1] & w1 & Hio & H).
  assert (E1 : processes w1 = processes w).
  { refine (stable_returns processes _ _ _ _ _ Hio).
    unfold PipelineHelpers.setup_io. stable_steps. }
  apply processes_eq in E1 as [Ep Ec]. rewrite <- Ec.
  destruct (rc =? -1).
  - injection H as <- <-. auto.
  - rewrite (bind_step _ _ _ _ _ (fork_no_slot _ w1 (eq_trans Ep H0))) in H.
    cbn in H. injection H as <- <-. auto.
Qed.

Lemma single_no_slot pipeline w :
  w_procs_left w = O ->
  wp (SingleCommand.dispatch_external_command pipeline) w
     (fun rv w' => rv = -1 /\ w_children w' = w_children w).
Proof.
  intros H0. unfold SingleCommand.dispatch_external_command.
  apply wp_bind, wp_uninit. apply wp_bind.
  apply wp_of_total; [comes_back |]. intros r w1 H1.
  assert (E1 : processes w1 = processes w)
    by (refine (stable_returns processes _ _ _ _ _ H1); stable_steps).
  apply processes_eq in E1 as [Ep1 Ec1].
  destruct r as [rv | fd].
  - apply wp_ret. split; [| exact Ec1].
    destruct (input_filename pipeline); [| discriminate H1].
    apply bind_returns in H1 as (fd & w0 & _ & H1).
    destruct (fd =? -1); [| discriminate H1].
    apply bind_returns in H1 as (? & ? & _ & [= <- _]). reflexivity.
  - apply wp_bind. apply wp_of_total; [comes_back |]. intros r w2 H2.
    assert (E2 : processes w2 = processes w1)
      by (refine (stable_returns processes _ _ _ _ _ H2); stable_steps).
    apply processes_eq in E2 as [Ep2 Ec2].
    destruct r as [rv | ofd].
    + apply wp_ret. split; [| congruence].
      destruct (output_type pipeline); try discriminate H2;
        apply bind_returns in H2 as (fd' & w0 & _ & H2);
        (destruct (fd' =? -1); [| discriminate H2]);
        apply bind_returns in H2 as (? & ? & _ & H2);
        apply bind_returns in H2 as (? & ? & _ & [= <- _]); reflexivity.
    + exists (-1), (log (EvPerror "Failed to fork child process" EAGAIN)
                      (log (EvFork (-1)) (set_errno EAGAIN w2))).
      split; [| split; [reflexivity | cbn; congruence]].
      rewrite (bind_step _ _ _ _ _
                 (fork_no_slot _ w2 (eq_trans Ep2 (eq_trans Ep1 H0)))).
      reflexivity.
Qed.

(** X11.  When the system has no room for another process, every revision
    returns [-1] and the shell has the children it had: nothing was made,
    and nothing is waited for. *)
Theorem no_room_for_a_process rev pipeline w :
  w_procs_left w = O ->
  exists w',
    dispatch_external_command_of rev pipeline w = Returns (-1) w'
    /\ w_children w' = w_children w.
Proof.
  intros H0.
  assert (H : wp (dispatch_external_command_of rev pipeline) w
                (fun rv w' => rv = -1 /\ w_children w' = w_children w)).
  { destruct rev; unfold dispatch_external_command_of.
    - unfold PipelineInline.dispatch_external_command.
      do 3 apply wp_bind, wp_uninit. apply wp_bind.
      rewrite inline_stage_loop_eq. apply wp_bind.
      eapply wp_mono; [apply (inline_stage_no_slot _ _ _ _ H0) |].
      intros r w1 [-> Hc]. do 2 apply wp_ret. auto.
    - unfold PipelineHelpers.dispatch_external_command.
      do 3 apply wp_bind, wp_uninit. apply wp_bind.
      rewrite helpers_stage_loop_eq. apply wp_bind.
      eapply wp_mono; [apply (helpers_stage_no_slot _ _ _ H0) |].
      intros r w1 [-> Hc]. do 2 apply wp_ret. auto.
    - apply single_no_slot, H0. }
  destruct H as (rv & w' & E & -> & Hc). eauto.
Qed.

(** [a | b] in a shell that can make no process. *)
Lemma no_room_for_a_process_witness :
  exists w',
    dispatch_external_command_of Helpers Scenarios.a_b
      (Scenarios.shell_world 0 [] []) = Returns (-1) w'
    /\ w_children w' = [].
Proof.
  apply (no_room_for_a_process Helpers Scenarios.a_b
           (Scenarios.shell_world 0 [] [])).
  reflexivity.
Defined.

(** ** A command that cannot be run *)

Lemma execvp_fails cmd w :
  cannot_run w cmd ->
  exists e,
    sys_execvp (argv0 cmd) (argv cmd) w
    = Returns (-1) (log (EvExecvp (argv0 cmd) (argv cmd) (-1))
                      (set_errno e w)).
Proof.
  unfold cannot_run, sys_execvp.
  destruct (argv0 cmd) as [a |]; intros H; [| contradiction].
  apply Z.eqb_neq in H. rewrite H. eauto.
Qed.

Lemma run_child_exited pid code w c w' :
  code (child_world w) = Exits c w' ->
  c_status (run_child pid code w) = Some (exit_status c).
Proof. intros E. unfold run_child. rewrite E. reflexivity. Qed.

Lemma inline_child_exits cmd pp cp w :
  cannot_run w cmd -> output_type cmd = COMMAND_OUTPUT_STDOUT ->
  exists w',
    PipelineInline.child_branch cmd
      {| input_fd := STDIN_FILENO; output_fd := STDOUT_FILENO;
         prev_pipe := pp; curr_pipe := cp |} w
    = Exits (-1) w'.
Proof.
  intros Hx Ho. destruct (execvp_fails cmd w Hx) as (e & He).
  unfold PipelineInline.child_branch. rewrite Ho.
  cbn -[sys_execvp].
unfold bind at 1. rewrite He.
  unfold get_errno, bind. cbn.
  destruct (e =? ENOENT); cbn; eauto.
Qed.

Lemma helpers_child_exits cmd cp w :
  cannot_run w cmd -> output_type cmd = COMMAND_OUTPUT_STDOUT ->
  exists w',
    PipelineHelpers.execute_child_process cmd STDIN_FILENO STDOUT_FILENO cp w
    = Exits (-1) w'.
Proof.
  intros Hx Ho. destruct (execvp_fails cmd w Hx) as (e & He).
  unfold PipelineHelpers.execute_child_process. rewrite Ho.
  cbn -[sys_execvp]. unfold bind at 1. rewrite He. cbn. eauto.
Qed.

Lemma single_child_exits cmd w :
  cannot_run w cmd ->
  exists w', SingleCommand.child_branch cmd w = Exits (-1) w'.
Proof.
  intros Hx. destruct (execvp_fails cmd w Hx) as (e & He).
  unfold SingleCommand.child_branch. unfold bind at 1.
  rewrite He. unfold get_errno, bind. cbn.
  destruct (e =? ENOENT); cbn; eauto.
Qed.

(** X12.  A single command without redirection whose first word names a
    program that cannot be run (there is no such program, or it may not be
    executed): the child exits with [-1] and every revision returns 255. *)
Theorem command_that_cannot_run_gives_255 rev cmd w :
  single_command cmd ->
  cannot_run w cmd ->
  w_procs_left w <> O ->
  w_children w = [] ->
  returned (dispatch_external_command_of rev cmd w) = Some 255.
Proof.
  intros (Hi & Ho & Hn) Hx Hp Hcs.
  destruct (w_procs_left w) as [| n] eqn:Hn'; [contradiction |].
  destruct rev; unfold dispatch_external_command_of.
  - destruct (inline_child_exits cmd (-1, -1) (w_uninit w 1, w_uninit w 2)
                (child_world w) Hx Ho) as (cw & Hchild).
    unfold PipelineInline.dispatch_external_command.
    do 3 step_with reflexivity.
    rewrite inline_stage_loop_eq, Hn.
    step_with ltac:(step_with
                      ltac:(apply (inline_stage_plain _ _ _ _ n); auto);
                    reflexivity).
    rewrite Hcs. cbn [app].
    match goal with
    | |- returned (bind (wait_for_children ?s) _ ?w1) = _ =>
        destruct (wait_for_only_child s w1 _ (exit_status (-1)) eq_refl)
          as (w2 & Hwait)
    end.
    { apply (run_child_exited _ _ _ _ _ Hchild). }
    step_with ltac:(exact Hwait). reflexivity.
  - destruct (helpers_child_exits cmd (w_uninit w 1, w_uninit w 2)
                (child_world w) Hx Ho)
      as (cw & Hchild).
    unfold PipelineHelpers.dispatch_external_command.
    do 3 step_with reflexivity.
    rewrite helpers_stage_loop_eq, Hn.
    step_with ltac:(step_with
                      ltac:(apply (helpers_stage_plain _ _ _ n); auto);
                    reflexivity).
    rewrite Hcs. cbn [app].
    match goal with
    | |- returned (bind (wait_for_children ?s) _ ?w1) = _ =>
        destruct (wait_for_only_child s w1 _ (exit_status (-1)) eq_refl)
          as (w2 & Hwait)
    end.
    { apply (run_child_exited _ _ _ _ _ Hchild). }
    step_with ltac:(exact Hwait). reflexivity.
  - destruct (single_child_exits cmd (child_world w) Hx) as (cw & Hchild).
    unfold SingleCommand.dispatch_external_command.
    rewrite Hi, Ho.
    do 3 step_with reflexivity.
    step_with ltac:(apply fork_succeeds; exact Hn').
    cbn [Z.eqb].
    destruct (waitpid_forked (w_next_pid w) (SingleCommand.child_branch cmd) w
                (w_uninit w 0) n (exit_status (-1))) as (w2 & Hwait).
    { rewrite Hcs. reflexivity. }
    { apply (run_child_exited _ _ _ _ _ Hchild). }
    step_with ltac:(exact Hwait). reflexivity.
Qed.

(** [nosuch], a program that does not exist. *)
Lemma command_that_cannot_run_gives_255_witness :
  returned (dispatch_external_command_of Single (Scenarios.simple "nosuch")
              Scenarios.roomy) = Some 255.
Proof.
  apply (command_that_cannot_run_gives_255 Single (Scenarios.simple "nosuch")
           Scenarios.roomy).
  - repeat split.
  - cbn. discriminate.
  - discriminate.
  - reflexivity.
Defined.

(** ** The child of the revision for single commands *)

Lemma remove_child_forked pid code w cs :
  find_child (Z.pos pid) cs = None ->
  remove_child pid (cs ++ [run_child pid code w]) = cs.
Proof.
  unfold find_child, remove_child. intros H.
  induction cs as [| d cs IH]; cbn [find filter app] in *.
  - cbn [c_pid run_child]. rewrite Pos.eqb_refl. reflexivity.
  - change (Z.pos (c_pid d) =? Z.pos pid) with (c_pid d =? pid)%positive in H.
    destruct (c_pid d =? pid)%positive; [discriminate H |].
    cbn [negb]. f_equal. auto.
Qed.

#[export] Instance next_pid_framed : Framed w_next_pid.
Proof. split; reflexivity. Qed.

#[export] Instance next_pid_fs_blind : FsBlind w_next_pid.
Proof. intros fs w. reflexivity. Qed.

(** X13.  The revision for single commands waits for the child it made and
    for no other: when it comes back, the shell has the children it had
    before, whatever they are, while the revisions that run pipelines reap
    them all. *)
Theorem single_reaps_its_child_only cmd w rv w' :
  find_child (Z.pos (w_next_pid w)) (w_children w) = None ->
  SingleCommand.dispatch_external_command cmd w = Returns rv w' ->
  w_children w' = w_children w.
Proof.
  intros Hfresh H. unfold SingleCommand.dispatch_external_command in H.
  apply bind_returns in H as (s0 & w0 & [= <- <-] & H).
  apply bind_returns in H as (r1 & w1 & H1 & H).
  assert (E1 : processes w1 = processes w /\ w_next_pid w1 = w_next_pid w).
  { split; [refine (stable_returns processes _ _ _ _ _ H1)
           | refine (stable_returns w_next_pid _ _ _ _ _ H1)]; stable_steps. }
  destruct E1 as [E1 En1]. apply processes_eq in E1 as [_ Ec1].
  destruct r1 as [rv1 | fd]; [injection H as _ <-; exact Ec1 |].
  apply bind_returns in H as (r2 & w2 & H2 & H).
  assert (E2 : processes w2 = processes w1 /\ w_next_pid w2 = w_next_pid w1).
  { split; [refine (stable_returns processes _ _ _ _ _ H2)
           | refine (stable_returns w_next_pid _ _ _ _ _ H2)]; stable_steps. }
  destruct E2 as [E2 En2]. apply processes_eq in E2 as [_ Ec2].
  destruct r2 as [rv2 | ofd]; [injection H as _ <-; congruence |].
  apply bind_returns in H as (pid & w3 & Hf & H).
  unfold sys_fork in Hf. destruct (w_procs_left w2) as [| n].
  - injection Hf as <- <-. cbn [Z.eqb Pos.eqb] in H.
    apply bind_returns in H as (? & w4 & [= _ <-] & [= _ <-]). cbn. congruence.
  - injection Hf as <- <-. cbn [Z.eqb] in H.
    apply bind_returns in H as ([r st] & w4 & Hw & H).
    assert (Ec4 : w_children w4 = w_children w2).
    { unfold sys_waitpid in Hw. cbn [w_children log set_procs set_trace] in Hw.
      rewrite find_child_forked in Hw by congruence.
      destruct (c_status _); [| discriminate Hw].
      injection Hw as _ _ <-. cbn.
      apply remove_child_forked. congruence. }
    destruct (WIFEXITED st); injection H as _ <-; congruence.
Qed.

(** [false], in a shell that has a child already, with another number. *)
Lemma single_reaps_its_child_only_witness :
  w_children (final_world
                (SingleCommand.dispatch_external_command Scenarios.false_cmd
                   busy_shell))
  = w_children busy_shell.
Proof.
  apply (single_reaps_its_child_only Scenarios.false_cmd busy_shell 1).
  - reflexivity.
  - vm_compute. reflexivity.
Defined.

(** ** Output files that cannot be written *)

(** [open] for writing, with [O_CREAT], on a file that cannot be written. *)
Lemma open_unwritable path flags mode w :
  cannot_be_written w path = true ->
  Z.land flags O_ACCMODE = O_WRONLY ->
  Z.land flags O_CREAT <> 0 ->
  exists e,
    sys_open path flags mode w
    = Returns (-1) (log (EvOpen path flags (-1)) (set_errno e w)).
Proof.
  unfold cannot_be_written, sys_open, open_fails. intros Hu Hacc Hcreat.
  destruct path as [p |]; [| eauto].
  destruct (w_fs w p) as [i |].
  - unfold access_ok, wants_read, wants_write. rewrite Hacc.
    apply negb_true_iff in Hu. rewrite Hu. cbn. eauto.
  - apply Z.eqb_neq in Hcreat. rewrite Hcreat. cbn [negb].
    apply negb_true_iff in Hu. rewrite Hu. eauto.
Qed.

Lemma fd_open_remove t fd : fd_open (fd_remove t fd) fd = false.
Proof.
  unfold fd_open, fd_remove. induction t as [| e t IH]; [reflexivity |].
  cbn [filter]. destruct (fst e =? fd) eqn:E; cbn [negb existsb]; [exact IH |].
  rewrite E, IH. reflexivity.
Qed.

Lemma closed_after_close fd w r w' :
  sys_close fd w = Returns r w' -> fd_open (w_fds w') fd = false.
Proof.
  unfold sys_close. destruct (fd_open (w_fds w) fd) eqn:E;
    intros [= <- <-]; cbn; [apply fd_open_remove | exact E].
Qed.

Lemma wp_open_unwritable path flags mode w (Q : Z -> world -> Prop) :
  cannot_be_written w path = true ->
  Z.land flags O_ACCMODE = O_WRONLY ->
  Z.land flags O_CREAT <> 0 ->
  (forall w', forked w' = forked w -> w_fds w' = w_fds w ->
              processes w' = processes w -> Q (-1) w') ->
  wp (sys_open path flags mode) w Q.
Proof.
  intros Hu Hacc Hcreat H.
  destruct (open_unwritable path flags mode w Hu Hacc Hcreat) as (e & E).
  eexists _, _. split; [exact E |]. apply H; reflexivity.
Qed.

Lemma wp_close fd w (Q : Z -> world -> Prop) :
  (forall r w', fd_open (w_fds w') fd = false -> forked w' = forked w ->
                Q r w') ->
  wp (sys_close fd) w Q.
Proof.
  intros H. destruct (total_close fd w) as (r & w' & E & _).
  exists r, w'. split; [exact E |]. apply H.
  - apply (closed_after_close _ _ _ _ E).
  - apply (stable_returns forked _ _ _ _ (stable_close forked fd) E).
Qed.

(** X14.  The revision for single commands, on a command that reads no file
    and whose output file cannot be opened: it returns [-1] without calling
    [fork], and it has closed descriptor 0, the standard input of the shell
    itself, on the way. *)
Theorem single_output_failure_closes_stdin cmd w :
  input_filename cmd = None ->
  is_file (output_type cmd) = true ->
  cannot_be_written w (output_filename cmd) = true ->
  exists w',
    SingleCommand.dispatch_external_command cmd w = Returns (-1) w'
    /\ fd_open (w_fds w') STDIN_FILENO = false
    /\ forked w' = forked w.
Proof.
  intros Hi Hf Hu.
  assert (H : wp (SingleCommand.dispatch_external_command cmd) w
                (fun rv w' => rv = -1
                              /\ fd_open (w_fds w') STDIN_FILENO = false
                              /\ forked w' = forked w)).
  { unfold SingleCommand.dispatch_external_command. rewrite Hi.
    apply wp_bind, wp_uninit. apply wp_bind, wp_ret. apply wp_bind.
    destruct (output_type cmd); try discriminate Hf;
      (apply wp_bind, wp_open_unwritable;
       [exact Hu | reflexivity | discriminate |]);
      intros w1 Hf1 _ _; cbn [Z.eqb Pos.eqb];
      apply wp_bind, wp_perror; apply wp_bind, wp_close;
      intros r w2 Hc Hf2; do 2 apply wp_ret;
      (split; [reflexivity | split; [exact Hc |]]);
      rewrite Hf2; frame. }
  destruct H as (rv & w' & E & -> & H). eauto.
Qed.

(** [ls > out], where [out] may not be written. *)
Lemma single_output_failure_closes_stdin_witness :
  exists w',
    SingleCommand.dispatch_external_command ls_to_out out_read_only
    = Returns (-1) w'
    /\ fd_open (w_fds w') STDIN_FILENO = false
    /\ forked w' = forked out_read_only.
Proof.
  apply (single_output_failure_closes_stdin ls_to_out out_read_only);
    reflexivity.
Defined.

(** ** Relations that every step keeps *)

Section Keeps.

Variable R : world -> world -> Prop.
Hypothesis R_refl : forall w, R w w.
Hypothesis R_trans : forall w1 w2 w3, R w1 w2 -> R w2 w3 -> R w1 w3.

Lemma keeps_ret {A} (a : A) : keeps R (ret a).
Proof. intros w. apply R_refl. Qed.

Lemma keeps_bind {A B} (m : M A) (f : A -> M B) :
  keeps R m -> (forall a, keeps R (f a)) -> keeps R (bind m f).
Proof.
  intros Hm Hf w. specialize (Hm w). unfold bind.
  destruct (m w) as [a w1 | | | |]; cbn [final_world] in *; try exact Hm.
  apply (R_trans _ w1); [exact Hm | apply Hf].
Qed.

Lemma keeps_when b (m : M Z) : keeps R m -> keeps R (when b m).
Proof.
  intros Hm. unfold when. destruct b; [| apply keeps_ret].
  apply keeps_bind; [exact Hm | intros; apply keeps_ret].
Qed.

Lemma keeps_returns {A} (m : M A) w a w' :
  keeps R m -> m w = Returns a w' -> R w w'.
Proof. intros Hm E. specialize (Hm w). rewrite E in Hm. exact Hm. Qed.

End Keeps.

(** ** What cannot be written stays so *)

#[export] Instance creatable_framed : Framed w_creatable.
Proof. split; reflexivity. Qed.

#[export] Instance creatable_fs_blind : FsBlind w_creatable.
Proof. intros fs w. reflexivity. Qed.

#[export] Instance creatable_fork_blind : ForkBlind w_creatable.
Proof. split; reflexivity. Qed.

Lemma unwritable_kept_refl w : unwritable_kept w w.
Proof. intros f H. exact H. Qed.

Lemma unwritable_kept_trans w1 w2 w3 :
  unwritable_kept w1 w2 -> unwritable_kept w2 w3 -> unwritable_kept w1 w3.
Proof. intros H12 H23 f H. auto. Qed.

Lemma unwritable_kept_same w w' :
  w_fs w' = w_fs w -> w_creatable w' = w_creatable w -> unwritable_kept w w'.
Proof.
  intros Hfs Hc f. unfold cannot_be_written. rewrite Hfs, Hc. auto.
Qed.

Lemma unwritable_kept_stable {A} (m : M A) :
  stable w_fs m -> stable w_creatable m -> keeps unwritable_kept m.
Proof. intros Hfs Hc w. apply unwritable_kept_same; [apply Hfs | apply Hc]. Qed.

(** [open] creates a file only where one may be created. *)
Lemma unwritable_kept_open path flags mode :
  keeps unwritable_kept (sys_open path flags mode).
Proof.
  intros w. unfold sys_open, open_gives, open_fails.
  destruct path as [p |]; [| apply unwritable_kept_same; reflexivity].
  destruct (w_fs w p) as [i |] eqn:Ep.
  - destruct (access_ok i flags); [destruct (_ <? _) |];
      apply unwritable_kept_same; reflexivity.
  - destruct (negb (Z.land flags O_CREAT =? 0));
      [| apply unwritable_kept_same; reflexivity].
    destruct (w_creatable w p) eqn:Ec;
      [| apply unwritable_kept_same; reflexivity].
    assert (H : unwritable_kept w
                  (set_fs (fs_add (w_fs w) p (created mode)) w)).
    { intros [q |]; [| auto]. unfold cannot_be_written, fs_add. cbn.
      destruct (String.eqb_spec q p) as [-> | _]; [| auto].
      rewrite Ep, Ec. discriminate. }
    cbn. destruct (_ <? _); cbn;
      (eapply unwritable_kept_trans; [exact H |]);
      apply unwritable_kept_same; reflexivity.
Qed.

(** Splits a computation along its sequencing and its tests; [leaf] settles
    the library calls. *)
Ltac keeps_steps refl trans leaf :=
  repeat first
    [ apply (keeps_ret _ refl)
    | apply (keeps_when _ refl trans)
    | apply (keeps_bind _ trans); [| intros ]
    | match goal with
      | |- keeps _ (let (_, _) := ?p in _) => destruct p
      | |- keeps _ (if ?b then _ else _) => destruct b
      | |- keeps _ (match ?x with _ => _ end) => destruct x
      end
    | leaf ].

Ltac kept_steps :=
  keeps_steps unwritable_kept_refl unwritable_kept_trans
    ltac:(first [ apply unwritable_kept_open
                | solve [apply unwritable_kept_stable; stable_steps] ]).

Lemma helpers_stage_unwritable_kept c l :
  keeps unwritable_kept (PipelineHelpers.stage c l).
Proof.
  unfold PipelineHelpers.stage, PipelineHelpers.setup_io,
    PipelineHelpers.handle_parent_process.
  kept_steps.
Qed.

(** [setup_io] on a stage whose output file cannot be written: [-1], right
    after a message of [perror], whatever the input. *)
Lemma setup_io_unwritable c l w :
  is_file (output_type c) = true ->
  cannot_be_written w (output_filename c) = true ->
  wp (PipelineHelpers.setup_io c l) w
     (fun r w' => fst r = -1
                  /\ ends_with_perror (w_trace w') = true
                  /\ forked w' = forked w).
Proof.
  intros Hf Hu. unfold PipelineHelpers.setup_io. apply wp_bind.
  destruct (output_type c); try discriminate Hf;
    (apply wp_bind, wp_open_unwritable;
     [exact Hu | reflexivity | discriminate |]);
    intros w1 Hf1 _ _; apply wp_ret; cbn beta iota; apply wp_bind;
    (destruct (input_filename c) as [f |];
     [ apply wp_bind, wp_open; intros fd w2 Hf2 _ _;
       destruct (fd =? -1);
       [ apply wp_bind, wp_perror; do 2 apply wp_ret
       | apply wp_ret; cbn; apply wp_bind, wp_perror; apply wp_ret ]
     | apply wp_ret; cbn; apply wp_bind, wp_perror; apply wp_ret ]);
    cbn [fst]; (split; [reflexivity | split; [reflexivity |]]);
    frame.
Qed.

Lemma helpers_stage_unwritable c l w :
  is_file (output_type c) = true ->
  cannot_be_written w (output_filename c) = true ->
  wp (PipelineHelpers.stage c l) w
     (fun r w' => r = inl (-1)
                  /\ ends_with_perror (w_trace w') = true
                  /\ forked w' = forked w).
Proof.
  intros Hf Hu. unfold PipelineHelpers.stage. apply wp_bind.
  eapply wp_mono; [apply (setup_io_unwritable c l w Hf Hu) |].
  intros [rc l1] w1 (Hrc & Hp & Hf1). cbn [fst] in Hrc. subst rc.
  apply wp_ret. auto.
Qed.

Lemma helpers_stage_gives_up c l w rv w' :
  PipelineHelpers.stage c l w = Returns (inl rv) w' ->
  rv = -1 /\ ends_with_perror (w_trace w') = true.
Proof.
  intros E.
  refine (wp_returns _ _ _ _
            (fun r w' => match r with
                         | inl rv => rv = -1
                                     /\ ends_with_perror (w_trace w') = true
                         | inr _ => True
                         end) _ E).
  apply helpers_stage_wp. intros r0 w0 _ H _.
  destruct r0; [split; apply H | exact I].
Qed.

Lemma helpers_stage_loop_unwritable c :
  forall k cmd l w,
    nth_error (stages c) k = Some cmd ->
    is_file (output_type cmd) = true ->
    cannot_be_written w (output_filename cmd) = true ->
    wp (PipelineHelpers.stage_loop c l) w
       (fun r w' => r = inl (-1)
                    /\ ends_with_perror (w_trace w') = true
                    /\ (forked w' <= forked w + k)%nat).
Proof.
  induction c as [c Hc | c next Hc IH] using command_chain_ind;
    intros k cmd l w Hk Hf Hu;
    rewrite helpers_stage_loop_eq; apply wp_bind;
    rewrite stages_eq, Hc in Hk;
    (destruct k as [| k];
     [ injection Hk as <-;
       eapply wp_mono; [apply (helpers_stage_unwritable c l w Hf Hu) |];
       intros r w1 (-> & Hp & Hf1); apply wp_ret;
       repeat split; [exact Hp | lia]
     |]).
  - destruct k; discriminate Hk.
  - apply wp_of_total; [apply helpers_stage_total |]. intros r w1 E.
    pose proof (helpers_stage_forks _ _ _ _ _ E) as Hforks.
    pose proof (keeps_returns _ _ _ _ _ (helpers_stage_unwritable_kept c l) E)
      as Hkept.
    destruct r as [rv | l1].
    + apply helpers_stage_gives_up in E as [-> Hp]. apply wp_ret.
      repeat split; [exact Hp | lia].
    + rewrite Hc.
      eapply wp_mono; [apply (IH k cmd l1 w1 Hk Hf); apply Hkept, Hu |].
      cbn beta. intros r w2 (-> & Hp & Hf2). repeat split; [exact Hp | lia].
Qed.

(** X15.  In the revision with helper functions, when stage number [k] of a
    pipeline sends its output to a file that cannot be opened for writing
    (it may not be written, or it is missing and may not be created),
    [dispatch_external_command] returns [-1] right after a message of
    [perror], having called [fork] for the stages before [k] at most: no
    process is made for stage [k] or for the stages after it. *)
Theorem unwritable_output_aborts pipeline k cmd w :
  nth_error (stages pipeline) k = Some cmd ->
  is_file (output_type cmd) = true ->
  cannot_be_written w (output_filename cmd) = true ->
  exists w',
    PipelineHelpers.dispatch_external_command pipeline w = Returns (-1) w'
    /\ ends_with_perror (w_trace w') = true
    /\ (forked w' <= forked w + k)%nat.
Proof.
  intros Hk Hf Hu.
  assert (H : wp (PipelineHelpers.dispatch_external_command pipeline) w
                (fun rv w' => rv = -1
                              /\ ends_with_perror (w_trace w') = true
                              /\ (forked w' <= forked w + k)%nat)).
  { unfold PipelineHelpers.dispatch_external_command.
    do 3 apply wp_bind, wp_uninit. apply wp_bind.
    eapply wp_mono; [apply (helpers_stage_loop_unwritable _ k cmd); eauto |].
    cbn beta. intros r w' (-> & Hp & Hfk). apply wp_ret. auto. }
  destruct H as (rv & w' & E & -> & H). exists w'. auto.
Qed.

(** [a | b > out], where [out] may not be written: [a] runs, [b] does
    not. *)
Lemma unwritable_output_aborts_witness :
  exists w',
    PipelineHelpers.dispatch_external_command a_b_to_out out_read_only
    = Returns (-1) w'
    /\ ends_with_perror (w_trace w') = true
    /\ (forked w' <= forked out_read_only + 1)%nat.
Proof.
  apply (unwritable_output_aborts a_b_to_out 1
           (Command ["b"%string] None COMMAND_OUTPUT_FILE_TRUNCATE
              (Some "out"%string) None) out_read_only);
    reflexivity.
Defined.

(** ** The descriptors that are no pipe ends *)

Lemma NoDup_snoc {A} (l : list A) x : NoDup l -> ~ In x l -> NoDup (l ++ [x]).
Proof.
  induction l as [| a l IH]; cbn; intros Hl Hx.
  - constructor; [intros [] | constructor].
  - inversion Hl as [| ? ? Ha Hl']; subst. constructor.
    + rewrite in_app_iff. cbn. intros [H | [H | []]]; [auto | subst; auto].
    + apply IH; auto.
Qed.

Lemma NoDup_map_filter {A B} (f : A -> B) (p : A -> bool) l :
  NoDup (map f l) -> NoDup (map f (filter p l)).
Proof.
  induction l as [| a l IH]; cbn; intros H; [constructor |].
  inversion H as [| ? ? Ha Hl]; subst.
  destruct (p a); cbn; [constructor |]; auto.
  intros Hin. apply Ha. apply in_map_iff in Hin as (b & Eb & Hb).
  apply in_map_iff. exists b. split; [exact Eb |].
  apply filter_In in Hb. tauto.
Qed.

Lemma NoDup_map_fst_eq {A B} (l : list (A * B)) e e' :
  NoDup (map fst l) -> In e l -> In e' l -> fst e = fst e' -> e = e'.
Proof.
  induction l as [| a l IH]; cbn; intros H He He' E; [contradiction |].
  inversion H as [| ? ? Ha Hl]; subst.
  destruct He as [-> | He], He' as [-> | He']; auto.
  - exfalso. apply Ha. rewrite E. apply in_map, He'.
  - exfalso. apply Ha. rewrite <- E. apply in_map, He.
Qed.

Lemma fds_kept_refl w : fds_kept w w.
Proof. split; [apply incl_refl | auto]. Qed.

Lemma fds_kept_trans w1 w2 w3 :
  fds_kept w1 w2 -> fds_kept w2 w3 -> fds_kept w1 w3.
Proof.
  intros [Hi Hd] [Hi' Hd']. split; [eapply incl_tran; eassumption | auto].
Qed.

Lemma fds_kept_same w w' : w_fds w' = w_fds w -> fds_kept w w'.
Proof.
  intros E. unfold fds_kept, other_fds, distinct_fds. rewrite E.
  split; [apply incl_refl | auto].
Qed.

(** A descriptor more, on a number that was not in use. *)
Lemma fds_kept_more w w' e :
  w_fds w' = w_fds w ++ [e] -> fd_open (w_fds w) (fst e) = false ->
  fds_kept w w'.
Proof.
  intros E Hfree. unfold fds_kept, other_fds, distinct_fds. rewrite E. split.
  - rewrite filter_app. apply incl_appl, incl_refl.
  - intros Hd. rewrite map_app. apply NoDup_snoc; [exact Hd |].
    intros Hin. apply in_map_iff in Hin as (e0 & E0 & Hin).
    apply (fd_open_false _ _ Hfree e0 Hin E0).
Qed.

Lemma fds_kept_open path flags mode : keeps fds_kept (sys_open path flags mode).
Proof.
  intros w. unfold sys_open, open_gives, open_fails.
  assert (Hgives : forall w0, w_fds w0 = w_fds w ->
            fds_kept w
              (final_world
                 (match path with
                  | Some p => open_gives p flags w0
                  | None => Returns 0 w0
                  end))).
  { intros w0 E0. destruct path as [p |];
      [| apply fds_kept_same; exact E0].
    unfold open_gives, open_fails. destruct (_ <? _); cbn.
    - apply (fds_kept_more _ _ (lowest_free (w_fds w0), File p flags));
        cbn; rewrite E0; [reflexivity | apply lowest_free_spec].
    - apply fds_kept_same; exact E0. }
  destruct path as [p |]; [| apply fds_kept_same; reflexivity].
  destruct (w_fs w p) as [i |].
  - destruct (access_ok i flags);
      [apply (Hgives w eq_refl) | apply fds_kept_same; reflexivity].
  - destruct (negb _); [| apply fds_kept_same; reflexivity].
    destruct (w_creatable w p); [| apply fds_kept_same; reflexivity].
    apply (Hgives (set_fs _ w) eq_refl).
Qed.

Lemma fds_kept_pipe arr : keeps fds_kept (sys_pipe arr).
Proof.
  intros w. unfold sys_pipe. destruct (_ <? _); cbn;
    [| apply fds_kept_same; reflexivity].
  set (rd := lowest_free (w_fds w)).
  set (wr := lowest_free (w_fds w ++ [(rd, PipeRd (w_next_pipe w))])).
  apply (fds_kept_trans _
           (set_fds (w_fds w ++ [(rd, PipeRd (w_next_pipe w))]) w)).
  - apply (fds_kept_more _ _ (rd, PipeRd (w_next_pipe w)));
      [reflexivity | apply lowest_free_spec].
  - apply (fds_kept_more _ _ (wr, PipeWr (w_next_pipe w))); cbn.
    + rewrite <- app_assoc. reflexivity.
    + apply lowest_free_spec.
Qed.

Lemma fds_kept_perror msg : keeps fds_kept (perror msg).
Proof. intros w. apply fds_kept_same. reflexivity. Qed.

Lemma fork_fds code w pid w' :
  sys_fork code w = Returns pid w' -> w_fds w' = w_fds w.
Proof.
  unfold sys_fork. destruct (w_procs_left w); intros [= <- <-]; reflexivity.
Qed.

Lemma setup_io_fds_kept c l : keeps fds_kept (PipelineHelpers.setup_io c l).
Proof.
  unfold PipelineHelpers.setup_io.
  keeps_steps fds_kept_refl fds_kept_trans
    ltac:(first [ apply fds_kept_open | apply fds_kept_pipe
                | apply fds_kept_perror ]).
Qed.

Lemma others_remove (t : fdtable) fd :
  filter (fun e => negb (is_pipe_end (snd e))) (fd_remove t fd)
  = fd_remove (filter (fun e => negb (is_pipe_end (snd e))) t) fd.
Proof.
  unfold fd_remove. induction t as [| e t IH]; [reflexivity |].
  cbn [filter].
  destruct (negb (fst e =? fd)) eqn:E1;
    destruct (negb (is_pipe_end (snd e))) eqn:E2;
    cbn [filter]; rewrite ?E1, ?E2, IH; reflexivity.
Qed.

(** What [close] does to them. *)
Lemma close_others fd w r w' :
  sys_close fd w = Returns r w' ->
  other_fds w' = fd_remove (other_fds w) fd
  /\ (distinct_fds w -> distinct_fds w').
Proof.
  unfold sys_close, other_fds, distinct_fds.
  destruct (fd_open (w_fds w) fd) eqn:E; intros [= <- <-]; cbn.
  - split; [apply others_remove | apply NoDup_map_filter].
  - split; [| auto]. symmetry. apply fd_remove_absent. intros e He.
    apply (fd_open_false _ _ E). apply filter_In in He. tauto.
Qed.

(** A number that carries a pipe end carries nothing else. *)
Lemma others_miss_pipe_end w k o :
  distinct_fds w -> In (k, o) (pipe_ends w) ->
  fd_remove (other_fds w) k = other_fds w.
Proof.
  intros Hd Hk. apply fd_remove_absent. intros e He Ek.
  unfold pipe_ends, open_pipe_ends, other_fds in *.
  apply filter_In in Hk as [Hk Hp], He as [He Hn].
  assert (E : e = (k, o)) by (apply (NoDup_map_fst_eq _ _ _ Hd He Hk Ek)).
  subst e. cbn in Hn, Hp. rewrite Hp in Hn. discriminate Hn.
Qed.

Lemma handle_parent_process_others c l w l' w' :
  PipelineHelpers.handle_parent_process c l w = Returns l' w' ->
  other_fds w'
  = (if negb (fst (prev_pipe l) =? -1)
     then fun t => fd_remove t (fst (prev_pipe l))
     else fun t => t)
      ((if is_pipe (output_type c)
        then fun t => fd_remove t (snd (curr_pipe l))
        else fun t => t) (other_fds w))
  /\ (distinct_fds w -> distinct_fds w').
Proof.
  unfold PipelineHelpers.handle_parent_process, when. intros H.
  apply bind_returns in H as ([] & w1 & H1 & H).
  apply bind_returns in H as ([] & w2 & H2 & [= <- <-]).
  assert (E1 : other_fds w1
               = (if is_pipe (output_type c)
                  then fun t => fd_remove t (snd (curr_pipe l))
                  else fun t => t) (other_fds w)
               /\ (distinct_fds w -> distinct_fds w1)).
  { destruct (is_pipe (output_type c)).
    - apply bind_returns in H1 as (r & w3 & Hc & [= <-]).
      apply (close_others _ _ _ _ Hc).
    - injection H1 as <-. auto. }
  destruct E1 as [E1 Hd1]. rewrite <- E1. destruct (negb _).
  - apply bind_returns in H2 as (r & w3 & Hc & [= <-]).
    apply close_others in Hc as [Hc Hd2]. auto.
  - injection H2 as <-. auto.
Qed.

(** One turn of the loop that goes on: [setup_io] succeeded, and what the
    parent closes afterwards are pipe ends. *)
Lemma helpers_stage_after_setup c l w l' w' :
  PipelineHelpers.stage c l w = Returns (inr l') w' ->
  keeps_prev_end l w ->
  distinct_fds w ->
  exists rc l1 w1,
    PipelineHelpers.setup_io c l w = Returns (rc, l1) w1
    /\ (rc =? -1) = false
    /\ other_fds w' = other_fds w1
    /\ distinct_fds w'.
Proof.
  unfold PipelineHelpers.stage. intros H Hinv Hd.
  apply bind_returns in H as ([rc l1] & w1 & Hsetup & H).
  exists rc, l1, w1. split; [exact Hsetup |].
  destruct (keeps_returns _ _ _ _ _ (setup_io_fds_kept c l) Hsetup)
    as [_ Hd1].
  specialize (Hd1 Hd).
  destruct (rc =? -1) eqn:Hrc; [discriminate H |]. split; [reflexivity |].
  apply bind_returns in H as (pid & w2 & Hfork & H).
  apply fork_fds in Hfork.
  assert (Eo : other_fds w2 = other_fds w1)
    by (unfold other_fds; rewrite Hfork; reflexivity).
  assert (Ep : pipe_ends w2 = pipe_ends w1)
    by (unfold pipe_ends; rewrite Hfork; reflexivity).
  assert (Hd2 : distinct_fds w2)
    by (unfold distinct_fds; rewrite Hfork; exact Hd1).
  destruct (pid >? 0); [| apply bind_returns in H as (? & ? & _ & [=])].
  apply bind_returns in H as (l2 & w3 & Hpar & [= _ <-]).
  apply setup_io_ends in Hsetup as [Hprev Hends]; [| exact Hrc].
  apply handle_parent_process_others in Hpar as [Ho3 Hd3].
  split; [| auto].
  assert (Hprev_in : fst (prev_pipe l) <> -1 ->
            exists o, In (fst (prev_pipe l), o) (pipe_ends w2)).
  { intros Hne. destruct Hinv as [[Hz _] | (_ & id0 & E)];
      [contradiction |].
    exists (PipeRd id0). rewrite Ep.
    destruct (is_pipe (output_type c)).
    - destruct Hends as (id & -> & _). rewrite E.
      apply in_or_app. left. left. reflexivity.
    - rewrite Hends, E. left. reflexivity. }
  assert (E1 : (if is_pipe (output_type c)
                then fun t => fd_remove t (snd (curr_pipe l1))
                else fun t => t) (other_fds w2) = other_fds w2).
  { destruct (is_pipe (output_type c)); [| reflexivity].
    destruct Hends as (id & Hends & _).
    apply (others_miss_pipe_end _ _ (PipeWr id) Hd2).
    rewrite Ep, Hends. apply in_or_app. right. right. left. reflexivity. }
  rewrite E1, Hprev in Ho3.
  destruct (Z.eqb_spec (fst (prev_pipe l)) (-1)) as [Hz | Hne];
    cbn [negb] in Ho3.
  - rewrite Ho3, Eo. reflexivity.
  - destruct (Hprev_in Hne) as (o & Hin).
    rewrite (others_miss_pipe_end _ _ o Hd2 Hin) in Ho3.
    rewrite Ho3, Eo. reflexivity.
Qed.

(** One turn of the loop closes pipe ends only: what else the shell holds,
    it holds afterwards, however the turn ends. *)
Lemma helpers_stage_others c l w r w' :
  PipelineHelpers.stage c l w = Returns r w' ->
  keeps_prev_end l w ->
  distinct_fds w ->
  incl (other_fds w) (other_fds w') /\ distinct_fds w'.
Proof.
  intros H Hinv Hd. destruct r as [rv | l'].
  - unfold PipelineHelpers.stage in H.
    apply bind_returns in H as ([rc l1] & w1 & Hsetup & H).
    destruct (keeps_returns _ _ _ _ _ (setup_io_fds_kept c l) Hsetup)
      as [Hincl1 Hd1].
    specialize (Hd1 Hd).
    destruct (rc =? -1); [injection H as _ <-; auto |].
    apply bind_returns in H as (pid & w2 & Hfork & H).
    apply fork_fds in Hfork.
    destruct (pid >? 0); [apply bind_returns in H as (? & ? & _ & [=]) |].
    apply bind_returns in H as (? & w3 & [= _ <-] & [= _ <-]).
    unfold other_fds, distinct_fds in *. cbn. rewrite Hfork. auto.
  - destruct (helpers_stage_after_setup _ _ _ _ _ H Hinv Hd)
      as (rc & l1 & w1 & Hsetup & _ & Eo & Hd').
    split; [| exact Hd']. rewrite Eo.
    apply (keeps_returns _ _ _ _ _ (setup_io_fds_kept c l) Hsetup).
Qed.

Lemma helpers_stage_loop_others c :
  forall l w r w',
    well_formed c = true ->
    keeps_prev_end l w ->
    distinct_fds w ->
    PipelineHelpers.stage_loop c l w = Returns r w' ->
    incl (other_fds w) (other_fds w').
Proof.
  induction c as [c Hc | c next Hc IH] using command_chain_ind;
    intros l w r w' Hwf Hinv Hd H;
    rewrite well_formed_eq, Hc in Hwf;
    rewrite helpers_stage_loop_eq, Hc in H;
    apply bind_returns in H as ([rv | l1] & w1 & Hs & H);
    destruct (helpers_stage_others _ _ _ _ _ Hs Hinv Hd) as [Hincl Hd1];
    try (injection H as _ <-; exact Hincl).
  apply andb_prop in Hwf as [Hp Hwf].
  apply helpers_stage_ends in Hs; [| exact Hinv]. rewrite Hp in Hs.
  destruct Hs as [Hinv' _].
  eapply incl_tran; [exact Hincl |]. eapply IH; eassumption.
Qed.

Lemma no_pipe_end_others w : pipe_ends w = [] -> other_fds w = w_fds w.
Proof.
  unfold pipe_ends, open_pipe_ends, other_fds.
  induction (w_fds w) as [| e t IH]; [reflexivity |]. cbn [filter].
  destruct (is_pipe_end (snd e)); [discriminate |].
  intros H. cbn [negb]. f_equal. auto.
Qed.

(** X16.  The revision with helper functions, on a pipeline whose stages
    all say where their output goes, closes pipe ends and nothing else:
    every descriptor the shell held before, it holds when
    [dispatch_external_command] comes back, whatever the result. *)
Theorem helpers_closes_pipe_ends_only pipeline w rv w' :
  well_formed pipeline = true ->
  pipe_ends w = [] ->
  distinct_fds w ->
  PipelineHelpers.dispatch_external_command pipeline w = Returns rv w' ->
  incl (w_fds w) (w_fds w').
Proof.
  intros Hwf Hw Hd H. unfold PipelineHelpers.dispatch_external_command in H.
  apply bind_returns in H as (s0 & w0 & [= <- <-] & H).
  apply bind_returns in H as (c0 & w0 & [= <- <-] & H).
  apply bind_returns in H as (c1 & w0 & [= <- <-] & H).
  apply bind_returns in H as (r & w1 & Hloop & H).
  apply helpers_stage_loop_others in Hloop;
    [| exact Hwf | left; split; [reflexivity | exact Hw] | exact Hd].
  rewrite (no_pipe_end_others w Hw) in Hloop.
  assert (E : w_fds w' = w_fds w1).
  { destruct r as [rv' | l']; [injection H as _ <-; reflexivity |].
    apply bind_returns in H as (s' & w2 & Hwait & [= _ <-]).
    apply wait_loop_returns in Hwait. apply Hwait. }
  rewrite E. intros e He. apply Hloop in He.
  unfold other_fds in He. apply filter_In in He. tauto.
Qed.

(** [slow | fast]: the terminal is still on the three descriptors. *)
Lemma helpers_closes_pipe_ends_only_witness :
  incl (w_fds Scenarios.slow_ends_last)
    (w_fds (final_world
              (PipelineHelpers.dispatch_external_command Scenarios.slow_fast
                 Scenarios.slow_ends_last))).
Proof.
  apply (helpers_closes_pipe_ends_only Scenarios.slow_fast
           Scenarios.slow_ends_last 3).
  - reflexivity.
  - reflexivity.
  - unfold distinct_fds. cbn.
    repeat constructor; cbn; intuition discriminate.
  - vm_compute. reflexivity.
Defined.

(** ** The files opened for redirection *)

Lemma open_holds p flags mode w fd w' :
  sys_open (Some p) flags mode w = Returns fd w' ->
  fd <> -1 ->
  In (fd, File p flags) (other_fds w').
Proof.
  unfold sys_open, open_gives, open_fails, other_fds. intros H Hfd.
  assert (Hin : forall t, In (fd, File p flags)
                  (filter (fun e => negb (is_pipe_end (snd e)))
                     (t ++ [(fd, File p flags)]))).
  { intros t. apply filter_In. split; [| reflexivity].
    apply in_or_app. right. left. reflexivity. }
  destruct (w_fs w p).
  - destruct (access_ok _ _); [destruct (_ <? _) |];
      injection H as <- <-; try contradiction. apply Hin.
  - destruct (negb _); [destruct (w_creatable w p) |];
      try (injection H as <- <-; contradiction).
    cbn in H. destruct (_ <? _); injection H as <- <-; try contradiction.
    apply Hin.
Qed.

(** When [setup_io] succeeds, the shell holds a descriptor on each file
    the stage names. *)
Lemma setup_io_holds c l w rc l1 w1 p :
  PipelineHelpers.setup_io c l w = Returns (rc, l1) w1 ->
  (rc =? -1) = false ->
  names_file c p ->
  exists fd flags, In (fd, File p flags) (other_fds w1).
Proof.
  unfold PipelineHelpers.setup_io. intros H Hrc Hn.
  apply bind_returns in H as (r0 & w0 & Hout & H).
  destruct r0 as [e0 | l0].
  { injection H as -> _. exfalso.
    destruct (output_type c).
    - discriminate Hout.
    - apply bind_returns in Hout as (? & ? & _ & [=]).
    - apply bind_returns in Hout as (? & ? & _ & [=]).
    - apply bind_returns in Hout as ([rc0 arr] & ? & _ & Hout).
      destruct (rc0 =? -1); [| discriminate Hout].
      apply bind_returns in Hout as (? & ? & _ & [= <- _]).
      discriminate Hrc. }
  apply bind_returns in H as (r1 & w3 & Hin & H).
  assert (Hk1 : fds_kept w0 w3).
  { refine (keeps_returns _ _ _ _ _ _ Hin).
    keeps_steps fds_kept_refl fds_kept_trans
      ltac:(first [ apply fds_kept_open | apply fds_kept_perror ]). }
  destruct r1 as [e1 | l2].
  { injection H as -> _. exfalso.
    destruct (input_filename c); [| discriminate Hin].
    apply bind_returns in Hin as (fd & ? & _ & Hin).
    destruct (fd =? -1); [| discriminate Hin].
    apply bind_returns in Hin as (? & ? & _ & [= <- _]).
    discriminate Hrc. }
  destruct ((output_fd l2 =? -1) && is_file (output_type c)) eqn:Echk.
  { apply bind_returns in H as (? & ? & _ & [= <- _ _]). discriminate Hrc. }
  injection H as _ _ <-.
  destruct Hn as [Hn | [Hf Hn]].
  - rewrite Hn in Hin.
    apply bind_returns in Hin as (fd & w4 & Hopen & Hin).
    destruct (fd =? -1) eqn:Efd;
      [apply bind_returns in Hin as (? & ? & _ & [=]) |].
    injection Hin as _ <-. exists fd, O_RDONLY.
    apply (open_holds _ _ _ _ _ _ Hopen). apply Z.eqb_neq, Efd.
  - rewrite Hf, andb_true_r in Echk.
    assert (Eout : output_fd l2 = output_fd l0).
    { destruct (input_filename c).
      - apply bind_returns in Hin as (fd & w4 & _ & Hin).
        destruct (fd =? -1);
          [apply bind_returns in Hin as (? & ? & _ & [=]) |].
        injection Hin as <- _. reflexivity.
      - injection Hin as <- _. reflexivity. }
    rewrite Eout in Echk. apply Z.eqb_neq in Echk.
    rewrite Hn in Hout.
    destruct (output_type c); try discriminate Hf;
      apply bind_returns in Hout as (fd & w2 & Hopen & [= <- <-]);
      cbn [output_fd] in Echk;
      eexists fd, _; apply Hk1; apply (open_holds _ _ _ _ _ _ Hopen Echk).
Qed.

Lemma helpers_stage_loop_holds c :
  forall l w l' w' cmd p,
    well_formed c = true ->
    keeps_prev_end l w ->
    distinct_fds w ->
    PipelineHelpers.stage_loop c l w = Returns (inr l') w' ->
    In cmd (stages c) ->
    names_file cmd p ->
    exists fd flags, In (fd, File p flags) (other_fds w').
Proof.
  induction c as [c Hc | c next Hc IH] using command_chain_ind;
    intros l w l' w' cmd p Hwf Hinv Hd H Hcmd Hn;
    rewrite well_formed_eq, Hc in Hwf;
    rewrite helpers_stage_loop_eq, Hc in H;
    rewrite stages_eq, Hc in Hcmd;
    apply bind_returns in H as ([rv | l1] & w1 & Hs & H);
    try discriminate H;
    destruct (helpers_stage_after_setup _ _ _ _ _ Hs Hinv Hd)
      as (rc & l0 & w0 & Hsetup & Hrc & Eo & Hd1).
  - injection H as _ <-. destruct Hcmd as [<- | []].
    rewrite Eo. apply (setup_io_holds _ _ _ _ _ _ _ Hsetup Hrc Hn).
  - apply andb_prop in Hwf as [Hp Hwf].
    apply helpers_stage_ends in Hs; [| exact Hinv]. rewrite Hp in Hs.
    destruct Hs as [Hinv' _].
    destruct Hcmd as [<- | Hcmd].
    + destruct (setup_io_holds _ _ _ _ _ _ _ Hsetup Hrc Hn)
        as (fd & flags & Hin).
      exists fd, flags. rewrite <- Eo in Hin.
      apply (helpers_stage_loop_others next l1 w1 _ w' Hwf Hinv' Hd1 H).
      exact Hin.
    + apply (IH l1 w1 l' w' cmd p); assumption.
Qed.

(** X17.  The revision with helper functions never closes the files it
    opens for redirection: when it has run a pipeline whose stages all say
    where their output goes and returns something else than [-1], the shell
    still holds a descriptor on every file a stage reads from or writes
    to. *)
Theorem helpers_leaves_files_open pipeline cmd p w rv w' :
  well_formed pipeline = true ->
  pipe_ends w = [] ->
  distinct_fds w ->
  In cmd (stages pipeline) ->
  names_file cmd p ->
  PipelineHelpers.dispatch_external_command pipeline w = Returns rv w' ->
  rv <> -1 ->
  holds_file w' p.
Proof.
  intros Hwf Hw Hd Hcmd Hn H Hrv.
  unfold PipelineHelpers.dispatch_external_command in H.
  apply bind_returns in H as (s0 & w0 & [= <- <-] & H).
  apply bind_returns in H as (c0 & w0 & [= <- <-] & H).
  apply bind_returns in H as (c1 & w0 & [= <- <-] & H).
  apply bind_returns in H as ([rv' | l'] & w1 & Hloop & H).
  - injection H as <- <-. apply helpers_stage_loop_result in Hloop.
    contradiction.
  - apply bind_returns in H as (s' & w2 & Hwait & [= _ <-]).
    apply wait_loop_returns in Hwait as (_ & _ & Efds).
    assert (Hinv : keeps_prev_end
                     {| input_fd := STDIN_FILENO; output_fd := STDOUT_FILENO;
                        prev_pipe := (-1, -1);
                        curr_pipe := (w_uninit w 1, w_uninit w 2) |} w)
      by (left; split; [reflexivity | exact Hw]).
    destruct (helpers_stage_loop_holds _ _ _ _ _ cmd p Hwf Hinv Hd Hloop
                Hcmd Hn)
      as (fd & flags & Hin).
    exists fd, flags. rewrite Efds.
    unfold other_fds in Hin. apply filter_In in Hin. tauto.
Qed.

(** [a | b > out]: [out] is still open in the shell afterwards. *)
Lemma helpers_leaves_files_open_witness :
  holds_file (final_world
                (PipelineHelpers.dispatch_external_command a_b_to_out
                   Scenarios.roomy)) "out".
Proof.
  apply (helpers_leaves_files_open a_b_to_out
           (Command ["b"%string] None COMMAND_OUTPUT_FILE_TRUNCATE
              (Some "out"%string) None) "out" Scenarios.roomy 0).
  - reflexivity.
  - reflexivity.
  - unfold distinct_fds. cbn.
    repeat constructor; cbn; intuition discriminate.
  - right. left. reflexivity.
  - right. split; reflexivity.
  - vm_compute. reflexivity.
  - discriminate.
Defined.

(** ** How a child is wired up *)

Lemma fd_lookup_remove t a k :
  fd_lookup (fd_remove t a) k = if k =? a then None else fd_lookup t k.
Proof.
  unfold fd_lookup, fd_remove. induction t as [| e t IH]; cbn [filter find].
  - destruct (k =? a); reflexivity.
  - destruct (Z.eqb_spec (fst e) a) as [Ea | Ea]; cbn [negb find].
    + rewrite IH. destruct (Z.eqb_spec k a) as [Ek | Ek]; [reflexivity |].
      destruct (Z.eqb_spec (fst e) k); [congruence | reflexivity].
    + destruct (Z.eqb_spec (fst e) k) as [Ek | Ek]; [| exact IH].
      destruct (Z.eqb_spec k a); [congruence | reflexivity].
Qed.

Lemma fd_lookup_app t t' k :
  fd_lookup (t ++ t') k
  = match fd_lookup t k with Some o => Some o | None => fd_lookup t' k end.
Proof.
  unfold fd_lookup. induction t as [| e t IH]; cbn [app find]; [reflexivity |].
  destruct (fst e =? k); [reflexivity | exact IH].
Qed.

Lemma fd_lookup_set t a o k :
  fd_lookup (fd_set t a o) k = if k =? a then Some o else fd_lookup t k.
Proof.
  unfold fd_set. rewrite fd_lookup_app, fd_lookup_remove.
  destruct (Z.eqb_spec k a) as [-> | E].
  - unfold fd_lookup. cbn. rewrite Z.eqb_refl. reflexivity.
  - destruct (fd_lookup t k); [reflexivity |].
    unfold fd_lookup. cbn. destruct (Z.eqb_spec a k); [congruence | reflexivity].
Qed.

Lemma fd_open_lookup t k :
  fd_open t k = match fd_lookup t k with Some _ => true | None => false end.
Proof.
  unfold fd_open, fd_lookup. induction t as [| e t IH]; cbn; [reflexivity |].
  destruct (fst e =? k); [reflexivity | exact IH].
Qed.

(** [close]: the number is free afterwards, the others are as they were. *)
Lemma close_lookup fd w :
  exists r w',
    sys_close fd w = Returns r w'
    /\ w_fd_limit w' = w_fd_limit w
    /\ forall k, fd_lookup (w_fds w') k
                 = if k =? fd then None else fd_lookup (w_fds w) k.
Proof.
  unfold sys_close. destruct (fd_open (w_fds w) fd) eqn:E;
    eexists _, _; (split; [reflexivity |]); (split; [reflexivity |]);
    intros k; cbn.
  - apply fd_lookup_remove.
  - destruct (Z.eqb_spec k fd) as [-> | _]; [| reflexivity].
    rewrite fd_open_lookup in E. destruct (fd_lookup (w_fds w) fd);
      [discriminate E | reflexivity].
Qed.

(** [dup2] from an open descriptor onto a number within the limit. *)
Lemma dup2_lookup a b o w :
  fd_lookup (w_fds w) a = Some o -> 0 <= b < w_fd_limit w ->
  exists w',
    sys_dup2 a b w = Returns b w'
    /\ w_fd_limit w' = w_fd_limit w
    /\ forall k, fd_lookup (w_fds w') k
                 = if k =? b then Some o else fd_lookup (w_fds w) k.
Proof.
  intros Ha Hb. unfold sys_dup2. rewrite Ha.
  replace ((0 <=? b) && (b <? w_fd_limit w)) with true
    by (symmetry; apply andb_true_iff; split;
        [apply Z.leb_le | apply Z.ltb_lt]; lia).
  eexists. split; [reflexivity |]. split; [reflexivity |].
  intros k. cbn. apply fd_lookup_set.
Qed.

(** [if (fd != target) { dup2 (fd, target); close (fd); }] *)
Lemma redirect_lookup fd target o w :
  fd_lookup (w_fds w) fd = Some o -> 0 <= target < w_fd_limit w ->
  exists w',
    when (negb (fd =? target)) (sys_dup2 fd target ;; sys_close fd) w
    = Returns tt w'
    /\ w_fd_limit w' = w_fd_limit w
    /\ forall k, fd_lookup (w_fds w') k
                 = if k =? target then Some o
                   else if k =? fd then None
                   else fd_lookup (w_fds w) k.
Proof.
  intros Hfd Ht. unfold when.
  destruct (Z.eqb_spec fd target) as [-> | Hne]; cbn [negb].
  - exists w. split; [reflexivity |]. split; [reflexivity |].
    intros k. destruct (Z.eqb_spec k target) as [-> | _];
      [exact Hfd | reflexivity].
  - destruct (dup2_lookup fd target o w Hfd Ht) as (w1 & E1 & Hl1 & H1).
    destruct (close_lookup fd w1) as (r & w2 & E2 & Hl2 & H2).
    exists w2. split; [| split; [congruence |]].
    + rewrite (bind_step _ _ w r w2); [reflexivity |].
      rewrite (bind_step _ _ _ _ _ E1). exact E2.
    + intros k. rewrite H2, H1.
      destruct (Z.eqb_spec k fd) as [-> | _]; [| reflexivity].
      destruct (Z.eqb_spec fd target); [contradiction | reflexivity].
Qed.

Lemma final_world_bind {A B} (m : M A) (f : A -> M B) w a w1 :
  m w = Returns a w1 -> final_world (bind m f w) = final_world (f a w1).
Proof. intros E. rewrite (bind_step _ _ _ _ _ E). reflexivity. Qed.

Lemma helpers_child_tail_fds file args w :
  w_fds (final_world
           ((sys_execvp file args ;; perror "execvp failed" ;;
             @sys_exit unit (-1)) w))
  = w_fds w.
Proof.
  unfold bind, sys_execvp. destruct file as [f |]; [| reflexivity].
  destruct (w_exec_errno w f =? 0); reflexivity.
Qed.

(** X18.  The child of the revision with helper functions is wired up as
    asked: given two distinct open descriptors [input_fd] and [output_fd],
    when its own code ends (the program starts, or [execvp] fails) its
    standard input is what [input_fd] was open on and its standard output
    what [output_fd] was open on; every descriptor besides these four is
    as it was, the read end of the stage's own pipe included. *)
Theorem helpers_child_wiring cmd input_fd output_fd curr_pipe w i o :
  fd_lookup (w_fds w) input_fd = Some i ->
  fd_lookup (w_fds w) output_fd = Some o ->
  output_fd <> STDIN_FILENO ->
  input_fd <> output_fd ->
  1 < w_fd_limit w ->
  (is_pipe (output_type cmd) = true ->
   snd curr_pipe = output_fd /\ output_fd <> STDOUT_FILENO) ->
  let fds' := w_fds (final_world
                       (PipelineHelpers.execute_child_process cmd input_fd
                          output_fd curr_pipe w)) in
  fd_lookup fds' STDIN_FILENO = Some i
  /\ fd_lookup fds' STDOUT_FILENO = Some o
  /\ forall k, k <> STDIN_FILENO -> k <> STDOUT_FILENO ->
               k <> input_fd -> k <> output_fd ->
               fd_lookup fds' k = fd_lookup (w_fds w) k.
Proof.
  intros Hi Ho Ho0 Hio Hlim Hpipe. unfold STDIN_FILENO, STDOUT_FILENO in *.
  destruct (redirect_lookup input_fd 0 i w Hi ltac:(lia))
    as (w1 & E1 & L1 & H1).
  assert (Ho1 : fd_lookup (w_fds w1) output_fd = Some o).
  { rewrite H1.
    destruct (Z.eqb_spec output_fd 0); [contradiction |].
    destruct (Z.eqb_spec output_fd input_fd); [congruence | exact Ho]. }
  destruct (redirect_lookup output_fd 1 o w1 Ho1 ltac:(lia))
    as (w2 & E2 & L2 & H2).
  assert (H3 : exists w3,
             when (is_pipe (output_type cmd)) (sys_close (snd curr_pipe)) w2
             = Returns tt w3
             /\ forall k, fd_lookup (w_fds w3) k
                          = if is_pipe (output_type cmd) && (k =? output_fd)
                            then None else fd_lookup (w_fds w2) k).
  { unfold when. destruct (is_pipe (output_type cmd)).
    - destruct (Hpipe eq_refl) as [-> _].
      destruct (close_lookup output_fd w2) as (r & w3 & E3 & _ & H3).
      exists w3. split; [| exact H3].
      rewrite (bind_step _ _ _ _ _ E3). reflexivity.
    - exists w2. split; reflexivity. }
  destruct H3 as (w3 & E3 & H3).
  cbv zeta. unfold PipelineHelpers.execute_child_process.
  change STDIN_FILENO with 0. change STDOUT_FILENO with 1.
  rewrite (final_world_bind _ _ _ _ _ E1), (final_world_bind _ _ _ _ _ E2),
    (final_world_bind _ _ _ _ _ E3), helpers_child_tail_fds.
  assert (Hk : forall k,
             fd_lookup (w_fds w3) k
             = if is_pipe (output_type cmd) && (k =? output_fd) then None
               else if k =? 1 then Some o
               else if k =? output_fd then None
               else if k =? 0 then Some i
               else if k =? input_fd then None
               else fd_lookup (w_fds w) k).
  { intros k. rewrite H3, H2, H1. reflexivity. }
  repeat split.
  - rewrite Hk. destruct (is_pipe (output_type cmd)) eqn:Ep; cbn [andb].
    + destruct (Z.eqb_spec 0 output_fd); [congruence |].
      reflexivity.
    + destruct (Z.eqb_spec 0 output_fd); [congruence | reflexivity].
  - rewrite Hk. destruct (is_pipe (output_type cmd)) eqn:Ep; cbn [andb].
    + destruct (Hpipe eq_refl) as [_ Hne].
      destruct (Z.eqb_spec 1 output_fd); [congruence | reflexivity].
    + reflexivity.
  - intros k Hk0 Hk1 Hki Hko. rewrite Hk.
    destruct (Z.eqb_spec k output_fd); [contradiction |].
    rewrite andb_false_r.
    destruct (Z.eqb_spec k 1); [contradiction |].
    destruct (Z.eqb_spec k 0); [contradiction |].
    destruct (Z.eqb_spec k input_fd); [contradiction | reflexivity].
Qed.

(** [sort < in > out], with [in] open on 3 and [out] on 4. *)
Lemma helpers_child_wiring_witness :
  let fds' := w_fds (final_world
                       (PipelineHelpers.execute_child_process sort_in_out 3 4
                          (0, 0) in_out_opened)) in
  fd_lookup fds' STDIN_FILENO = Some (File "in" O_RDONLY)
  /\ fd_lookup fds' STDOUT_FILENO
     = Some (File "out" (Z.lor (Z.lor O_WRONLY O_CREAT) O_TRUNC))
  /\ forall k, k <> STDIN_FILENO -> k <> STDOUT_FILENO -> k <> 3 -> k <> 4 ->
               fd_lookup fds' k = fd_lookup (w_fds in_out_opened) k.
Proof.
  apply (helpers_child_wiring sort_in_out 3 4 (0, 0) in_out_opened).
  - reflexivity.
  - reflexivity.
  - discriminate.
  - discriminate.
  - reflexivity.
  - discriminate.
Defined.

Lemma inline_child_tail_fds file args w :
  w_fds (final_world
           ((sys_execvp file args ;;
             e <- get_errno ;;
             (if e =? ENOENT
              then fprintf_stderr ("error: cannot find command" ++ nl)
              else perror "Failed to execute the external command") ;;
             @sys_exit unit (-1)) w))
  = w_fds w.
Proof.
  unfold bind, sys_execvp, get_errno. destruct file as [f |].
  - destruct (w_exec_errno w f =? 0); [reflexivity |]. cbn.
    destruct (_ =? ENOENT); reflexivity.
  - cbn. reflexivity.
Qed.

(** X19.  The child of the revision with the logic inline is wired up as
    asked, and, unlike the child of the revision with helper functions, it
    lets go of both ends of the stage's own pipe: when its own code ends,
    its standard input is what [input_fd] was open on, its standard output
    what [output_fd] was open on, the read end of the pipe it writes into is
    closed, and every other descriptor is as it was. *)
Theorem inline_child_wiring cmd l w i o :
  fd_lookup (w_fds w) (input_fd l) = Some i ->
  fd_lookup (w_fds w) (output_fd l) = Some o ->
  output_fd l <> STDIN_FILENO ->
  input_fd l <> output_fd l ->
  1 < w_fd_limit w ->
  (is_pipe (output_type cmd) = true ->
   snd (curr_pipe l) = output_fd l /\ output_fd l <> STDOUT_FILENO
   /\ fst (curr_pipe l) <> STDIN_FILENO
   /\ fst (curr_pipe l) <> STDOUT_FILENO) ->
  let fds' := w_fds (final_world (PipelineInline.child_branch cmd l w)) in
  fd_lookup fds' STDIN_FILENO = Some i
  /\ fd_lookup fds' STDOUT_FILENO = Some o
  /\ (is_pipe (output_type cmd) = true ->
      fd_lookup fds' (fst (curr_pipe l)) = None)
  /\ forall k, k <> STDIN_FILENO -> k <> STDOUT_FILENO ->
               k <> input_fd l -> k <> output_fd l ->
               (is_pipe (output_type cmd) = true -> k <> fst (curr_pipe l)) ->
               fd_lookup fds' k = fd_lookup (w_fds w) k.
Proof.
  intros Hi Ho Ho0 Hio Hlim Hpipe. unfold STDIN_FILENO, STDOUT_FILENO in *.
  destruct (redirect_lookup (input_fd l) 0 i w Hi ltac:(lia))
    as (w1 & E1 & L1 & H1).
  assert (Ho1 : fd_lookup (w_fds w1) (output_fd l) = Some o).
  { rewrite H1.
    destruct (Z.eqb_spec (output_fd l) 0); [contradiction |].
    destruct (Z.eqb_spec (output_fd l) (input_fd l)); [congruence | exact Ho]. }
  destruct (redirect_lookup (output_fd l) 1 o w1 Ho1 ltac:(lia))
    as (w2 & E2 & L2 & H2).
  assert (H3 : exists w3,
             when (is_pipe (output_type cmd))
               (sys_close (fst (curr_pipe l)) ;; sys_close (snd (curr_pipe l)))
               w2
             = Returns tt w3
             /\ forall k, fd_lookup (w_fds w3) k
                          = if is_pipe (output_type cmd)
                               && ((k =? output_fd l)
                                   || (k =? fst (curr_pipe l)))
                            then None else fd_lookup (w_fds w2) k).
  { unfold when. destruct (is_pipe (output_type cmd)).
    - destruct (Hpipe eq_refl) as (Es & _).
      destruct (close_lookup (fst (curr_pipe l)) w2)
        as (r & w3 & E3 & _ & H3).
      destruct (close_lookup (snd (curr_pipe l)) w3)
        as (r' & w4 & E4 & _ & H4).
      exists w4. split.
      + rewrite (bind_step _ _ w2 r' w4); [reflexivity |].
        rewrite (bind_step _ _ _ _ _ E3). exact E4.
      + intros k. rewrite H4, H3, Es. cbn [andb].
        destruct (k =? output_fd l), (k =? fst (curr_pipe l)); reflexivity.
    - exists w2. split; reflexivity. }
  destruct H3 as (w3 & E3 & H3).
  cbv zeta. unfold PipelineInline.child_branch.
  change STDIN_FILENO with 0. change STDOUT_FILENO with 1.
  rewrite (final_world_bind _ _ _ _ _ E1), (final_world_bind _ _ _ _ _ E2),
    (final_world_bind _ _ _ _ _ E3), inline_child_tail_fds.
  assert (Hk : forall k,
             fd_lookup (w_fds w3) k
             = if is_pipe (output_type cmd)
                  && ((k =? output_fd l) || (k =? fst (curr_pipe l)))
               then None
               else if k =? 1 then Some o
               else if k =? output_fd l then None
               else if k =? 0 then Some i
               else if k =? input_fd l then None
               else fd_lookup (w_fds w) k).
  { intros k. rewrite H3, H2, H1. reflexivity. }
  split; [| split; [| split]].
  - rewrite Hk. destruct (is_pipe (output_type cmd)) eqn:Ep; cbn [andb].
    + destruct (Hpipe eq_refl) as (_ & _ & Hf0 & _).
      destruct (Z.eqb_spec 0 (output_fd l)); [congruence |].
      destruct (Z.eqb_spec 0 (fst (curr_pipe l))); [congruence |].
      reflexivity.
    + destruct (Z.eqb_spec 0 (output_fd l)); [congruence | reflexivity].
  - rewrite Hk. destruct (is_pipe (output_type cmd)) eqn:Ep; cbn [andb].
    + destruct (Hpipe eq_refl) as (_ & Hne & _ & Hf1).
      destruct (Z.eqb_spec 1 (output_fd l)); [congruence |].
      destruct (Z.eqb_spec 1 (fst (curr_pipe l))); [congruence |].
      reflexivity.
    + reflexivity.
  - intros Ep. rewrite Hk, Ep, Z.eqb_refl, orb_true_r. reflexivity.
  - intros k Hk0 Hk1 Hki Hko Hkp. rewrite Hk.
    destruct (Z.eqb_spec k (output_fd l)); [contradiction |].
    destruct (Z.eqb_spec k 1); [contradiction |].
    destruct (Z.eqb_spec k 0); [contradiction |].
    destruct (Z.eqb_spec k (input_fd l)); [contradiction |].
    destruct (is_pipe (output_type cmd)); [| reflexivity].
    destruct (Z.eqb_spec k (fst (curr_pipe l)));
      [exfalso; apply Hkp; auto | reflexivity].
Qed.

(** [a |], with the pipe open on 3 and 4: the child writes into the pipe
    and holds no other end of it. *)
Lemma inline_child_wiring_witness :
  let l := {| input_fd := STDIN_FILENO; output_fd := 4;
              prev_pipe := (-1, -1); curr_pipe := (3, 4) |} in
  let fds' := w_fds (final_world
                       (PipelineInline.child_branch a_piping l pipe_opened)) in
  fd_lookup fds' STDIN_FILENO = Some Tty
  /\ fd_lookup fds' STDOUT_FILENO = Some (PipeWr 0)
  /\ (is_pipe (output_type a_piping) = true -> fd_lookup fds' 3 = None)
  /\ forall k, k <> STDIN_FILENO -> k <> STDOUT_FILENO ->
               k <> STDIN_FILENO -> k <> 4 ->
               (is_pipe (output_type a_piping) = true -> k <> 3) ->
               fd_lookup fds' k = fd_lookup (w_fds pipe_opened) k.
Proof.
  apply (inline_child_wiring a_piping
           {| input_fd := STDIN_FILENO; output_fd := 4;
              prev_pipe := (-1, -1); curr_pipe := (3, 4) |} pipe_opened).
  - reflexivity.
  - reflexivity.
  - discriminate.
  - discriminate.
  - reflexivity.
  - intros _. repeat split; discriminate.
Defined.

(** X20.  The child of the revision for single commands touches no
    descriptor: whatever files the shell has opened for the command, the
    program starts (or the child exits) with the descriptors the shell had
    at [fork], standard input and output included; the redirections are
    opened and never put in place. *)
Theorem single_child_keeps_descriptors cmd w :
  w_fds (final_world (SingleCommand.child_branch cmd w)) = w_fds w
  /\ filter (fun e => match e with EvDup2 _ _ _ => true | _ => false end)
       (w_trace (final_world (SingleCommand.child_branch cmd w)))
     = filter (fun e => match e with EvDup2 _ _ _ => true | _ => false end)
         (w_trace w).
Proof.
  unfold SingleCommand.child_branch, bind, sys_execvp, get_errno.
  destruct (argv0 cmd) as [f |].
  - destruct (w_exec_errno w f =? 0); [split; reflexivity |]. cbn.
    destruct (_ =? ENOENT); split; reflexivity.
  - cbn. split; reflexivity.
Qed.

(** ** The pipes of the revision with the logic inline *)

Lemma fd_open_remove_other t fd k :
  fd_open t k = false -> fd_open (fd_remove t fd) k = false.
Proof.
  rewrite !fd_open_lookup, fd_lookup_remove. intros Hk.
  destruct (k =? fd); [reflexivity | exact Hk].
Qed.

Lemma close_keeps_closed fd k w r w' :
  sys_close fd w = Returns r w' ->
  fd_open (w_fds w) k = false -> fd_open (w_fds w') k = false.
Proof.
  unfold sys_close. destruct (fd_open (w_fds w) fd);
    intros [= _ <-] Hk; [| exact Hk].
  apply (fd_open_remove_other _ fd _ Hk).
Qed.

(** X21.  The revision with the logic inline closes [prev_pipe[1]] a second
    time, one turn after it closed it as [curr_pipe[1]].  When the number
    has been given out again in between, to the read end of the next pipe
    (it is the lowest free number when the turn starts), the shell closes
    that read end: the turn ends with [input_fd], the input of the next
    stage, naming a descriptor that is closed. *)
Theorem inline_closes_next_read_end pipeline c l w l' w' :
  PipelineInline.stage pipeline c l w = Returns (inr l') w' ->
  is_pipe (output_type c) = true ->
  fst (prev_pipe l) <> -1 ->
  lowest_free (w_fds w) = snd (prev_pipe l) ->
  input_fd l' = snd (prev_pipe l)
  /\ fd_open (w_fds w') (input_fd l') = false.
Proof.
  unfold PipelineInline.stage. intros H Hp Hprev Hfree.
  apply bind_returns in H as (r0 & w1 & Hout & H).
  unfold PipelineInline.resolve_output in Hout.
  destruct (output_type c) eqn:Ec; try discriminate Hp.
  apply bind_returns in Hout as ([rc arr] & w0 & Hpipe & Hout).
  unfold sys_pipe in Hpipe. destruct (_ <? _).
  2:{ injection Hpipe as <- _ _. cbn [Z.eqb Pos.eqb] in Hout.
      apply bind_returns in Hout as (? & ? & _ & [= <- _]). discriminate H. }
  injection Hpipe as <- <- <-. cbn [Z.eqb] in Hout. injection Hout as <- <-.
  cbn [is_file andb] in H.
  apply bind_returns in H as (pid & w2 & Hfork & H).
  destruct (pid >? 0); [| apply bind_returns in H as (? & ? & _ & [=])].
  apply bind_returns in H as (l2 & w3 & Hpar & [= <- <-]).
  unfold PipelineInline.parent_branch, when in Hpar.
  cbn [prev_pipe curr_pipe fst snd output_fd] in Hpar.
  apply Z.eqb_neq in Hprev. rewrite Hprev, Ec in Hpar. cbn [negb is_pipe] in Hpar.
  apply bind_returns in Hpar as ([] & w4 & H1 & Hpar).
  apply bind_returns in H1 as (? & w5 & H1 & [= <-]).
  apply bind_returns in H1 as (? & w6 & _ & H1).
  apply closed_after_close in H1.
  apply bind_returns in Hpar as ([] & w7 & H2 & [= <- <-]).
  apply bind_returns in H2 as (? & w8 & H2 & [= <-]).
  cbn [input_fd fst]. split; [exact Hfree |].
  rewrite Hfree. apply (close_keeps_closed _ _ _ _ _ H2 H1).
Qed.

(** The turn for [b] in [a | b | c]: the second pipe gets 4 and 5, the
    shell closes 3 and 4, and [c] is to read from 4. *)
Lemma inline_closes_next_read_end_witness :
  exists l' w',
    PipelineInline.stage b_c b_c after_first_turn first_pipe_read_end
    = Returns (inr l') w'
    /\ input_fd l' = 4
    /\ fd_open (w_fds w') (input_fd l') = false.
Proof.
  destruct (PipelineInline.stage b_c b_c after_first_turn first_pipe_read_end)
    as [[rv | l'] w' | | | |] eqn:E; try (vm_compute in E; discriminate E).
  exists l', w'. split; [reflexivity |].
  apply (inline_closes_next_read_end b_c b_c after_first_turn
           first_pipe_read_end l' w' E); [reflexivity | discriminate |].
  reflexivity.
Defined.

(** ** The loop and the reaper *)

(** X22.  In the revisions that run pipelines the loop over the stages
    makes no call to [wait] or [waitpid], however it ends: the shell makes
    the processes of a pipeline one after the other without waiting for any
    of them. *)
Theorem stage_loop_never_waits :
  (forall pipeline c l w,
      waited (final_world (PipelineInline.stage_loop pipeline c l w))
      = waited w)
  /\ (forall c l w,
         waited (final_world (PipelineHelpers.stage_loop c l w)) = waited w).
Proof.
  split; intros.
  - apply inline_stage_loop_waited.
  - apply helpers_stage_loop_waited.
Qed.
